(** * RemotePad bridge (remote-pad.ts): evdev reader, pad slots, PS4 connection

    A shallow embedding of the controller-input bridge of [src/remote-pad.ts]
    and the properties of its specification.

    - Numbers.  The analog channels of a [PadState] and everything
      [normalize] computes are primitive binary64 floats, so the arithmetic is
      the IEEE arithmetic of the runtime ([Math.round], [Math.min] and
      [Math.max] are written out on the specification of the floats).
      Integers that never leave the 32-bit range (the fields of an event
      record, button masks, axis bounds read through an [Int32Array],
      counters) are [Z]; the wrap-around of the bitwise operators is written
      out in [to_int32].
    - State.  The module-level mutable state ([state], [ps4Connection], the
      closures of the connection objects and of the stream handlers) is one
      record, [Bridge], which the handlers thread.
    - Effects.  What a handler does to the outside world (sockets, timers,
      streams, UI broadcasts, HTTP answers) is the list of [Effect]s it
      returns, in order.  What the outside world does to the bridge is an
      [Event]; [handle] is the handler the runtime calls for it.
    - Streams.  The closure of a [data] handler (its ranges and layout) is
      kept with the stream in the slot, and a [StreamData] event is data read
      by the stream the slot holds; for a slot that holds none the event is
      dropped.  In the runtime a destroyed stream emits its [close] later;
      when the slot has a new stream by then, the field is cleared while
      that stream goes on reading.  The data such a stream reads afterwards
      is not an event of this model.
    - Left out: logging, the HTML page, the parsing of
      [/proc/bus/input/devices] (the scan takes the list it yields), the
      presentation helpers (labels, icons, battery level), the set of UI
      clients, and the 100 ms [padStates] broadcast (it reads the state and
      changes nothing).  The JSON field [padIndex] of a request is an
      integer. *)

From Stdlib Require Import ZArith Lia Bool List Ascii String Floats.
From Stdlib Require Uint63.
From stdpp Require Import base option list gmap.

Local Open Scope Z_scope.

(* ====================================================================== *)
(** ** Evdev constants *)

Definition EVENT_SIZE : nat := 24.

Definition EV_SYN : Z := 0x00.
Definition EV_KEY : Z := 0x01.
Definition EV_ABS : Z := 0x03.

Definition BTN_SOUTH : Z := 0x130.
Definition BTN_EAST : Z := 0x131.
Definition BTN_C : Z := 0x132.
Definition BTN_NORTH : Z := 0x133.
Definition BTN_WEST : Z := 0x134.
Definition BTN_TL : Z := 0x136.
Definition BTN_TR : Z := 0x137.
Definition BTN_TL2 : Z := 0x138.
Definition BTN_TR2 : Z := 0x139.
Definition BTN_SELECT : Z := 0x13a.
Definition BTN_START : Z := 0x13b.
Definition BTN_MODE : Z := 0x13c.
Definition BTN_THUMBL : Z := 0x13d.
Definition BTN_THUMBR : Z := 0x13e.
Definition BTN_DPAD_UP : Z := 0x220.
Definition BTN_DPAD_DOWN : Z := 0x221.
Definition BTN_DPAD_LEFT : Z := 0x222.
Definition BTN_DPAD_RIGHT : Z := 0x223.

Definition ABS_X : Z := 0x00.
Definition ABS_Y : Z := 0x01.
Definition ABS_Z : Z := 0x02.
Definition ABS_RX : Z := 0x03.
Definition ABS_RY : Z := 0x04.
Definition ABS_RZ : Z := 0x05.
Definition ABS_GAS : Z := 0x09.
Definition ABS_BRAKE : Z := 0x0a.
Definition ABS_HAT0X : Z := 0x10.
Definition ABS_HAT0Y : Z := 0x11.

(* ====================================================================== *)
(** ** ORBIS (PS4) button bitmask *)

Module ORBIS.
Definition SHARE : Z := 0x0001.
Definition L3 : Z := 0x0002.
Definition R3 : Z := 0x0004.
Definition OPTIONS : Z := 0x0008.
Definition UP : Z := 0x0010.
Definition RIGHT : Z := 0x0020.
Definition DOWN : Z := 0x0040.
Definition LEFT : Z := 0x0080.
Definition L2 : Z := 0x0100.
Definition R2 : Z := 0x0200.
Definition L1 : Z := 0x0400.
Definition R1 : Z := 0x0800.
Definition TRIANGLE : Z := 0x1000.
Definition CIRCLE : Z := 0x2000.
Definition CROSS : Z := 0x4000.
Definition SQUARE : Z := 0x8000.
Definition TOUCHPAD : Z := 0x100000.
End ORBIS.

(** [BUTTON_MAP]: evdev key code to ORBIS bit. *)
Definition BUTTON_MAP : gmap Z Z :=
  list_to_map
    [ (BTN_SOUTH, ORBIS.CROSS); (BTN_EAST, ORBIS.CIRCLE);
      (BTN_WEST, ORBIS.TRIANGLE); (BTN_NORTH, ORBIS.SQUARE);
      (BTN_TL, ORBIS.L1); (BTN_TR, ORBIS.R1);
      (BTN_TL2, ORBIS.L2); (BTN_TR2, ORBIS.R2);
      (BTN_SELECT, ORBIS.SHARE); (BTN_START, ORBIS.OPTIONS);
      (BTN_MODE, ORBIS.TOUCHPAD);
      (BTN_THUMBL, ORBIS.L3); (BTN_THUMBR, ORBIS.R3);
      (BTN_DPAD_UP, ORBIS.UP); (BTN_DPAD_DOWN, ORBIS.DOWN);
      (BTN_DPAD_LEFT, ORBIS.LEFT); (BTN_DPAD_RIGHT, ORBIS.RIGHT) ].

(* ====================================================================== *)
(** ** JavaScript numbers *)

(** The 32-bit signed integers: what [readInt32LE] returns, what an
    [Int32Array] holds and what the bitwise operators produce. *)
Definition int32 (z : Z) : Prop := - 2 ^ 31 <= z < 2 ^ 31.

(** [ToInt32]: wrap into the signed 32-bit range. *)
Definition to_int32 (z : Z) : Z := (z + 2 ^ 31) mod 2 ^ 32 - 2 ^ 31.

(** [a | b], [a & b] and [~a] on numbers. *)
Definition js_or (a b : Z) : Z := to_int32 (Z.lor (to_int32 a) (to_int32 b)).
Definition js_and (a b : Z) : Z := to_int32 (Z.land (to_int32 a) (to_int32 b)).
Definition js_not (a : Z) : Z := to_int32 (Z.lnot (to_int32 a)).

(** [a << n], and [x >>> 0] ([ToUint32]). *)
Definition js_shl (a n : Z) : Z := to_int32 (Z.shiftl (to_int32 a) (n mod 32)).
Definition to_uint32 (z : Z) : Z := z mod 2 ^ 32.

(** The number that holds the integer [z].  Every integer the bridge turns
    into a channel value is below 2^53 in magnitude, where the conversion is
    exact. *)
Definition num_of_Z (z : Z) : float :=
  match z with
  | Z0 => 0%float
  | Zpos _ => PrimFloat.of_uint63 (Uint63.of_Z z)
  | Zneg p => PrimFloat.opp (PrimFloat.of_uint63 (Uint63.of_Z (Zpos p)))
  end.

Definition is_neg_zero (x : float) : bool :=
  match Prim2SF x with S754_zero true => true | _ => false end.

(** [Math.round]: the nearest integer, ties towards +infinity; NaN, the
    infinities and the zeros are returned as they are, and a value in
    [-0.5, 0) gives -0. *)
Definition Math_round (x : float) : float :=
  match Prim2SF x with
  | S754_finite s m e =>
      if 0 <=? e then x
      else
        let n := if s then Zneg m else Zpos m in
        let k := Z.shiftr (n + Z.shiftl 1 (- e - 1)) (- e) in
        if k =? 0 then (if s then neg_zero else zero) else num_of_Z k
  | _ => x
  end.

(** [Math.min] and [Math.max] of two numbers: NaN is contagious and -0 is
    below +0. *)
Definition Math_min (a b : float) : float :=
  if PrimFloat.is_nan a || PrimFloat.is_nan b then nan
  else if PrimFloat.ltb a b then a
  else if PrimFloat.ltb b a then b
  else if is_neg_zero a then a else b.

Definition Math_max (a b : float) : float :=
  if PrimFloat.is_nan a || PrimFloat.is_nan b then nan
  else if PrimFloat.ltb a b then b
  else if PrimFloat.ltb b a then a
  else if is_neg_zero a then b else a.

(** A channel value within 0..255 (false on NaN). *)
Definition in_byte (x : float) : bool :=
  PrimFloat.leb 0 x && PrimFloat.leb x 255.

(* ====================================================================== *)
(** ** Types *)

Record DetectedDevice := {
  name : string;
  eventPath : string;
  vendor : string;
  product : string;
  uniq : string;
  bus : string;
  absCaps : Z  (* bigint: ABS capability bitmask *)
}.

Record AxisRange := { min : Z; max : Z }.

Record PadState := {
  buttons : Z;
  lx : float; ly : float;
  rx : float; ry : float;
  l2 : float; r2 : float
}.

Inductive AxisLayout := standard | gas_brake.

(** A [ReadStream] on a device node, with what its [data] handler closed
    over in [startEvdevReader]: the range map and the layout. *)
Record ReadStream := {
  rs_path : string;
  rs_ranges : gmap Z AxisRange;
  rs_layout : AxisLayout
}.

Record PadSlot := {
  device : option DetectedDevice;
  state : PadState;
  stream : option ReadStream;
  axisRanges : gmap Z AxisRange;
  active : bool
}.

Definition freshPadState : PadState :=
  {| buttons := 0; lx := 128; ly := 128; rx := 128; ry := 128; l2 := 0; r2 := 0 |}.

Definition emptySlot : PadSlot :=
  {| device := None; state := freshPadState; stream := None;
     axisRanges := ∅; active := false |}.

(** Field updates of a [PadState] ([s.lx = v] and the like). *)
Definition set_buttons (v : Z) (s : PadState) : PadState :=
  {| buttons := v; lx := lx s; ly := ly s; rx := rx s; ry := ry s; l2 := l2 s; r2 := r2 s |}.
Definition set_lx (v : float) (s : PadState) : PadState :=
  {| buttons := buttons s; lx := v; ly := ly s; rx := rx s; ry := ry s; l2 := l2 s; r2 := r2 s |}.
Definition set_ly (v : float) (s : PadState) : PadState :=
  {| buttons := buttons s; lx := lx s; ly := v; rx := rx s; ry := ry s; l2 := l2 s; r2 := r2 s |}.
Definition set_rx (v : float) (s : PadState) : PadState :=
  {| buttons := buttons s; lx := lx s; ly := ly s; rx := v; ry := ry s; l2 := l2 s; r2 := r2 s |}.
Definition set_ry (v : float) (s : PadState) : PadState :=
  {| buttons := buttons s; lx := lx s; ly := ly s; rx := rx s; ry := v; l2 := l2 s; r2 := r2 s |}.
Definition set_l2 (v : float) (s : PadState) : PadState :=
  {| buttons := buttons s; lx := lx s; ly := ly s; rx := rx s; ry := ry s; l2 := v; r2 := r2 s |}.
Definition set_r2 (v : float) (s : PadState) : PadState :=
  {| buttons := buttons s; lx := lx s; ly := ly s; rx := rx s; ry := ry s; l2 := l2 s; r2 := v |}.

(** Field updates of a [PadSlot]. *)
Definition set_device (d : option DetectedDevice) (p : PadSlot) : PadSlot :=
  {| device := d; state := state p; stream := stream p;
     axisRanges := axisRanges p; active := active p |}.
Definition set_state (s : PadState) (p : PadSlot) : PadSlot :=
  {| device := device p; state := s; stream := stream p;
     axisRanges := axisRanges p; active := active p |}.
Definition set_stream (r : option ReadStream) (p : PadSlot) : PadSlot :=
  {| device := device p; state := state p; stream := r;
     axisRanges := axisRanges p; active := active p |}.
Definition set_axisRanges (m : gmap Z AxisRange) (p : PadSlot) : PadSlot :=
  {| device := device p; state := state p; stream := stream p;
     axisRanges := m; active := active p |}.
Definition set_active (b : bool) (p : PadSlot) : PadSlot :=
  {| device := device p; state := state p; stream := stream p;
     axisRanges := axisRanges p; active := b |}.

(* ====================================================================== *)
(** ** Axis ranges *)

(** [String.prototype.toLowerCase], on the ASCII letters (the vendor id is a
    word of hexadecimal digits). *)
Definition lower_ascii (c : ascii) : ascii :=
  let n := N_of_ascii c in
  if ((65 <=? n) && (n <=? 90))%N then ascii_of_N (n + 32) else c.

Fixpoint toLowerCase (s : string) : string :=
  match s with
  | EmptyString => EmptyString
  | String c s' => String (lower_ascii c) (toLowerCase s')
  end.

(** The request code of the ioctl that reads [struct input_absinfo] of an
    axis. *)
Definition EVIOCGABS (axis : Z) : Z :=
  to_uint32 (js_or (js_or (js_or (js_shl 2 30) (js_shl 24 16)) (js_shl 0x45 8))
                   (0x40 + axis)).

Definition detectAxisLayout (dev : DetectedDevice) : AxisLayout :=
  let hasRX := negb (Z.land (absCaps dev) (Z.shiftl 1 ABS_RX) =? 0) in
  let hasGas := negb (Z.land (absCaps dev) (Z.shiftl 1 ABS_GAS) =? 0) in
  if negb hasRX && hasGas then gas_brake else standard.

(** What the kernel answers to [detectAxisRanges]: [None] when the device
    node cannot be opened (or the FFI call fails), otherwise for each axis
    the words 1 and 2 of [struct input_absinfo] when the [EVIOCGABS] ioctl
    succeeds. *)
Definition KernelAnswer : Type := option (Z -> option (Z * Z)).

Definition queried_axes : list Z :=
  [ABS_X; ABS_Y; ABS_Z; ABS_RX; ABS_RY; ABS_RZ; ABS_GAS; ABS_BRAKE; ABS_HAT0X; ABS_HAT0Y].

(** The bounds are read out of an [Int32Array]. *)
Definition detectAxisRanges (k : KernelAnswer) : gmap Z AxisRange :=
  match k with
  | None => ∅
  | Some ioctl =>
      fold_left
        (fun ranges axis =>
           match ioctl axis with
           | Some (lo, hi) => <[axis := {| min := to_int32 lo; max := to_int32 hi |}]> ranges
           | None => ranges
           end)
        queried_axes ∅
  end.

Definition getFallbackRanges (vendor : string) : gmap Z AxisRange :=
  let isSony := String.eqb (toLowerCase vendor) "054c" in
  let ranges : gmap Z AxisRange := ∅ in
  let ranges :=
    fold_left (fun ranges a =>
                 <[a := if isSony then {| min := 0; max := 255 |}
                        else {| min := -32768; max := 32767 |}]> ranges)
              [ABS_X; ABS_Y; ABS_RX; ABS_RY] ranges in
  let ranges :=
    fold_left (fun ranges a =>
                 <[a := if isSony then {| min := 0; max := 255 |}
                        else {| min := 0; max := 1023 |}]> ranges)
              [ABS_Z; ABS_RZ] ranges in
  let ranges := <[ABS_HAT0X := {| min := -1; max := 1 |}]> ranges in
  let ranges := <[ABS_HAT0Y := {| min := -1; max := 1 |}]> ranges in
  ranges.

(** [normalize]: the raw value and the bounds are integers held in numbers;
    every operation is the binary64 one. *)
Definition normalize (value : Z) (range : AxisRange) : float :=
  if max range =? min range then 128%float
  else
    Math_max 0
      (Math_min 255
         (Math_round
            (PrimFloat.mul
               (PrimFloat.div
                  (PrimFloat.sub (num_of_Z value) (num_of_Z (min range)))
                  (PrimFloat.sub (num_of_Z (max range)) (num_of_Z (min range))))
               255))).

(* ====================================================================== *)
(** ** Evdev records *)

(** One 24-byte record: bytes 0-15 timestamp, 16-17 type, 18-19 code,
    20-23 value. *)
Record InputEvent := { ev_type : Z; ev_code : Z; ev_value : Z }.

Definition byte_at (buf : list Byte.byte) (i : nat) : Z :=
  match buf !! i with
  | Some b => Z.of_N (Byte.to_N b)
  | None => 0  (* not reached: the loop of the handler keeps reads in range *)
  end.

Definition readUInt16LE (buf : list Byte.byte) (off : nat) : Z :=
  byte_at buf off + 2 ^ 8 * byte_at buf (off + 1).

Definition readInt32LE (buf : list Byte.byte) (off : nat) : Z :=
  to_int32 (byte_at buf off + 2 ^ 8 * byte_at buf (off + 1)
            + 2 ^ 16 * byte_at buf (off + 2) + 2 ^ 24 * byte_at buf (off + 3)).

Definition read_event (buf : list Byte.byte) (i : nat) : InputEvent :=
  {| ev_type := readUInt16LE buf (i + 16);
     ev_code := readUInt16LE buf (i + 18);
     ev_value := readInt32LE buf (i + 20) |}.

(** The offsets [i = 0, 24, 48, ...] with [i + EVENT_SIZE <= buf.length]. *)
Definition event_offsets (buf : list Byte.byte) : list nat :=
  map (fun k => (k * EVENT_SIZE)%nat) (seq 0 (length buf / EVENT_SIZE)).

Definition parse_events (buf : list Byte.byte) : list InputEvent :=
  map (read_event buf) (event_offsets buf).

(** [r ? normalize(value, r) : value] *)
Definition axis_value (r : option AxisRange) (value : Z) : float :=
  match r with
  | Some r => normalize value r
  | None => num_of_Z value
  end.

(** The trigger cases: store the channel, then derive the trigger bit from
    the stored value ([if (s.l2 > 10) ... else ...]). *)
Definition trigger_bit (bit : Z) (v : float) (s : PadState) : PadState :=
  if PrimFloat.ltb 10 v then set_buttons (js_or (buttons s) bit) s
  else set_buttons (js_and (buttons s) (js_not bit)) s.

(** The [EV_KEY] branch of the [data] handler. *)
Definition on_key (code value : Z) (s : PadState) : PadState :=
  match BUTTON_MAP !! code with
  | Some btn =>
      if negb (value =? 0) then set_buttons (js_or (buttons s) btn) s
      else set_buttons (js_and (buttons s) (js_not btn)) s
  | None => s
  end.

(** The [EV_ABS] branch: the [switch (code)]. *)
Definition on_abs (ranges : gmap Z AxisRange) (layout : AxisLayout)
    (code value : Z) (s : PadState) : PadState :=
  let r := ranges !! code in
  if code =? ABS_X then set_lx (axis_value r value) s
  else if code =? ABS_Y then set_ly (axis_value r value) s
  else if code =? ABS_RX then set_rx (axis_value r value) s
  else if code =? ABS_RY then set_ry (axis_value r value) s
  else if code =? ABS_Z then
    match layout with
    | gas_brake => set_rx (axis_value r value) s
    | standard =>
        let s := set_l2 (axis_value r value) s in
        trigger_bit ORBIS.L2 (l2 s) s
    end
  else if code =? ABS_RZ then
    match layout with
    | gas_brake => set_ry (axis_value r value) s
    | standard =>
        let s := set_r2 (axis_value r value) s in
        trigger_bit ORBIS.R2 (r2 s) s
    end
  else if code =? ABS_BRAKE then
    let s := set_l2 (axis_value r value) s in
    trigger_bit ORBIS.L2 (l2 s) s
  else if code =? ABS_GAS then
    let s := set_r2 (axis_value r value) s in
    trigger_bit ORBIS.R2 (r2 s) s
  else if code =? ABS_HAT0X then
    let dpadX := value in
    let s := set_buttons (js_and (buttons s) (js_not (js_or ORBIS.LEFT ORBIS.RIGHT))) s in
    if dpadX <? 0 then set_buttons (js_or (buttons s) ORBIS.LEFT) s
    else if 0 <? dpadX then set_buttons (js_or (buttons s) ORBIS.RIGHT) s
    else s
  else if code =? ABS_HAT0Y then
    let dpadY := value in
    let s := set_buttons (js_and (buttons s) (js_not (js_or ORBIS.UP ORBIS.DOWN))) s in
    if dpadY <? 0 then set_buttons (js_or (buttons s) ORBIS.UP) s
    else if 0 <? dpadY then set_buttons (js_or (buttons s) ORBIS.DOWN) s
    else s
  else s.

(** What one record does to the [PadState] of its slot: the key and axis
    branches of the handler; any other record, a sync record too, leaves the
    state as it is (the push at a sync record is in [on_record] below). *)
Definition apply_record (ranges : gmap Z AxisRange) (layout : AxisLayout)
    (e : InputEvent) (s : PadState) : PadState :=
  if ev_type e =? EV_KEY then on_key (ev_code e) (ev_value e) s
  else if ev_type e =? EV_ABS then on_abs ranges layout (ev_code e) (ev_value e) s
  else s.

Definition apply_records (ranges : gmap Z AxisRange) (layout : AxisLayout)
    (es : list InputEvent) (s : PadState) : PadState :=
  fold_left (fun s e => apply_record ranges layout e s) es s.

(* ====================================================================== *)
(** ** Global state and effects *)

(** The closure of one [createPS4Connection] call.  [ws] says whether the
    variable holds a socket and [reconnectTimer] whether it holds a timer
    handle; [timerPending] is the runtime's side of that timer (set by
    [setTimeout], cleared when it fires or by [clearTimeout]). *)
Record PS4Connection := {
  c_host : string;
  c_port : Z;
  ws : bool;
  open : bool;
  rpcId : Z;
  pending : gset Z;
  reconnectTimer : bool;
  timerPending : bool;
  intentionallyClosed : bool
}.

(** [state] and [ps4Connection] of the module.  Connection objects outlive
    the variable that points at them (their sockets and timers still call
    back), so they live in [conns] and [ps4Connection] is an index into it. *)
Record Bridge := {
  ps4Host : string;
  ps4Port : Z;
  ps4Connected : bool;
  ps4Version : string;
  controllers : list DetectedDevice;
  pads : list PadSlot;
  msgCount : Z;
  ps4Connection : option nat;
  conns : list PS4Connection
}.

Inductive Frame :=
  | PadUpdate (padIndex : Z) (btn : Z) (lx ly rx ry l2 r2 : float) (reserved : Z)
  | InfoRequest (id : Z).

Inductive UIMsg :=
  | ps4StatusMsg (connected : bool) (target : option (string * Z))
  | ps4VersionMsg (version : string)
  | controllersMsg (cs : list DetectedDevice)
  | padAssignmentMsg (pad : Z) (dev : option DetectedDevice).

Inductive Timer :=
  | ReconnectTimer (k : nat)
  | InfoTimer (k : nat) (id : Z).

Inductive Effect :=
  | NewWebSocket (k : nat) (host : string) (port : Z)
  | WsSend (k : nat) (f : Frame)
  | WsClose (k : nat)
  | SetTimeout (t : Timer) (ms : Z)
  | ClearTimeout (t : Timer)
  | CreateReadStream (padIndex : nat) (path : string)
  | DestroyStream (padIndex : nat)
  | BroadcastUI (m : UIMsg)
  | Respond (status : Z).

(** A handler: the new state and what it did, in order. *)
Definition Action : Type := Bridge -> Bridge * list Effect.

Definition skip : Action := fun g => (g, []).
Definition emit (e : Effect) : Action := fun g => (g, [e]).
Definition modify (f : Bridge -> Bridge) : Action := fun g => (f g, []).
(** A handler that first reads the state. *)
Definition with_state (f : Bridge -> Action) : Action := fun g => f g g.
Definition andThen (a b : Action) : Action :=
  fun g => let '(g1, e1) := a g in let '(g2, e2) := b g1 in (g2, e1 ++ e2).

Notation "a ;; b" := (andThen a b) (at level 100, b at level 200, right associativity).

Fixpoint for_each {A : Type} (l : list A) (body : A -> Action) : Action :=
  match l with
  | [] => skip
  | x :: l' => body x ;; for_each l' body
  end.

Definition set_ps4Host (v : string) (g : Bridge) : Bridge :=
  {| ps4Host := v; ps4Port := ps4Port g; ps4Connected := ps4Connected g;
     ps4Version := ps4Version g; controllers := controllers g; pads := pads g;
     msgCount := msgCount g; ps4Connection := ps4Connection g; conns := conns g |}.
Definition set_ps4Port (v : Z) (g : Bridge) : Bridge :=
  {| ps4Host := ps4Host g; ps4Port := v; ps4Connected := ps4Connected g;
     ps4Version := ps4Version g; controllers := controllers g; pads := pads g;
     msgCount := msgCount g; ps4Connection := ps4Connection g; conns := conns g |}.
Definition set_ps4Connected (v : bool) (g : Bridge) : Bridge :=
  {| ps4Host := ps4Host g; ps4Port := ps4Port g; ps4Connected := v;
     ps4Version := ps4Version g; controllers := controllers g; pads := pads g;
     msgCount := msgCount g; ps4Connection := ps4Connection g; conns := conns g |}.
Definition set_ps4Version (v : string) (g : Bridge) : Bridge :=
  {| ps4Host := ps4Host g; ps4Port := ps4Port g; ps4Connected := ps4Connected g;
     ps4Version := v; controllers := controllers g; pads := pads g;
     msgCount := msgCount g; ps4Connection := ps4Connection g; conns := conns g |}.
Definition set_controllers (v : list DetectedDevice) (g : Bridge) : Bridge :=
  {| ps4Host := ps4Host g; ps4Port := ps4Port g; ps4Connected := ps4Connected g;
     ps4Version := ps4Version g; controllers := v; pads := pads g;
     msgCount := msgCount g; ps4Connection := ps4Connection g; conns := conns g |}.
Definition set_pads (v : list PadSlot) (g : Bridge) : Bridge :=
  {| ps4Host := ps4Host g; ps4Port := ps4Port g; ps4Connected := ps4Connected g;
     ps4Version := ps4Version g; controllers := controllers g; pads := v;
     msgCount := msgCount g; ps4Connection := ps4Connection g; conns := conns g |}.
Definition set_msgCount (v : Z) (g : Bridge) : Bridge :=
  {| ps4Host := ps4Host g; ps4Port := ps4Port g; ps4Connected := ps4Connected g;
     ps4Version := ps4Version g; controllers := controllers g; pads := pads g;
     msgCount := v; ps4Connection := ps4Connection g; conns := conns g |}.
Definition set_ps4Connection (v : option nat) (g : Bridge) : Bridge :=
  {| ps4Host := ps4Host g; ps4Port := ps4Port g; ps4Connected := ps4Connected g;
     ps4Version := ps4Version g; controllers := controllers g; pads := pads g;
     msgCount := msgCount g; ps4Connection := v; conns := conns g |}.
Definition set_conns (v : list PS4Connection) (g : Bridge) : Bridge :=
  {| ps4Host := ps4Host g; ps4Port := ps4Port g; ps4Connected := ps4Connected g;
     ps4Version := ps4Version g; controllers := controllers g; pads := pads g;
     msgCount := msgCount g; ps4Connection := ps4Connection g; conns := v |}.

(** [state.pads[i]]: the index is in range wherever the source reads it (the
    handlers check it, the loops run over 0..3 and there are always four
    slots), so the branch without a slot stands for no run of the program. *)
Definition with_pad (i : nat) (f : PadSlot -> Action) : Action :=
  with_state (fun g => match pads g !! i with Some slot => f slot | None => skip end).

Definition modify_pad (i : nat) (f : PadSlot -> PadSlot) : Action :=
  modify (fun g => set_pads (alter f i (pads g)) g).

Definition with_conn (k : nat) (f : PS4Connection -> Action) : Action :=
  with_state (fun g => match conns g !! k with Some c => f c | None => skip end).

Definition modify_conn (k : nat) (f : PS4Connection -> PS4Connection) : Action :=
  modify (fun g => set_conns (alter f k (conns g)) g).

Definition initBridge : Bridge :=
  {| ps4Host := "z-ps4"; ps4Port := 4263; ps4Connected := false; ps4Version := EmptyString;
     controllers := [];
     pads := [emptySlot; emptySlot; emptySlot; emptySlot];
     msgCount := 0; ps4Connection := None; conns := [] |}.

(* ====================================================================== *)
(** ** PS4 WebSocket connection ([createPS4Connection]) *)

Definition set_ws (v : bool) (c : PS4Connection) : PS4Connection :=
  {| c_host := c_host c; c_port := c_port c; ws := v; open := open c; rpcId := rpcId c;
     pending := pending c; reconnectTimer := reconnectTimer c;
     timerPending := timerPending c; intentionallyClosed := intentionallyClosed c |}.
Definition set_open (v : bool) (c : PS4Connection) : PS4Connection :=
  {| c_host := c_host c; c_port := c_port c; ws := ws c; open := v; rpcId := rpcId c;
     pending := pending c; reconnectTimer := reconnectTimer c;
     timerPending := timerPending c; intentionallyClosed := intentionallyClosed c |}.
Definition set_rpcId (v : Z) (c : PS4Connection) : PS4Connection :=
  {| c_host := c_host c; c_port := c_port c; ws := ws c; open := open c; rpcId := v;
     pending := pending c; reconnectTimer := reconnectTimer c;
     timerPending := timerPending c; intentionallyClosed := intentionallyClosed c |}.
Definition set_pending (v : gset Z) (c : PS4Connection) : PS4Connection :=
  {| c_host := c_host c; c_port := c_port c; ws := ws c; open := open c; rpcId := rpcId c;
     pending := v; reconnectTimer := reconnectTimer c;
     timerPending := timerPending c; intentionallyClosed := intentionallyClosed c |}.
Definition set_timer (handle armed : bool) (c : PS4Connection) : PS4Connection :=
  {| c_host := c_host c; c_port := c_port c; ws := ws c; open := open c; rpcId := rpcId c;
     pending := pending c; reconnectTimer := handle;
     timerPending := armed; intentionallyClosed := intentionallyClosed c |}.
Definition set_intentionallyClosed (v : bool) (c : PS4Connection) : PS4Connection :=
  {| c_host := c_host c; c_port := c_port c; ws := ws c; open := open c; rpcId := rpcId c;
     pending := pending c; reconnectTimer := reconnectTimer c;
     timerPending := timerPending c; intentionallyClosed := v |}.

Definition newConnection (host : string) (port : Z) : PS4Connection :=
  {| c_host := host; c_port := port; ws := false; open := false; rpcId := 0;
     pending := ∅; reconnectTimer := false; timerPending := false;
     intentionallyClosed := false |}.

Definition scheduleReconnect (k : nat) : Action :=
  with_conn k (fun c =>
    if intentionallyClosed c || reconnectTimer c then skip
    else (modify_conn k (set_timer true true) ;;
          emit (SetTimeout (ReconnectTimer k) 3000))).

(** [connect()]; [throws] says whether [new WebSocket(url)] throws. *)
Definition connect (k : nat) (throws : bool) : Action :=
  with_conn k (fun c =>
    emit (NewWebSocket k (c_host c) (c_port c)) ;;
    if throws then scheduleReconnect k
    else modify_conn k (set_ws true)).

(** The callback of the reconnect timer. *)
Definition reconnect_callback (k : nat) (throws : bool) : Action :=
  modify_conn k (set_timer false false) ;;
  with_conn k (fun c =>
    if negb (intentionallyClosed c) then connect k throws else skip).

(** The continuation of [getInfo()] in the [open] listener. *)
Definition info_resolved (version : option string) : Action :=
  let v := match version with Some v => v | None => EmptyString end in
  modify (set_ps4Version v) ;;
  if negb (String.eqb v EmptyString) then emit (BroadcastUI (ps4VersionMsg v)) else skip.

Definition getInfo (k : nat) : Action :=
  with_conn k (fun c =>
    if negb (open c) || negb (ws c) then info_resolved None
    else
      let id := rpcId c in
      modify_conn k (set_rpcId (id + 1)) ;;
      emit (SetTimeout (InfoTimer k id) 2000) ;;
      modify_conn k (fun c => set_pending ({[ id ]} ∪ pending c) c) ;;
      emit (WsSend k (InfoRequest id))).

Definition on_ws_open (k : nat) : Action :=
  with_conn k (fun c =>
    modify_conn k (set_open true) ;;
    modify (set_ps4Connected true) ;;
    emit (BroadcastUI (ps4StatusMsg true (Some (c_host c, c_port c)))) ;;
    getInfo k).

Definition on_ws_close (k : nat) : Action :=
  modify_conn k (set_open false) ;;
  modify (set_ps4Connected false) ;;
  emit (BroadcastUI (ps4StatusMsg false None)) ;;
  with_conn k (fun c =>
    if negb (intentionallyClosed c) then scheduleReconnect k else skip).

Definition on_ws_message (k : nat) (id : option Z) (version : option string) : Action :=
  with_conn k (fun c =>
    match id with
    | Some id =>
        if bool_decide (id ∈ pending c) then
          emit (ClearTimeout (InfoTimer k id)) ;;
          info_resolved version ;;
          modify_conn k (fun c => set_pending (pending c ∖ {[ id ]}) c)
        else skip
    | None => skip
    end).

(** The timeout of an [info] request; it was cleared if the answer came. *)
Definition on_info_timeout (k : nat) (id : Z) : Action :=
  with_conn k (fun c =>
    if bool_decide (id ∈ pending c) then
      modify_conn k (fun c => set_pending (pending c ∖ {[ id ]}) c) ;;
      info_resolved None
    else skip).

Definition pad_frame (padIndex : nat) (s : PadState) : Frame :=
  PadUpdate (Z.of_nat padIndex) (buttons s) (lx s) (ly s) (rx s) (ry s) (l2 s) (r2 s) 0.

(** The [send] method. *)
Definition send (k : nat) (s : PadState) (padIndex : nat) : Action :=
  with_conn k (fun c =>
    if negb (open c) || negb (ws c) then skip
    else emit (WsSend k (pad_frame padIndex s))).

(** The [close] method. *)
Definition close (k : nat) : Action :=
  with_conn k (fun c =>
    modify_conn k (set_intentionallyClosed true) ;;
    (if reconnectTimer c
     then (emit (ClearTimeout (ReconnectTimer k)) ;;
           modify_conn k (set_timer true false))
     else skip) ;;
    (if ws c then emit (WsClose k) else skip) ;;
    modify_conn k (set_open false) ;;
    modify (set_ps4Connected false) ;;
    modify (set_ps4Version EmptyString)).

(** [ps4Connection = createPS4Connection(host, port)]: a new object, whose
    constructor calls [connect()]. *)
Definition createPS4Connection (host : string) (port : Z) (throws : bool) : Action :=
  with_state (fun g =>
    let k := length (conns g) in
    modify (fun g => set_conns (conns g ++ [newConnection host port]) g) ;;
    connect k throws ;;
    modify (set_ps4Connection (Some k))).

(* ====================================================================== *)
(** ** Evdev reader *)

Definition stopEvdevReader (padIndex : nat) : Action :=
  with_pad padIndex (fun slot =>
    (match stream slot with
     | Some _ => emit (DestroyStream padIndex) ;; modify_pad padIndex (set_stream None)
     | None => skip
     end) ;;
    modify_pad padIndex (set_active false) ;;
    modify_pad padIndex (set_state freshPadState)).

Definition startEvdevReader (padIndex : nat) (k : KernelAnswer) : Action :=
  with_pad padIndex (fun slot =>
    match device slot, stream slot with
    | Some dev, None =>
        let devicePath := eventPath dev in
        let ranges := detectAxisRanges k in
        let ranges := if bool_decide (size ranges = 0%nat)
                      then getFallbackRanges (vendor dev) else ranges in
        modify_pad padIndex (set_axisRanges ranges) ;;
        modify_pad padIndex (set_state freshPadState) ;;
        modify_pad padIndex (set_active true) ;;
        let layout := detectAxisLayout dev in
        emit (CreateReadStream padIndex devicePath) ;;
        modify_pad padIndex
          (set_stream (Some {| rs_path := devicePath; rs_ranges := ranges;
                               rs_layout := layout |}))
    | _, _ => skip
    end).

(** The body of the loop of the [data] handler, for one record. *)
Definition on_record (padIndex : nat) (rs : ReadStream) (e : InputEvent) : Action :=
  if ev_type e =? EV_KEY then
    modify_pad padIndex
      (fun slot => set_state (on_key (ev_code e) (ev_value e) (state slot)) slot)
  else if ev_type e =? EV_ABS then
    modify_pad padIndex
      (fun slot =>
         set_state (on_abs (rs_ranges rs) (rs_layout rs) (ev_code e) (ev_value e)
                      (state slot)) slot)
  else if ev_type e =? EV_SYN then
    with_pad padIndex (fun slot =>
      with_state (fun g =>
        match ps4Connection g with
        | Some k => send k (state slot) padIndex
        | None => skip
        end)) ;;
    modify (fun g => set_msgCount (msgCount g + 1) g)
  else skip.

(** [stream.on("data", ...)] of the stream of slot [padIndex]. *)
Definition on_data (padIndex : nat) (buf : list Byte.byte) : Action :=
  with_pad padIndex (fun slot =>
    match stream slot with
    | Some rs => for_each (parse_events buf) (on_record padIndex rs)
    | None => skip
    end).

(** [stream.on("error", ...)] and [stream.on("close", ...)]. *)
Definition on_stream_error (padIndex : nat) : Action := stopEvdevReader padIndex.

Definition on_stream_close (padIndex : nat) : Action :=
  modify_pad padIndex (set_stream None) ;;
  modify_pad padIndex (set_active false).

(* ====================================================================== *)
(** ** Periodic scan and HTTP API *)

Definition has_path (p : string) (paths : list string) : bool :=
  existsb (String.eqb p) paths.

Definition slot_indices : list nat := [0; 1; 2; 3]%nat.

(** Stop the reader of slot [i], empty it and tell the UI. *)
Definition vacate (i : nat) : Action :=
  stopEvdevReader i ;;
  modify_pad i (set_device None) ;;
  emit (BroadcastUI (padAssignmentMsg (Z.of_nat i) None)).

(** The controller scan that runs every two seconds; [found] is what
    [detectControllers()] returns. *)
Definition on_scan (found : list DetectedDevice) : Action :=
  with_state (fun g =>
    let prev := controllers g in
    let prevPaths := map eventPath prev in
    let currPaths := map eventPath found in
    let changed :=
      negb (length prev =? length found)%nat
      || existsb (fun p => negb (has_path p currPaths)) prevPaths
      || existsb (fun p => negb (has_path p prevPaths)) currPaths in
    modify (set_controllers found) ;;
    if changed then
      emit (BroadcastUI (controllersMsg found)) ;;
      for_each slot_indices (fun i =>
        with_pad i (fun slot =>
          match device slot with
          | Some d => if negb (has_path (eventPath d) currPaths) then vacate i else skip
          | None => skip
          end))
    else skip).

(** POST /api/assign with an integer [padIndex]. *)
Definition api_assign (path : string) (padIndex : Z) (k : KernelAnswer) : Action :=
  if (padIndex <? 0) || (3 <? padIndex) then emit (Respond 400)
  else
    with_state (fun g =>
      match find (fun c => String.eqb (eventPath c) path) (controllers g) with
      | None => emit (Respond 404)
      | Some dev =>
          let i := Z.to_nat padIndex in
          for_each slot_indices (fun j =>
            with_pad j (fun slot =>
              match device slot with
              | Some d => if String.eqb (eventPath d) path then vacate j else skip
              | None => skip
              end)) ;;
          with_pad i (fun slot =>
            match device slot with
            | Some _ => stopEvdevReader i
            | None => skip
            end) ;;
          modify_pad i (set_device (Some dev)) ;;
          startEvdevReader i k ;;
          emit (BroadcastUI (padAssignmentMsg padIndex (Some dev))) ;;
          emit (Respond 200)
      end).

(** POST /api/unassign with an integer [padIndex]. *)
Definition api_unassign (padIndex : Z) : Action :=
  if (padIndex <? 0) || (3 <? padIndex) then emit (Respond 400)
  else
    let i := Z.to_nat padIndex in
    stopEvdevReader i ;;
    modify_pad i (set_device None) ;;
    emit (BroadcastUI (padAssignmentMsg padIndex None)) ;;
    emit (Respond 200).

(** POST /api/connect. *)
Definition api_connect (host : string) (port : Z) (throws : bool) : Action :=
  if String.eqb host EmptyString then emit (Respond 400)
  else
    with_state (fun g =>
      match ps4Connection g with Some k => close k | None => skip end) ;;
    modify (set_ps4Host host) ;;
    modify (set_ps4Port (if port =? 0 then 4263 else port)) ;;
    with_state (fun g => createPS4Connection (ps4Host g) (ps4Port g) throws) ;;
    emit (Respond 200).

(** POST /api/disconnect. *)
Definition api_disconnect : Action :=
  with_state (fun g =>
    match ps4Connection g with
    | Some k => close k ;; modify (set_ps4Connection None)
    | None => skip
    end) ;;
  modify (set_ps4Connected false) ;;
  modify (set_ps4Host EmptyString) ;;
  modify (set_ps4Version EmptyString) ;;
  emit (BroadcastUI (ps4StatusMsg false None)) ;;
  emit (Respond 200).

(** The [SIGINT] handler: stop the four readers and close the console
    connection.  ([server.stop()] and [process.exit(0)] follow and end the
    process; they touch neither pads nor console.) *)
Definition shutdown : Action :=
  for_each slot_indices stopEvdevReader ;;
  with_state (fun g => match ps4Connection g with Some k => close k | None => skip end).

(* ====================================================================== *)
(** ** The event loop *)

(** What the runtime can deliver to the bridge: stream events of a slot,
    the scan timer, API requests, and the socket and timer callbacks of the
    connection object [k]. *)
Inductive Event :=
  | StreamData (padIndex : nat) (buf : list Byte.byte)
  | StreamError (padIndex : nat)
  | StreamClosed (padIndex : nat)
  | ScanTick (found : list DetectedDevice)
  | ApiAssign (path : string) (padIndex : Z) (k : KernelAnswer)
  | ApiUnassign (padIndex : Z)
  | ApiConnect (host : string) (port : Z) (throws : bool)
  | ApiDisconnect
  | WsOpened (k : nat)
  | WsClosed (k : nat)
  | WsMessage (k : nat) (id : option Z) (version : option string)
  | ReconnectTimerFired (k : nat) (throws : bool)
  | InfoTimerFired (k : nat) (id : Z).

Definition handle (ev : Event) : Action :=
  match ev with
  | StreamData i buf => on_data i buf
  | StreamError i => on_stream_error i
  | StreamClosed i => on_stream_close i
  | ScanTick found => on_scan found
  | ApiAssign path i k => api_assign path i k
  | ApiUnassign i => api_unassign i
  | ApiConnect host port throws => api_connect host port throws
  | ApiDisconnect => api_disconnect
  | WsOpened k => on_ws_open k
  | WsClosed k => on_ws_close k
  | WsMessage k id version => on_ws_message k id version
  | ReconnectTimerFired k throws =>
      with_conn k (fun c => if timerPending c then reconnect_callback k throws else skip)
  | InfoTimerFired k id => on_info_timeout k id
  end.

Definition run (evs : list Event) : Action := for_each evs handle.

(* ====================================================================== *)
(** ** Predicates and sample data of the statements *)

(** All six analog channels within 0..255. *)
Definition channels_in_range (s : PadState) : Prop :=
  in_byte (lx s) = true /\ in_byte (ly s) = true
  /\ in_byte (rx s) = true /\ in_byte (ry s) = true
  /\ in_byte (l2 s) = true /\ in_byte (r2 s) = true.

(** The bounds of a range map are 32-bit integers. *)
Definition ranges_int32 (ranges : gmap Z AxisRange) : Prop :=
  forall code r, ranges !! code = Some r -> int32 (min r) /\ int32 (max r).

(** A record as it is read off the wire: 16-bit unsigned type and code,
    32-bit signed value. *)
Definition wire_record (e : InputEvent) : Prop :=
  0 <= ev_type e < 2 ^ 16 /\ 0 <= ev_code e < 2 ^ 16 /\ int32 (ev_value e).

(** The axis codes that [on_abs] stores into a channel. *)
Definition channel_axes : list Z :=
  [ABS_X; ABS_Y; ABS_RX; ABS_RY; ABS_Z; ABS_RZ; ABS_BRAKE; ABS_GAS].

(** An absolute-axis record for a channel either has a range to be
    normalized with, or carries a raw value that is already within 0..255. *)
Definition calibrated (ranges : gmap Z AxisRange) (e : InputEvent) : Prop :=
  ev_type e = EV_ABS -> In (ev_code e) channel_axes ->
  is_Some (ranges !! ev_code e) \/ 0 <= ev_value e <= 255.

(** The absolute-axis record with the given code and raw value. *)
Definition abs_record (code value : Z) : InputEvent :=
  {| ev_type := EV_ABS; ev_code := code; ev_value := value |}.

(** A slot after [stopEvdevReader]: no stream, inactive, state at rest; the
    device and the range map stay. *)
Definition stopped (slot : PadSlot) : PadSlot :=
  {| device := device slot; state := freshPadState; stream := None;
     axisRanges := axisRanges slot; active := false |}.

(** The devices bound to the slots, in slot order. *)
Definition devices (g : Bridge) : list (option DetectedDevice) := device <$> pads g.

(** No two distinct slots are bound to devices with the same event path. *)
Definition unique_paths (l : list (option DetectedDevice)) : Prop :=
  forall i j di dj, i <> j ->
    l !! i = Some (Some di) -> l !! j = Some (Some dj) -> eventPath di <> eventPath dj.

(** A handler that leaves the binding of devices to slots as it is. *)
Definition keeps_devices (a : Action) : Prop :=
  forall g, devices (fst (a g)) = devices g.

(** There are four slots, bound to devices of distinct paths. *)
Definition slots_ok (g : Bridge) : Prop :=
  length (devices g) = 4%nat /\ unique_paths (devices g).

(** The connection object [k] exists and its [close()] has been called. *)
Definition closed_conn (k : nat) (g : Bridge) : Prop :=
  exists c, conns g !! k = Some c /\ intentionallyClosed c = true.

(** An effect other than opening a socket for connection [k]. *)
Definition no_connect (k : nat) (e : Effect) : Prop :=
  forall host port, e <> NewWebSocket k host port.

(** A specification of a handler: from a state in [P] it ends in a state in
    [Q], and every effect it has is in [E]. *)
Definition triple (P : Bridge -> Prop) (E : Effect -> Prop) (Q : Bridge -> Prop)
    (a : Action) : Prop :=
  forall g, P g -> Q (fst (a g)) /\ Forall E (snd (a g)).

(** The [PadState] of slot [i]. *)
Definition slot_state (g : Bridge) (i : nat) : PadState :=
  match pads g !! i with
  | Some slot => state slot
  | None => freshPadState
  end.

(** Slot [i], for sample states. *)
Definition slot_at (g : Bridge) (i : nat) : PadSlot :=
  match pads g !! i with
  | Some slot => slot
  | None => emptySlot
  end.

(** A record that mutates the pad state: a key or an absolute-axis record. *)
Definition mutating (e : InputEvent) : Prop :=
  ev_type e = EV_KEY \/ ev_type e = EV_ABS.

(** What [ps4Connection?.send(s, i)] puts on the wire: one frame when there
    is a connection object whose socket is open, nothing otherwise. *)
Definition console_open (g : Bridge) : bool :=
  match ps4Connection g with
  | Some k => match conns g !! k with Some c => open c && ws c | None => false end
  | None => false
  end.

Definition console_push (g : Bridge) (i : nat) (s : PadState) : list Effect :=
  match ps4Connection g with
  | Some k => if console_open g then [WsSend k (pad_frame i s)] else []
  | None => []
  end.

(** The pad-update frames among the effects of a handler. *)
Definition pad_updates (effs : list Effect) : list Frame :=
  omap (fun e => match e with
                 | WsSend _ (PadUpdate i b x y u v l r z) => Some (PadUpdate i b x y u v l r z)
                 | _ => None
                 end) effs.

(** A 24-byte record as the kernel writes it (little endian, zero
    timestamp), to build sample buffers. *)
Definition byte_of_Z (z : Z) : Byte.byte :=
  match Byte.of_N (Z.to_N (z mod 256)) with
  | Some b => b
  | None => Byte.x00
  end.

Definition encode_event (e : InputEvent) : list Byte.byte :=
  repeat Byte.x00 16
  ++ [byte_of_Z (ev_type e); byte_of_Z (ev_type e / 2 ^ 8)]
  ++ [byte_of_Z (ev_code e); byte_of_Z (ev_code e / 2 ^ 8)]
  ++ [byte_of_Z (ev_value e); byte_of_Z (ev_value e / 2 ^ 8);
      byte_of_Z (ev_value e / 2 ^ 16); byte_of_Z (ev_value e / 2 ^ 24)].

(** A Bluetooth pad that reports Z/RZ and GAS/BRAKE and no RX/RY. *)
Definition sample_gas_pad : DetectedDevice :=
  {| name := "GameSir-T4"; eventPath := "/dev/input/event5"; vendor := "3537";
     product := "1001"; uniq := "a4:c1:38:00:00:01"; bus := "0005";
     absCaps := 0x30627 |}.

(** An Xbox pad: RX/RY sticks, Z/RZ triggers. *)
Definition sample_xbox_pad : DetectedDevice :=
  {| name := "Xbox Wireless Controller"; eventPath := "/dev/input/event7";
     vendor := "045e"; product := "0b13"; uniq := EmptyString; bus := "0003";
     absCaps := 0x3003f |}.

(** The gas/brake pad bound to slot 0, no console connection yet. *)
Definition sample_assigned : Bridge :=
  fst (run [ ScanTick [sample_gas_pad]; ApiAssign "/dev/input/event5" 0 None ]
           initBridge).

(** The same with the console connected and its socket open. *)
Definition sample_connected : Bridge :=
  fst (run [ ApiConnect "z-ps4" 4263 false; WsOpened 0 ] sample_assigned).

(** A buffer with one button press, one stick move and the sync record. *)
Definition sample_frame : list Byte.byte :=
  encode_event {| ev_type := EV_KEY; ev_code := BTN_SOUTH; ev_value := 1 |}
  ++ encode_event (abs_record ABS_X 0)
  ++ encode_event {| ev_type := EV_SYN; ev_code := 0; ev_value := 0 |}.

(** The console connection lost its socket and waits to reconnect: the
    reconnect timer is armed. *)
Definition sample_reconnecting : Bridge :=
  fst (run [ ApiConnect "z-ps4" 4263 false; WsOpened 0; WsClosed 0 ] initBridge).

(** The pad states at the sync records of a sequence of records: what the
    handler hands to [send] at each of them. *)
Fixpoint sync_states (ranges : gmap Z AxisRange) (layout : AxisLayout)
    (es : list InputEvent) (s : PadState) : list PadState :=
  match es with
  | [] => []
  | e :: es' =>
      let s' := apply_record ranges layout e s in
      (if ev_type e =? EV_SYN then [s'] else []) ++ sync_states ranges layout es' s'
  end.

(** All the bits of the [ORBIS] table, and a button mask made of them only. *)
Definition ORBIS_ALL : Z :=
  fold_right Z.lor 0
    [ ORBIS.SHARE; ORBIS.L3; ORBIS.R3; ORBIS.OPTIONS;
      ORBIS.UP; ORBIS.RIGHT; ORBIS.DOWN; ORBIS.LEFT;
      ORBIS.L2; ORBIS.R2; ORBIS.L1; ORBIS.R1;
      ORBIS.TRIANGLE; ORBIS.CIRCLE; ORBIS.CROSS; ORBIS.SQUARE; ORBIS.TOUCHPAD ].

Definition orbis_mask (b : Z) : Prop := Z.land b ORBIS_ALL = b.




(** Whether the kernel answered for one of the queried axes. *)
Definition answered (k : KernelAnswer) : bool :=
  match k with
  | Some ioctl =>
      existsb (fun a => match ioctl a with Some _ => true | None => false end) queried_axes
  | None => false
  end.

(** The sign of a number, none for NaN. *)
Definition SFsign (x : spec_float) : option bool :=
  match x with
  | S754_zero s | S754_infinity s | S754_finite s _ _ => Some s
  | S754_nan => None
  end.

(** No console connection is current. *)
Definition disconnected (g : Bridge) : Prop := ps4Connection g = None.

(** An effect other than a pad-update frame. *)
Definition not_pad_update (e : Effect) : Prop :=
  match e with
  | WsSend _ (PadUpdate _ _ _ _ _ _ _ _ _) => False
  | _ => True
  end.

(** The socket and reconnect-timer effects among the effects of a handler. *)
Definition socket_effects (effs : list Effect) : list Effect :=
  List.filter (fun e => match e with
                        | NewWebSocket _ _ _ | WsClose _
                        | SetTimeout (ReconnectTimer _) _
                        | ClearTimeout (ReconnectTimer _) => true
                        | _ => false
                        end) effs.

(** The ids of the pending [info] requests of a connection are below its
    request counter. *)
Definition ids_fresh (c : PS4Connection) : Prop :=
  0 <= rpcId c /\ forall id, id ∈ pending c -> 0 <= id < rpcId c.

Definition conns_fresh (g : Bridge) : Prop := Forall ids_fresh (conns g).

(** A slot and its reader agree: a slot that holds a stream is active and
    bound to a device, the stream reads the event path of that device, and
    its handler uses the layout of the device and the range map of the slot;
    a slot without a stream is inactive. *)
Definition reader_ok (slot : PadSlot) : Prop :=
  match stream slot with
  | Some rs =>
      active slot = true
      /\ exists dev, device slot = Some dev
           /\ rs_path rs = eventPath dev
           /\ rs_layout rs = detectAxisLayout dev
           /\ rs_ranges rs = axisRanges slot
  | None => active slot = false
  end.

Definition readers_ok (g : Bridge) : Prop :=
  length (pads g) = 4%nat /\ Forall reader_ok (pads g).

(** The slots are the given ones. *)
Definition same_pads (p0 : list PadSlot) (g : Bridge) : Prop := pads g = p0.

(** The device of a slot is one of the listed controllers (by event path). *)
Definition slot_listed (cs : list DetectedDevice) (slot : PadSlot) : Prop :=
  forall d, device slot = Some d -> has_path (eventPath d) (map eventPath cs) = true.

Definition listed_with (cs : list DetectedDevice) (g : Bridge) : Prop :=
  controllers g = cs /\ Forall (slot_listed cs) (pads g).

Definition listed (g : Bridge) : Prop := listed_with (controllers g) g.

(** What the scan does to a slot: a slot whose device is not among the
    paths found is stopped and emptied, any other slot is left as it is. *)
Definition scan_slot (found : list DetectedDevice) (slot : PadSlot) : PadSlot :=
  match device slot with
  | Some d =>
      if has_path (eventPath d) (map eventPath found) then slot
      else set_device None (stopped slot)
  | None => slot
  end.

(** The [changed] test of the scan. *)
Definition scan_changed (prev found : list DetectedDevice) : bool :=
  negb (length prev =? length found)%nat
  || existsb (fun p => negb (has_path p (map eventPath found))) (map eventPath prev)
  || existsb (fun p => negb (has_path p (map eventPath prev))) (map eventPath found).

(** What stopping the reader of a slot does to the outside. *)
Definition stop_effects (i : nat) (slot : PadSlot) : list Effect :=
  match stream slot with Some _ => [DestroyStream i] | None => [] end.

(** The bridge once [main] has scanned the controllers for the first time:
    the list is set, the four slots are empty. *)
Definition startBridge (found : list DetectedDevice) : Bridge :=
  set_controllers found initBridge.

(** The stream of slot 0 has closed by itself; the device is still bound. *)
Definition sample_closed : Bridge :=
  fst (run [ StreamClosed 0 ] sample_assigned).

(** A kernel that answers for the left stick only. *)
Definition sample_answer : KernelAnswer :=
  Some (fun axis => if (axis =? ABS_X) || (axis =? ABS_Y) then Some (-128, 127) else None).

(* ====================================================================== *)
(** * Properties *)

(** ** Binary64 numbers against their specification *)

Module Num.

Lemma is_nan_Prim2SF x : PrimFloat.is_nan x = true -> Prim2SF x = S754_nan.
Proof. intros H. unfold Prim2SF. now rewrite H. Qed.

Lemma not_nan_Prim2SF x : PrimFloat.is_nan x = false -> Prim2SF x <> S754_nan.
Proof.
  intros H. unfold Prim2SF. rewrite H.
  destruct (PrimFloat.is_zero x); [discriminate|].
  destruct (PrimFloat.is_infinity x); [discriminate|].
  destruct (Z.frexp x) as [r ex].
  destruct (shr_fexp _ _ _ _ _) as [sh e'].
  destruct (shr_m sh); discriminate.
Qed.

Lemma Prim2SF_is_nan x : Prim2SF x <> S754_nan -> PrimFloat.is_nan x = false.
Proof.
  intros H. destruct (PrimFloat.is_nan x) eqn:E; [|reflexivity].
  now apply is_nan_Prim2SF in E.
Qed.

(** Right shifts keep a mantissa non-negative, so rounding never lands on
    the NaN branch of [binary_round_aux]. *)
Lemma shr_1_nonneg mrs : 0 <= shr_m mrs -> 0 <= shr_m (shr_1 mrs).
Proof.
  destruct mrs as [m r s]; simpl. destruct m as [|[p|p|]|[p|p|]]; simpl; lia.
Qed.

Lemma iter_pos_shr_1_nonneg p :
  forall mrs, 0 <= shr_m mrs -> 0 <= shr_m (SpecFloat.iter_pos shr_1 p mrs).
Proof.
  induction p as [p IH|p IH|]; intros mrs H; simpl.
  - apply IH, IH, shr_1_nonneg, H.
  - apply IH, IH, H.
  - apply shr_1_nonneg, H.
Qed.

Lemma shr_fexp_nonneg m e l :
  0 <= m -> 0 <= shr_m (fst (shr_fexp prec emax m e l)).
Proof.
  intros H. unfold shr_fexp, shr.
  assert (H0 : 0 <= shr_m (shr_record_of_loc m l)) by (destruct l as [|[]]; exact H).
  destruct (_ - e); simpl; auto using iter_pos_shr_1_nonneg.
Qed.

Lemma round_nearest_even_nonneg m l : 0 <= m -> 0 <= round_nearest_even m l.
Proof.
  intros H. destruct l as [|[]]; simpl; try lia. destruct (Z.even m); lia.
Qed.

Lemma binary_round_aux_not_nan s m e l :
  0 <= m -> binary_round_aux prec emax s m e l <> S754_nan.
Proof.
  intros H. unfold binary_round_aux.
  pose proof (shr_fexp_nonneg m e l H) as H1.
  destruct (shr_fexp prec emax m e l) as [mrs' e']. simpl in H1.
  pose proof (shr_fexp_nonneg _ e' loc_Exact
                (round_nearest_even_nonneg _ (loc_of_shr_record mrs') H1)) as H2.
  destruct (shr_fexp prec emax (round_nearest_even _ _) e' loc_Exact) as [mrs'' e''].
  simpl in H2. destruct (shr_m mrs''); try discriminate; [|lia].
  destruct (e'' <=? _); discriminate.
Qed.

Lemma binary_normalize_not_nan m e sz : binary_normalize prec emax m e sz <> S754_nan.
Proof.
  destruct m; simpl; [discriminate| |];
    unfold binary_round; destruct (shl_align _ _ _); apply binary_round_aux_not_nan; lia.
Qed.

Lemma SFmul_not_nan x sy my ey :
  x <> S754_nan -> SF64mul x (S754_finite sy my ey) <> S754_nan.
Proof.
  intros H. destruct x; simpl; try discriminate; [congruence|].
  apply binary_round_aux_not_nan. lia.
Qed.

Lemma SFdiv_not_nan x sy my ey :
  x <> S754_nan -> SF64div x (S754_finite sy my ey) <> S754_nan.
Proof.
  intros H. destruct x as [sx|sx| |sx mx ex]; simpl; try discriminate; [congruence|].
  unfold SF64div, SFdiv, SFdiv_core_binary.
  set (m' := match _ - _ with Z0 => Z.pos mx | Z.pos _ => _ | Z.neg _ => 0 end).
  assert (0 <= m').
  { subst m'. destruct (_ - _); try lia. apply Z.shiftl_nonneg. lia. }
  pose proof (Z_div_mod m' (Z.pos my) ltac:(lia)) as Hd.
  destruct (Z.div_eucl m' (Z.pos my)) as [q r].
  apply binary_round_aux_not_nan. nia.
Qed.

(** The number of binary digits of a mantissa. *)
Lemma digits2_pos_lower p : 2 ^ (Zpos (digits2_pos p) - 1) <= Zpos p.
Proof.
  induction p as [p IH|p IH|]; simpl digits2_pos; [| |simpl; lia];
    rewrite Pos2Z.inj_succ;
    replace (Z.succ (Zpos (digits2_pos p)) - 1) with (Z.succ (Zpos (digits2_pos p) - 1)) by lia;
    rewrite Z.pow_succ_r by lia; lia.
Qed.

Lemma digits2_pos_small p : Zpos p < 2 ^ 53 -> Zpos (digits2_pos p) <= 53.
Proof.
  intros H. destruct (Z_le_gt_dec (Zpos (digits2_pos p)) 53) as [|G]; [assumption|].
  pose proof (digits2_pos_lower p) as L.
  assert (2 ^ 53 <= 2 ^ (Zpos (digits2_pos p) - 1)) by (apply Z.pow_le_mono_r; lia).
  lia.
Qed.

Lemma digits2_pos_iter_xO k p :
  digits2_pos (Pos.iter xO p k) = (digits2_pos p + k)%positive.
Proof.
  induction k as [|k IH] using Pos.peano_ind.
  - simpl. lia.
  - rewrite Pos.iter_succ. simpl. rewrite IH. lia.
Qed.

Lemma binary_round_aux_canonical s m e :
  canonical_mantissa prec emax m e = true -> e <= emax - prec ->
  binary_round_aux prec emax s (Zpos m) e loc_Exact = S754_finite s m e.
Proof.
  unfold canonical_mantissa. intros C%Z.eqb_eq B.
  unfold binary_round_aux, shr_fexp. simpl Zdigits2.
  rewrite C, Z.sub_diag. simpl. rewrite C, Z.sub_diag. simpl.
  apply Z.leb_le in B. now rewrite B.
Qed.

Lemma to_Z_of_Z_small z : 0 <= z < 2 ^ 53 -> Uint63.to_Z (Uint63.of_Z z) = z.
Proof.
  intros H. rewrite Uint63.of_Z_spec. apply Z.mod_small.
  change Uint63.wB with (2 ^ 63).
  assert (2 ^ 53 < 2 ^ 63) by (apply Z.pow_lt_mono_r; lia). lia.
Qed.

Lemma num_of_Z_not_nan z : Prim2SF (num_of_Z z) <> S754_nan.
Proof.
  destruct z as [|p|p]; unfold num_of_Z.
  - vm_compute. discriminate.
  - rewrite of_uint63_spec. apply binary_normalize_not_nan.
  - rewrite opp_spec, of_uint63_spec.
    pose proof (binary_normalize_not_nan (Uint63.to_Z (Uint63.of_Z (Zpos p))) 0 false) as N.
    destruct (binary_normalize _ _ _ _ _); simpl; congruence.
Qed.

Lemma Zpos_iter_xO p k : Zpos (Pos.iter xO p k) = Zpos p * 2 ^ Zpos k.
Proof.
  induction k as [|k IH] using Pos.peano_ind.
  - simpl. lia.
  - rewrite Pos.iter_succ, Pos2Z.inj_xO, IH, Pos2Z.inj_succ, Z.pow_succ_r by lia. lia.
Qed.

(** A mantissa scaled by a power of two has that many more digits. *)
Lemma digits2_pos_scaled p P K :
  0 <= K -> Zpos P = Zpos p * 2 ^ K ->
  Zpos (digits2_pos P) = Zpos (digits2_pos p) + K.
Proof.
  intros HK E. destruct K as [|k|k]; [| |lia].
  - assert (P = p) as -> by lia. lia.
  - rewrite <- Zpos_iter_xO in E. injection E as ->.
    rewrite digits2_pos_iter_xO. lia.
Qed.

(** Shifting out zero bits is exact. *)
Lemma iter_pos_shr_1_exact n :
  forall q, SpecFloat.iter_pos shr_1 n
              {| shr_m := Zpos (Pos.iter xO q n); shr_r := false; shr_s := false |}
            = {| shr_m := Zpos q; shr_r := false; shr_s := false |}.
Proof.
  induction n as [n IH|n IH|]; intros q; simpl.
  - now rewrite IH, IH.
  - now rewrite IH, IH.
  - reflexivity.
Qed.

Lemma binary_round_aux_shift s m n e :
  canonical_mantissa prec emax m (e + Zpos n) = true -> e + Zpos n <= emax - prec ->
  binary_round_aux prec emax s (Zpos (Pos.iter xO m n)) e loc_Exact
  = S754_finite s m (e + Zpos n).
Proof.
  intros C B. pose proof C as C'. unfold canonical_mantissa in C'. apply Z.eqb_eq in C'.
  unfold binary_round_aux, shr_fexp at 1. simpl Zdigits2.
  rewrite digits2_pos_iter_xO, Pos2Z.inj_add.
  replace (Zpos (digits2_pos m) + Zpos n + e) with (Zpos (digits2_pos m) + (e + Zpos n)) by lia.
  rewrite C'. replace (e + Zpos n - e) with (Zpos n) by lia.
  simpl shr_record_of_loc. unfold shr. rewrite iter_pos_shr_1_exact.
  simpl. unfold shr_fexp. simpl Zdigits2. rewrite C', Z.sub_diag. simpl.
  apply Z.leb_le in B. now rewrite B.
Qed.

Lemma fexp_small d : 1 <= d <= 53 -> fexp prec emax d = d - 53.
Proof. intros H. unfold fexp, SpecFloat.emin, prec, emax. lia. Qed.

Lemma canonical_53 m e :
  Zpos (digits2_pos m) = 53 -> -52 <= e <= 0 -> canonical_mantissa prec emax m e = true.
Proof.
  intros D E. unfold canonical_mantissa. rewrite D.
  unfold fexp, SpecFloat.emin, prec, emax. apply Z.eqb_eq. lia.
Qed.

(** Rounding the integer [p * 2^K], given with exponent [-K], gives the
    canonical representation of [p]: 53 digits of mantissa. *)
Lemma binary_round_scaled s p K P :
  Zpos p < 2 ^ 53 -> 0 <= K -> Zpos P = Zpos p * 2 ^ K ->
  exists m, Zpos m = Zpos p * 2 ^ (53 - Zpos (digits2_pos p))
         /\ binary_round prec emax s P (- K) = S754_finite s m (Zpos (digits2_pos p) - 53).
Proof.
  intros B HK E. pose proof (digits2_pos_small p B) as D.
  pose proof (digits2_pos_scaled p P K HK E) as DP.
  set (d := Zpos (digits2_pos p)) in *. assert (1 <= d) by (subst d; lia).
  unfold binary_round, shl_align. rewrite DP.
  replace (d + K + - K) with d by lia. rewrite fexp_small by lia.
  destruct (d - 53 - - K) as [|n|n] eqn:T.
  - exists P. split.
    + rewrite E. f_equal. f_equal. lia.
    + replace (d - 53) with (- K) by lia.
      apply binary_round_aux_canonical; [|unfold prec, emax; lia].
      apply canonical_53; lia.
  - assert (Hm : 0 < Zpos p * 2 ^ (53 - d)) by (apply Z.mul_pos_pos; [lia|apply Z.pow_pos_nonneg; lia]).
    destruct (Zpos p * 2 ^ (53 - d)) as [|m|m] eqn:M; try lia.
    exists m. split; [reflexivity|].
    assert (P = Pos.iter xO m n) as ->.
    { apply Pos2Z.inj. rewrite Zpos_iter_xO, E, <- M, <- Z.mul_assoc, <- Z.pow_add_r by lia.
      f_equal. f_equal. lia. }
    replace (d - 53) with (- K + Zpos n) by lia.
    apply binary_round_aux_shift; [|unfold prec, emax; lia].
    apply canonical_53; [|lia].
    rewrite (digits2_pos_scaled p m (53 - d)); [subst d; lia|lia|now rewrite M].
  - exists (Pos.iter xO P n). split.
    + rewrite Zpos_iter_xO, E, <- Z.mul_assoc, <- Z.pow_add_r by lia.
      f_equal. f_equal. lia.
    + apply binary_round_aux_canonical; [|unfold prec, emax; lia].
      apply canonical_53; [|lia]. rewrite digits2_pos_iter_xO. lia.
Qed.

(** The specification of the number that holds a non-zero integer below
    2^53: sign, 53-digit mantissa, exponent. *)
Lemma num_of_Z_canonical z :
  z <> 0 -> Z.abs z < 2 ^ 53 ->
  exists m, Zpos m = Z.abs z * 2 ^ (53 - Zdigits2 z)
         /\ Prim2SF (num_of_Z z) = S754_finite (z <? 0) m (Zdigits2 z - 53).
Proof.
  intros NZ B. destruct z as [|p|p]; [congruence| |]; unfold num_of_Z; simpl Zdigits2.
  - rewrite of_uint63_spec, to_Z_of_Z_small by (simpl in B; lia).
    change (binary_normalize prec emax (Zpos p) 0 false)
      with (binary_round prec emax false p (- 0)).
    destruct (binary_round_scaled false p 0 p B ltac:(lia) ltac:(lia)) as (m & M & ->).
    exists m. split; [exact M|reflexivity].
  - rewrite opp_spec, of_uint63_spec, to_Z_of_Z_small by (simpl in B; lia).
    change (binary_normalize prec emax (Zpos p) 0 false)
      with (binary_round prec emax false p (- 0)).
    destruct (binary_round_scaled false p 0 p B ltac:(lia) ltac:(lia)) as (m & M & ->).
    exists m. split; [exact M|reflexivity].
Qed.

Lemma num_of_Z_finite z :
  z <> 0 -> Z.abs z < 2 ^ 53 ->
  exists m e, Prim2SF (num_of_Z z) = S754_finite (z <? 0) m e.
Proof.
  intros NZ B. destruct (num_of_Z_canonical z NZ B) as (m & _ & E). eauto.
Qed.

(** Normalizing the integer [z * 2^K], given with exponent [-K], gives the
    number that holds [z]. *)
Lemma binary_normalize_scaled z K :
  Z.abs z < 2 ^ 53 -> 0 <= K ->
  binary_normalize prec emax (z * 2 ^ K) (- K) false = Prim2SF (num_of_Z z).
Proof.
  intros B HK. destruct (Z.eq_dec z 0) as [->|NZ]; [reflexivity|].
  destruct (num_of_Z_canonical z NZ B) as (m & M & ->).
  assert (P2 : 0 < 2 ^ K) by (apply Z.pow_pos_nonneg; lia).
  destruct z as [|p|p]; [congruence| |]; simpl Zdigits2 in *; simpl Z.abs in *.
  - destruct (Zpos p * 2 ^ K) as [|P|P] eqn:E; try lia.
    simpl binary_normalize.
    destruct (binary_round_scaled false p K P B HK) as (m' & M' & ->); [lia|].
    assert (m' = m) as -> by lia. reflexivity.
  - destruct (Zneg p * 2 ^ K) as [|P|P] eqn:E; try lia.
    simpl binary_normalize.
    destruct (binary_round_scaled true p K P B HK) as (m' & M' & ->); [lia|].
    assert (m' = m) as -> by lia. reflexivity.
Qed.

Lemma shl_align_value m e e' :
  e' <= e -> Zpos (fst (shl_align m e e')) = Zpos m * 2 ^ (e - e').
Proof.
  intros H. unfold shl_align. destruct (e' - e) as [|n|n] eqn:T; simpl fst.
  - replace (e - e') with 0 by lia. lia.
  - lia.
  - rewrite Zpos_iter_xO. f_equal. f_equal. lia.
Qed.

Lemma Zdigits2_small z : z <> 0 -> Z.abs z < 2 ^ 53 -> 1 <= Zdigits2 z <= 53.
Proof.
  intros NZ B. destruct z as [|p|p]; [congruence| |]; simpl in *;
    pose proof (digits2_pos_small p B); lia.
Qed.

(** Subtraction of integers below 2^52 is exact. *)
Lemma sub_exact a b :
  Z.abs a < 2 ^ 52 -> Z.abs b < 2 ^ 52 ->
  PrimFloat.sub (num_of_Z a) (num_of_Z b) = num_of_Z (a - b).
Proof.
  intros Ha Hb.
  assert (2 ^ 53 = 2 * 2 ^ 52) by reflexivity.
  apply Prim2SF_inj. rewrite sub_spec.
  destruct (Z.eq_dec a 0) as [->|NA]; destruct (Z.eq_dec b 0) as [->|NB].
  - reflexivity.
  - destruct (num_of_Z_canonical b NB ltac:(lia)) as (mb & Mb & Eb).
    destruct (num_of_Z_canonical (0 - b) ltac:(lia) ltac:(lia)) as (mb' & Mb' & Eb').
    rewrite Eb, Eb'. change (Prim2SF (num_of_Z 0)) with (S754_zero false).
    simpl SF64sub.
    assert (Zdigits2 (0 - b) = Zdigits2 b) as D by (destruct b; reflexivity).
    rewrite D in *. replace (Z.abs (0 - b)) with (Z.abs b) in Mb' by lia.
    assert (mb' = mb) as -> by lia.
    f_equal. destruct b; try congruence; reflexivity.
  - rewrite Z.sub_0_r.
    destruct (num_of_Z_canonical a NA ltac:(lia)) as (ma & Ma & Ea).
    rewrite Ea. reflexivity.
  - destruct (num_of_Z_canonical a NA ltac:(lia)) as (ma & Ma & Ea).
    destruct (num_of_Z_canonical b NB ltac:(lia)) as (mb & Mb & Eb).
    pose proof (Zdigits2_small a NA ltac:(lia)) as Da.
    pose proof (Zdigits2_small b NB ltac:(lia)) as Db.
    rewrite Ea, Eb. unfold SF64sub, SFsub.
    set (ea := Zdigits2 a - 53) in *. set (eb := Zdigits2 b - 53) in *.
    set (ez := Z.min ea eb).
    rewrite (shl_align_value ma ea ez), (shl_align_value mb eb ez) by (subst ez; lia).
    rewrite <- (binary_normalize_scaled (a - b) (- ez)) by (subst ez; lia).
    rewrite Z.opp_involutive. f_equal.
    rewrite Ma, Mb, <- !Z.mul_assoc, <- !Z.pow_add_r by (subst ez ea eb; lia).
    replace (53 - Zdigits2 a + (ea - ez)) with (- ez) by (subst ea; lia).
    replace (53 - Zdigits2 b + (eb - ez)) with (- ez) by (subst eb; lia).
    destruct a, b; try congruence; simpl; lia.
Qed.

End Num.

Module NumOps.
Import Num.

Lemma div_eucl_shiftl m : Z.div_eucl (Z.shiftl (Zpos m) 53) (Zpos m) = (2 ^ 53, 0).
Proof.
  rewrite Z.shiftl_mul_pow2 by lia.
  pose proof (Z_div_mod (Zpos m * 2 ^ 53) (Zpos m) ltac:(lia)) as D.
  destruct (Z.div_eucl (Zpos m * 2 ^ 53) (Zpos m)) as [q r].
  destruct D as [D1 D2].
  assert (r = 0 /\ q = 2 ^ 53) as [-> ->]; [|reflexivity].
  assert (Zpos m * (2 ^ 53 - q) = r) by lia.
  assert (2 ^ 53 - q = 0) by nia. lia.
Qed.

(** A finite number divided by itself is exactly 1. *)
Lemma SFdiv_self s m e :
  SF64div (S754_finite s m e) (S754_finite s m e)
  = S754_finite false 4503599627370496 (-52).
Proof.
  unfold SF64div, SFdiv, SFdiv_core_binary.
  rewrite !Z.sub_diag.
  change (fexp prec emax 0) with (-53).
  change (Z.min (-53) 0) with (-53).
  change (0 - -53) with 53.
  cbv iota beta.
  rewrite div_eucl_shiftl.
  rewrite xorb_nilpotent.
  assert (L : new_location (Zpos m) 0 = loc_Exact).
  { unfold new_location. destruct (Z.even (Zpos m)); reflexivity. }
  rewrite L. vm_compute. reflexivity.
Qed.

Lemma div_self z :
  z <> 0 -> Z.abs z < 2 ^ 53 -> PrimFloat.div (num_of_Z z) (num_of_Z z) = 1%float.
Proof.
  intros NZ B. destruct (num_of_Z_finite z NZ B) as (m & e & H).
  apply Prim2SF_inj. rewrite div_spec, H, SFdiv_self. reflexivity.
Qed.

Lemma div_zero_pos z :
  0 < z < 2 ^ 53 -> PrimFloat.div 0 (num_of_Z z) = 0%float.
Proof.
  intros B. destruct (num_of_Z_finite z ltac:(lia) ltac:(lia)) as (m & e & H).
  apply Prim2SF_inj. rewrite div_spec, H.
  replace (z <? 0) with false by (symmetry; apply Z.ltb_ge; lia).
  reflexivity.
Qed.

Lemma div_not_nan a z :
  z <> 0 -> Z.abs z < 2 ^ 53 ->
  PrimFloat.is_nan (PrimFloat.div (num_of_Z a) (num_of_Z z)) = false.
Proof.
  intros NZ B. destruct (num_of_Z_finite z NZ B) as (m & e & H).
  apply Prim2SF_is_nan. rewrite div_spec, H.
  apply SFdiv_not_nan, num_of_Z_not_nan.
Qed.

Lemma mul_255_not_nan x :
  PrimFloat.is_nan x = false -> PrimFloat.is_nan (PrimFloat.mul x 255) = false.
Proof.
  intros H%not_nan_Prim2SF. apply Prim2SF_is_nan. rewrite mul_spec.
  change (Prim2SF 255) with (S754_finite false 8972014882652160 (-45)).
  now apply SFmul_not_nan.
Qed.

Lemma Math_round_not_nan x :
  PrimFloat.is_nan x = false -> PrimFloat.is_nan (Math_round x) = false.
Proof.
  intros H. unfold Math_round.
  destruct (Prim2SF x) as [s|s| |s m e] eqn:E; try assumption.
  destruct (0 <=? e); [assumption|].
  destruct (_ =? 0).
  - destruct s; reflexivity.
  - apply Prim2SF_is_nan, num_of_Z_not_nan.
Qed.

(** The order on numbers. *)
Lemma SFcompare_antisym x y :
  SFcompare y x = option_map CompOpp (SFcompare x y).
Proof.
  destruct x as [sx|sx| |sx mx ex], y as [sy|sy| |sy my ey]; simpl;
    try reflexivity; try (destruct sx; reflexivity); try (destruct sy; reflexivity);
    try (destruct sx, sy; reflexivity).
  f_equal. rewrite (Z.compare_antisym ex ey).
  change (Pos.compare_cont Eq my mx) with (Pos.compare_cont (CompOpp Eq) my mx).
  rewrite <- (Pos.compare_cont_antisym mx my Eq).
  destruct sx, sy, (ex ?= ey), (Pos.compare_cont Eq mx my); reflexivity.
Qed.

Lemma ltb_leb x y : PrimFloat.ltb x y = true -> PrimFloat.leb x y = true.
Proof.
  rewrite ltb_spec, leb_spec. unfold SFltb, SFleb.
  destruct (SFcompare _ _) as [[]|]; congruence.
Qed.

Lemma not_ltb_leb x y :
  PrimFloat.is_nan x = false -> PrimFloat.is_nan y = false ->
  PrimFloat.ltb x y = false -> PrimFloat.leb y x = true.
Proof.
  intros Nx%not_nan_Prim2SF Ny%not_nan_Prim2SF.
  rewrite ltb_spec, leb_spec. unfold SFltb, SFleb.
  rewrite (SFcompare_antisym (Prim2SF x) (Prim2SF y)).
  destruct (SFcompare (Prim2SF x) (Prim2SF y)) as [[]|] eqn:E; simpl; try congruence.
  intros _. destruct (Prim2SF x), (Prim2SF y); simpl in E; congruence.
Qed.

(** [Math.max(0, Math.min(255, r))] is within 0..255 unless [r] is NaN. *)
Lemma clamp_in_byte r :
  PrimFloat.is_nan r = false -> in_byte (Math_max 0 (Math_min 255 r)) = true.
Proof.
  intros N. unfold Math_min.
  change (PrimFloat.is_nan 255) with false. rewrite N. cbn [orb].
  destruct (PrimFloat.ltb 255 r) eqn:E1; [reflexivity|].
  assert (M : (if PrimFloat.ltb r 255 then r else if is_neg_zero 255 then 255%float else r) = r).
  { destruct (PrimFloat.ltb r 255); reflexivity. }
  rewrite M. clear M. unfold Math_max.
  change (PrimFloat.is_nan 0) with false. rewrite N. cbn [orb].
  destruct (PrimFloat.ltb 0 r) eqn:E2.
  - unfold in_byte. rewrite (ltb_leb _ _ E2). cbn [andb].
    apply not_ltb_leb; auto.
  - destruct (PrimFloat.ltb r 0); reflexivity.
Qed.

(** A raw byte value is a channel value within 0..255 as it is. *)
Lemma num_of_byte_in_byte v : 0 <= v <= 255 -> in_byte (num_of_Z v) = true.
Proof.
  intros H.
  assert (A : forallb (fun n => in_byte (num_of_Z (Z.of_nat n))) (seq 0 256) = true)
    by (vm_compute; reflexivity).
  rewrite forallb_forall in A.
  rewrite <- (Z2Nat.id v) by lia. apply A, in_seq. lia.
Qed.

End NumOps.

(* ====================================================================== *)
(** ** [normalize] *)

Section Normalize.
Import Num NumOps.

Lemma int32_small a : int32 a -> Z.abs a < 2 ^ 52.
Proof. unfold int32. intros H. change (2 ^ 52) with 4503599627370496. lia. Qed.

Lemma int32_diff_small a b : int32 a -> int32 b -> Z.abs (a - b) < 2 ^ 53.
Proof. unfold int32. intros Ha Hb. change (2 ^ 53) with 9007199254740992. lia. Qed.

(** Whatever the raw value, a range with 32-bit bounds gives a channel value
    within 0..255. *)
Lemma normalize_in_byte value range :
  int32 value -> int32 (min range) -> int32 (max range) ->
  in_byte (normalize value range) = true.
Proof.
  intros Hv Hlo Hhi. unfold normalize.
  destruct (max range =? min range) eqn:E; [reflexivity|].
  apply Z.eqb_neq in E.
  rewrite !sub_exact by now apply int32_small.
  apply clamp_in_byte, Math_round_not_nan, mul_255_not_nan, div_not_nan.
  - lia.
  - now apply int32_diff_small.
Qed.

Lemma normalize_degenerate value range :
  max range = min range -> normalize value range = 128%float.
Proof. intros E. unfold normalize. apply Z.eqb_eq in E. now rewrite E. Qed.

Lemma normalize_at_min range :
  int32 (min range) -> int32 (max range) -> min range < max range ->
  normalize (min range) range = 0%float.
Proof.
  intros Hlo Hhi Hlt. unfold normalize.
  replace (max range =? min range) with false by (symmetry; apply Z.eqb_neq; lia).
  rewrite !sub_exact by now apply int32_small.
  rewrite Z.sub_diag. change (num_of_Z 0) with 0%float.
  rewrite div_zero_pos; [reflexivity|].
  pose proof (int32_diff_small _ _ Hhi Hlo). lia.
Qed.

Lemma normalize_at_max range :
  int32 (min range) -> int32 (max range) -> min range < max range ->
  normalize (max range) range = 255%float.
Proof.
  intros Hlo Hhi Hlt. unfold normalize.
  replace (max range =? min range) with false by (symmetry; apply Z.eqb_neq; lia).
  rewrite !sub_exact by now apply int32_small.
  rewrite div_self; [reflexivity|lia|now apply int32_diff_small].
Qed.

End Normalize.

(** C2. Normalization bounds: for an axis range with [min < max] and a raw
    value within it, [normalize] returns a value within 0..255; the minimum
    maps to 0 and the maximum to 255.  (Raw values and bounds are 32-bit
    integers, as [readInt32LE] and [Int32Array] deliver them.) *)
Theorem normalize_bounds (value : Z) (range : AxisRange) :
  int32 value -> int32 (min range) -> int32 (max range) ->
  min range < max range ->
  min range <= value <= max range ->
  in_byte (normalize value range) = true
  /\ normalize (min range) range = 0%float
  /\ normalize (max range) range = 255%float.
Proof.
  intros Hv Hlo Hhi Hlt _. split; [|split].
  - now apply normalize_in_byte.
  - now apply normalize_at_min.
  - now apply normalize_at_max.
Qed.

Lemma normalize_bounds_witness :
  in_byte (normalize 100 {| min := -32768; max := 32767 |}) = true
  /\ normalize (-32768) {| min := -32768; max := 32767 |} = 0%float
  /\ normalize 32767 {| min := -32768; max := 32767 |} = 255%float.
Proof.
  apply (normalize_bounds 100 {| min := -32768; max := 32767 |});
    unfold int32; simpl; lia.
Defined.

(** C10. [normalize] is total and guarded against degenerate ranges: with
    [max = min] it returns 128, and for every raw value, inside the range or
    not (and also when [max < min]), the result lies within 0..255. *)
Theorem normalize_total_clamped (value : Z) (range : AxisRange) :
  int32 value -> int32 (min range) -> int32 (max range) ->
  (max range = min range -> normalize value range = 128%float)
  /\ in_byte (normalize value range) = true.
Proof.
  intros Hv Hlo Hhi. split.
  - apply normalize_degenerate.
  - now apply normalize_in_byte.
Qed.

Lemma normalize_total_clamped_witness :
  (7 = 7 -> normalize 123456 {| min := 7; max := 7 |} = 128%float)
  /\ in_byte (normalize 123456 {| min := 7; max := 7 |}) = true.
Proof.
  apply (normalize_total_clamped 123456 {| min := 7; max := 7 |});
    unfold int32; simpl; lia.
Defined.

(* ====================================================================== *)
(** ** Bitwise operators *)

Section Bits.

Lemma to_int32_range z : int32 (to_int32 z).
Proof.
  unfold int32, to_int32.
  pose proof (Z.mod_pos_bound (z + 2 ^ 31) (2 ^ 32) ltac:(lia)). lia.
Qed.


Lemma to_int32_mod z : to_int32 z mod 2 ^ 32 = z mod 2 ^ 32.
Proof.
  unfold to_int32. rewrite Zminus_mod_idemp_l. f_equal. lia.
Qed.

Lemma testbit_to_int32 z n : 0 <= n < 32 -> Z.testbit (to_int32 z) n = Z.testbit z n.
Proof.
  intros H.
  rewrite <- (Z.mod_pow2_bits_low (to_int32 z) 32 n) by lia.
  rewrite to_int32_mod. apply Z.mod_pow2_bits_low. lia.
Qed.

Lemma testbit_js_or a b n :
  0 <= n < 32 -> Z.testbit (js_or a b) n = Z.testbit a n || Z.testbit b n.
Proof.
  intros H. unfold js_or.
  now rewrite testbit_to_int32, Z.lor_spec, !testbit_to_int32.
Qed.

Lemma testbit_js_and_not a b n :
  0 <= n < 32 ->
  Z.testbit (js_and a (js_not b)) n = Z.testbit a n && negb (Z.testbit b n).
Proof.
  intros H. unfold js_and, js_not.
  rewrite testbit_to_int32, Z.land_spec, !testbit_to_int32 by lia.
  now rewrite Z.lnot_spec, testbit_to_int32 by lia.
Qed.

(** [(caps & (1n << k)) !== 0n] reads bit [k]. *)
Lemma land_shiftl_testbit a k :
  0 <= k -> negb (Z.land a (Z.shiftl 1 k) =? 0) = Z.testbit a k.
Proof.
  intros Hk. rewrite Z.shiftl_1_l.
  destruct (Z.testbit a k) eqn:E.
  - apply negb_true_iff, Z.eqb_neq. intros H.
    apply (f_equal (fun x => Z.testbit x k)) in H.
    rewrite Z.land_spec, E, Z.pow2_bits_true, Z.bits_0 in H by lia. discriminate.
  - apply negb_false_iff, Z.eqb_eq, Z.bits_inj'. intros n Hn.
    rewrite Z.land_spec, Z.bits_0, Z.pow2_bits_eqb by lia.
    destruct (Z.eqb_spec k n) as [->|]; [now rewrite E|apply andb_false_r].
Qed.

End Bits.

(* ====================================================================== *)
(** ** The reader: what a record does to the pad state *)

(** Two numbers with different specifications are different. *)
Ltac float_neq :=
  let H := fresh in
  intros H; apply (f_equal Prim2SF) in H; vm_compute in H; discriminate H.

Section Reader.
Import Num NumOps.

Variable ranges : gmap Z AxisRange.
Variable layout : AxisLayout.

Lemma axis_value_in_byte code value :
  ranges_int32 ranges -> int32 value ->
  is_Some (ranges !! code) \/ 0 <= value <= 255 ->
  in_byte (axis_value (ranges !! code) value) = true.
Proof.
  intros W Hv H. unfold axis_value.
  destruct (ranges !! code) as [r|] eqn:E.
  - destruct (W code r E). now apply normalize_in_byte.
  - destruct H as [[? [=]]|H]. now apply num_of_byte_in_byte.
Qed.

Lemma trigger_bit_channels bit v s :
  channels_in_range (trigger_bit bit v s) <-> channels_in_range s.
Proof. unfold trigger_bit. destruct (PrimFloat.ltb 10 v); reflexivity. Qed.

Lemma on_key_channels code value s :
  channels_in_range (on_key code value s) <-> channels_in_range s.
Proof.
  unfold on_key. destruct (BUTTON_MAP !! code); [|reflexivity].
  destruct (negb _); reflexivity.
Qed.

Lemma on_abs_channels code value s :
  ranges_int32 ranges -> int32 value ->
  (In code channel_axes -> is_Some (ranges !! code) \/ 0 <= value <= 255) ->
  channels_in_range s -> channels_in_range (on_abs ranges layout code value s).
Proof.
  intros W Hv C (Hlx & Hly & Hrx & Hry & Hl2 & Hr2).
  assert (V : In code channel_axes ->
              in_byte (axis_value (ranges !! code) value) = true)
    by (intros I; apply axis_value_in_byte; auto).
  unfold on_abs.
  repeat match goal with
  | |- context [code =? ?c] =>
      destruct (Z.eqb_spec code c) as [->|];
      [ assert (in_byte (axis_value (ranges !! c) value) = true)
          by (apply V; unfold channel_axes; simpl; tauto) | ]
  end;
  try (destruct layout);
  rewrite ?trigger_bit_channels;
  try (unfold channels_in_range; simpl; tauto);
  repeat match goal with |- context [if ?b then _ else _] => destruct b end;
  unfold channels_in_range; simpl; tauto.
Qed.

Lemma apply_record_channels e s :
  ranges_int32 ranges -> wire_record e -> calibrated ranges e ->
  channels_in_range s -> channels_in_range (apply_record ranges layout e s).
Proof.
  intros W (_ & _ & Hv) C H. unfold apply_record.
  destruct (Z.eqb_spec (ev_type e) EV_KEY); [now apply on_key_channels|].
  destruct (Z.eqb_spec (ev_type e) EV_ABS) as [A|]; [|assumption].
  apply on_abs_channels; auto.
Qed.

Lemma apply_records_channels es :
  ranges_int32 ranges -> Forall wire_record es -> Forall (calibrated ranges) es ->
  forall s, channels_in_range s -> channels_in_range (apply_records ranges layout es s).
Proof.
  intros W R F. induction F as [|e es C F IH]; intros s H; simpl; [assumption|].
  apply Forall_cons in R as [Re R].
  apply IH; [assumption|]. apply apply_record_channels; assumption.
Qed.

End Reader.

Lemma fresh_channels : channels_in_range freshPadState.
Proof. repeat split. Qed.

(** What the handler reads off a buffer are wire records. *)
Lemma byte_at_range buf i : 0 <= byte_at buf i <= 255.
Proof.
  unfold byte_at. destruct (buf !! i) as [b|]; [|lia].
  pose proof (Byte.to_N_bounded b). lia.
Qed.

Lemma readUInt16LE_range buf off : 0 <= readUInt16LE buf off < 2 ^ 16.
Proof.
  unfold readUInt16LE.
  pose proof (byte_at_range buf off). pose proof (byte_at_range buf (off + 1)).
  change (2 ^ 8) with 256. change (2 ^ 16) with 65536. lia.
Qed.

Lemma parse_events_wire buf : Forall wire_record (parse_events buf).
Proof.
  unfold parse_events. apply Forall_forall. intros e He.
  apply list_elem_of_fmap in He as (off & -> & _).
  repeat split; try apply readUInt16LE_range; apply to_int32_range.
Qed.

Lemma byte_of_Z_value z : Z.of_N (Byte.to_N (byte_of_Z z)) = z mod 256.
Proof.
  unfold byte_of_Z.
  pose proof (Z.mod_pos_bound z 256 ltac:(lia)) as B.
  destruct (Byte.of_N (Z.to_N (z mod 256))) as [b|] eqn:E.
  - apply Byte.to_of_N in E. rewrite E. lia.
  - apply Byte.of_N_None_iff in E. lia.
Qed.

(** The handler reads a record back as the kernel wrote it. *)
Lemma parse_encode_event e :
  wire_record e -> parse_events (encode_event e) = [e].
Proof.
  intros (T & C & V). unfold parse_events.
  change (event_offsets (encode_event e)) with [0%nat]. cbn [map].
  unfold read_event, readUInt16LE, readInt32LE, byte_at, encode_event.
  cbn [lookup list_lookup repeat app Nat.add].
  rewrite !byte_of_Z_value.
  destruct e as [t c v]. simpl in T, C, V. cbn [ev_type ev_code ev_value]. do 2 f_equal.
  - change (2 ^ 8) with 256. change (2 ^ 16) with 65536 in T.
    Z.div_mod_to_equations. lia.
  - change (2 ^ 8) with 256. change (2 ^ 16) with 65536 in C.
    Z.div_mod_to_equations. lia.
  - unfold int32 in V. unfold to_int32.
    change (2 ^ 8) with 256. change (2 ^ 16) with 65536. change (2 ^ 24) with 16777216.
    change (2 ^ 31) with 2147483648 in *. change (2 ^ 32) with 4294967296.
    Z.div_mod_to_equations. lia.
Qed.

(** The maps that [startEvdevReader] installs have 32-bit bounds. *)
Lemma detectAxisRanges_int32 k : ranges_int32 (detectAxisRanges k).
Proof.
  unfold detectAxisRanges. destruct k as [ioctl|]; [|intros c r; rewrite lookup_empty; discriminate].
  generalize queried_axes. intros axes.
  assert (G : forall (m : gmap Z AxisRange), ranges_int32 m ->
              ranges_int32 (fold_left
                (fun ranges axis =>
                   match ioctl axis with
                   | Some (lo, hi) =>
                       <[axis := {| min := to_int32 lo; max := to_int32 hi |}]> ranges
                   | None => ranges
                   end) axes m)).
  { induction axes as [|a axes IH]; intros m Hm; simpl; [assumption|].
    apply IH. destruct (ioctl a) as [[lo hi]|]; [|assumption].
    intros c r. destruct (decide (a = c)) as [->|N].
    - rewrite lookup_insert_eq. intros [= <-]. simpl. split; apply to_int32_range.
    - rewrite lookup_insert_ne by assumption. apply Hm. }
  apply G. intros c r. rewrite lookup_empty. discriminate.
Qed.

Lemma getFallbackRanges_int32 vendor : ranges_int32 (getFallbackRanges vendor).
Proof.
  unfold getFallbackRanges. cbv zeta. simpl fold_left. intros c r.
  repeat match goal with
  | |- <[?a := _]> _ !! c = Some r -> _ =>
      destruct (decide (c = a)) as [->|];
      [rewrite lookup_insert_eq; intros [= <-];
       try destruct (String.eqb _ _); unfold int32; simpl; lia
      |rewrite lookup_insert_ne by congruence]
  end.
  rewrite lookup_empty. discriminate.
Qed.

(* ====================================================================== *)
(** ** Layout routing *)

Lemma trigger_bit_eq bit v s :
  trigger_bit bit v s
  = set_buttons (if PrimFloat.ltb 10 v then js_or (buttons s) bit
                 else js_and (buttons s) (js_not bit)) s.
Proof. unfold trigger_bit. destruct (PrimFloat.ltb 10 v); reflexivity. Qed.

Lemma testbit_trigger b bit n (c : bool) :
  0 <= n < 32 -> Z.testbit bit n = true ->
  Z.testbit (if c then js_or b bit else js_and b (js_not bit)) n = c.
Proof.
  intros Hn Hb. destruct c.
  - rewrite testbit_js_or, Hb by assumption. apply orb_true_r.
  - rewrite testbit_js_and_not, Hb by assumption. apply andb_false_r.
Qed.

Lemma detectAxisLayout_spec dev :
  detectAxisLayout dev
  = if negb (Z.testbit (absCaps dev) ABS_RX) && Z.testbit (absCaps dev) ABS_GAS
    then gas_brake else standard.
Proof.
  unfold detectAxisLayout.
  now rewrite !land_shiftl_testbit by (unfold ABS_RX, ABS_GAS; lia).
Qed.

Example layout_of_samples :
  detectAxisLayout sample_gas_pad = gas_brake
  /\ detectAxisLayout sample_xbox_pad = standard.
Proof. split; reflexivity. Qed.

(** C3 (amended). With the standard layout an ABS_RZ record stores the right
    trigger [r2] and sets the R2 bit (bit 9) when the stored value exceeds 10
    and clears it otherwise.  With the gas/brake layout an ABS_RZ record
    stores the right-stick Y channel [ry] and nothing else, an ABS_BRAKE
    record stores the LEFT trigger [l2] (with the L2 bit, bit 8) and leaves
    [r2] alone, and an ABS_GAS record stores the right trigger [r2]. *)
Theorem layout_routing (ranges : gmap Z AxisRange) (value : Z) (s : PadState) :
  (let s' := apply_record ranges standard (abs_record ABS_RZ value) s in
   r2 s' = axis_value (ranges !! ABS_RZ) value
   /\ buttons s' = (if PrimFloat.ltb 10 (r2 s')
                    then js_or (buttons s) ORBIS.R2
                    else js_and (buttons s) (js_not ORBIS.R2))
   /\ Z.testbit (buttons s') 9 = PrimFloat.ltb 10 (r2 s')
   /\ lx s' = lx s /\ ly s' = ly s /\ rx s' = rx s /\ ry s' = ry s /\ l2 s' = l2 s)
  /\ apply_record ranges gas_brake (abs_record ABS_RZ value) s
     = set_ry (axis_value (ranges !! ABS_RZ) value) s
  /\ (let s' := apply_record ranges gas_brake (abs_record ABS_BRAKE value) s in
      l2 s' = axis_value (ranges !! ABS_BRAKE) value
      /\ Z.testbit (buttons s') 8 = PrimFloat.ltb 10 (l2 s')
      /\ r2 s' = r2 s
      /\ lx s' = lx s /\ ly s' = ly s /\ rx s' = rx s /\ ry s' = ry s)
  /\ (let s' := apply_record ranges gas_brake (abs_record ABS_GAS value) s in
      r2 s' = axis_value (ranges !! ABS_GAS) value
      /\ Z.testbit (buttons s') 9 = PrimFloat.ltb 10 (r2 s')
      /\ l2 s' = l2 s).
Proof.
  unfold apply_record, abs_record, on_abs. cbn -[axis_value trigger_bit Z.testbit].
  rewrite !trigger_bit_eq. cbn -[axis_value Z.testbit].
  repeat split; apply testbit_trigger; (lia || reflexivity).
Qed.

(** C3 as stated fails on ABS_BRAKE: on a gas/brake pad the record leaves the
    right trigger at rest and moves the left trigger. *)
Lemma layout_routing_counterexample :
  detectAxisLayout sample_gas_pad = gas_brake
  /\ r2 (apply_record {[ ABS_BRAKE := {| min := 0; max := 255 |} ]}
           (detectAxisLayout sample_gas_pad) (abs_record ABS_BRAKE 255) freshPadState)
     = r2 freshPadState
  /\ r2 (apply_record {[ ABS_BRAKE := {| min := 0; max := 255 |} ]}
           (detectAxisLayout sample_gas_pad) (abs_record ABS_BRAKE 255) freshPadState)
     <> normalize 255 {| min := 0; max := 255 |}
  /\ l2 (apply_record {[ ABS_BRAKE := {| min := 0; max := 255 |} ]}
           (detectAxisLayout sample_gas_pad) (abs_record ABS_BRAKE 255) freshPadState)
     = 255%float.
Proof.
  repeat split; try (vm_compute; reflexivity). float_neq.
Qed.

(* ====================================================================== *)
(** ** The gas/brake example *)

(** C4 (amended). A device with the ABS_GAS bit set and the ABS_RX bit clear
    is given the gas/brake layout; on it an ABS_Z record of raw value 32767
    under the range 0..65535 stores 127 in the right-stick X channel
    (32767/65535*255 = 127.498..., rounded to the nearest integer) and
    leaves the left trigger, and everything else, as it was. *)
Theorem gas_brake_example
    (dev : DetectedDevice) (ranges : gmap Z AxisRange) (s : PadState) :
  Z.testbit (absCaps dev) ABS_GAS = true ->
  Z.testbit (absCaps dev) ABS_RX = false ->
  ranges !! ABS_Z = Some {| min := 0; max := 65535 |} ->
  detectAxisLayout dev = gas_brake
  /\ (let s' := apply_record ranges (detectAxisLayout dev) (abs_record ABS_Z 32767) s in
      rx s' = 127%float /\ l2 s' = l2 s /\ s' = set_rx 127 s).
Proof.
  intros G R Hr.
  assert (L : detectAxisLayout dev = gas_brake)
    by (rewrite detectAxisLayout_spec, G, R; reflexivity).
  rewrite L. split; [reflexivity|].
  unfold apply_record, abs_record, on_abs. cbn -[axis_value].
  rewrite Hr. repeat split.
Qed.

Lemma gas_brake_example_witness :
  detectAxisLayout sample_gas_pad = gas_brake
  /\ (let s' := apply_record {[ ABS_Z := {| min := 0; max := 65535 |} ]}
                  (detectAxisLayout sample_gas_pad) (abs_record ABS_Z 32767) freshPadState in
      rx s' = 127%float /\ l2 s' = l2 freshPadState /\ s' = set_rx 127 freshPadState).
Proof.
  apply (gas_brake_example sample_gas_pad
           {[ ABS_Z := {| min := 0; max := 65535 |} ]} freshPadState);
    vm_compute; reflexivity.
Defined.

(** C4 as stated fails: the channel gets 127, not 128. *)
Lemma gas_brake_example_counterexample :
  Z.testbit (absCaps sample_gas_pad) ABS_GAS = true
  /\ Z.testbit (absCaps sample_gas_pad) ABS_RX = false
  /\ rx (apply_record {[ ABS_Z := {| min := 0; max := 65535 |} ]}
           (detectAxisLayout sample_gas_pad) (abs_record ABS_Z 32767) freshPadState)
     <> 128%float.
Proof.
  repeat split; try (vm_compute; reflexivity). float_neq.
Qed.

(* ====================================================================== *)
(** ** Handlers: state and effects *)

Section Actions.

Lemma andThen_fst (a b : Action) g : fst ((a ;; b) g) = fst (b (fst (a g))).
Proof. unfold andThen. destruct (a g) as [g1 e1]. simpl. now destruct (b g1). Qed.

Lemma andThen_snd (a b : Action) g :
  snd ((a ;; b) g) = snd (a g) ++ snd (b (fst (a g))).
Proof. unfold andThen. destruct (a g) as [g1 e1]. simpl. now destruct (b g1). Qed.

Lemma emit_fst e g : fst (emit e g) = g.
Proof. reflexivity. Qed.

Lemma modify_fst f g : fst (modify f g) = f g.
Proof. reflexivity. Qed.

Lemma skip_fst g : fst (skip g) = g.
Proof. reflexivity. Qed.

Lemma for_each_app {A} (l1 l2 : list A) body g :
  for_each (l1 ++ l2) body g = (for_each l1 body ;; for_each l2 body) g.
Proof.
  revert g. induction l1 as [|x l1 IH]; intros g; simpl.
  - unfold andThen, skip. simpl. now destruct (for_each l2 body g).
  - unfold andThen in *. destruct (body x g) as [g1 e1]. rewrite IH.
    destruct (for_each l1 body g1) as [g2 e2].
    destruct (for_each l2 body g2) as [g3 e3]. now rewrite app_assoc.
Qed.

Lemma set_pads_same g : set_pads (pads g) g = g.
Proof. now destruct g. Qed.

Lemma alter_out_of_range {A} (f : A -> A) (l : list A) i :
  l !! i = None -> alter f i l = l.
Proof.
  intros H. rewrite <- (list_alter_id id l i) at 2 by reflexivity.
  apply list_alter_ext; [|reflexivity]. intros x Hx. congruence.
Qed.

Lemma alter_fixed {A} (f : A -> A) (l : list A) i x :
  l !! i = Some x -> f x = x -> alter f i l = l.
Proof.
  intros L H. rewrite <- (list_alter_id id l i) at 2 by reflexivity.
  apply list_alter_ext; [|reflexivity]. intros y Hy.
  assert (y = x) as -> by congruence. exact H.
Qed.

(** Rules for [triple]. *)
Lemma triple_skip (P : Bridge -> Prop) E : triple P E P skip.
Proof. intros g H. split; [exact H|constructor]. Qed.

Lemma triple_emit (P : Bridge -> Prop) (E : Effect -> Prop) e : E e -> triple P E P (emit e).
Proof. intros He g H. split; [exact H|repeat constructor; exact He]. Qed.

Lemma triple_modify (P Q : Bridge -> Prop) E f :
  (forall g, P g -> Q (f g)) -> triple P E Q (modify f).
Proof. intros Hf g H. split; [apply Hf, H|constructor]. Qed.

Lemma triple_seq (P R Q : Bridge -> Prop) E a b :
  triple P E R a -> triple R E Q b -> triple P E Q (a ;; b).
Proof.
  intros Ha Hb g H. rewrite andThen_fst, andThen_snd.
  destruct (Ha g H) as [H1 E1]. destruct (Hb _ H1) as [H2 E2].
  split; [exact H2|]. apply Forall_app. now split.
Qed.

Lemma triple_for_each {A} (P : Bridge -> Prop) E (l : list A) body :
  (forall x, In x l -> triple P E P (body x)) -> triple P E P (for_each l body).
Proof.
  induction l as [|x l IH]; intros H; simpl.
  - apply triple_skip.
  - eapply triple_seq; [apply H; now left|apply IH]. intros y Hy. apply H. now right.
Qed.

Lemma triple_with_pad (P Q : Bridge -> Prop) E i f :
  (forall slot, (exists g, P g /\ pads g !! i = Some slot) -> triple P E Q (f slot)) ->
  (forall g, P g -> Q g) ->
  triple P E Q (with_pad i f).
Proof.
  intros H HQ g Pg. unfold with_pad, with_state. destruct (pads g !! i) as [slot|] eqn:L.
  - apply (H slot); eauto.
  - split; [now apply HQ|constructor].
Qed.

Lemma triple_with_conn (P Q : Bridge -> Prop) E k f :
  (forall c, (exists g, P g /\ conns g !! k = Some c) -> triple P E Q (f c)) ->
  (forall g, P g -> Q g) ->
  triple P E Q (with_conn k f).
Proof.
  intros H HQ g Pg. unfold with_conn, with_state. destruct (conns g !! k) as [c|] eqn:L.
  - apply (H c); eauto.
  - split; [now apply HQ|constructor].
Qed.

End Actions.

(* ====================================================================== *)
(** ** Stopping a reader *)

Section Stop.

Lemma stopEvdevReader_fst i g :
  fst (stopEvdevReader i g) = set_pads (alter stopped i (pads g)) g.
Proof.
  unfold stopEvdevReader, with_pad, with_state.
  destruct (pads g !! i) as [slot|] eqn:L.
  - rewrite !andThen_fst.
    destruct (stream slot) as [rs|] eqn:S.
    + rewrite andThen_fst. unfold modify_pad, modify, emit. simpl.
      rewrite !list_alter_alter_eq. reflexivity.
    + unfold modify_pad, modify, skip. simpl.
      rewrite !list_alter_alter_eq.
      change (set_pads (alter (set_state freshPadState ∘ set_active false) i (pads g)) g
              = set_pads (alter stopped i (pads g)) g).
      f_equal. apply list_alter_ext; [|reflexivity].
      intros x Hx. assert (x = slot) as -> by congruence.
      destruct slot; simpl in *; now subst.
  - simpl. now rewrite alter_out_of_range, set_pads_same.
Qed.

Lemma stopEvdevReader_snd i g :
  snd (stopEvdevReader i g)
  = match pads g !! i with
    | Some slot => match stream slot with Some _ => [DestroyStream i] | None => [] end
    | None => []
    end.
Proof.
  unfold stopEvdevReader, with_pad, with_state.
  destruct (pads g !! i) as [slot|]; [|reflexivity].
  rewrite !andThen_snd. destruct (stream slot); reflexivity.
Qed.

Lemma stopEvdevReader_lookup i g slot :
  pads g !! i = Some slot ->
  pads (fst (stopEvdevReader i g)) !! i = Some (stopped slot).
Proof.
  intros L. rewrite stopEvdevReader_fst. simpl.
  now rewrite list_lookup_alter_eq, L.
Qed.

Lemma stopEvdevReader_other i j g :
  i <> j -> pads (fst (stopEvdevReader i g)) !! j = pads g !! j.
Proof.
  intros N. rewrite stopEvdevReader_fst. simpl. now apply list_lookup_alter_ne.
Qed.

Lemma api_unassign_fst padIndex g :
  fst (api_unassign padIndex g)
  = if (padIndex <? 0) || (3 <? padIndex) then g
    else set_pads (alter (fun slot => set_device None (stopped slot))
                     (Z.to_nat padIndex) (pads g)) g.
Proof.
  unfold api_unassign. destruct ((padIndex <? 0) || (3 <? padIndex)); [reflexivity|].
  rewrite !andThen_fst, stopEvdevReader_fst. unfold modify_pad, modify, emit. simpl.
  now rewrite list_alter_alter_eq.
Qed.

End Stop.

(** What [startEvdevReader] leaves in a slot that has a device and no
    stream: state at rest, active, a stream whose handler holds the layout
    of the device and a range map with 32-bit bounds. *)
Lemma startEvdevReader_started i k g slot dev :
  pads g !! i = Some slot -> device slot = Some dev -> stream slot = None ->
  exists rs,
    pads (fst (startEvdevReader i k g)) !! i
    = Some {| device := Some dev; state := freshPadState; stream := Some rs;
              axisRanges := rs_ranges rs; active := true |}
    /\ rs_path rs = eventPath dev
    /\ rs_layout rs = detectAxisLayout dev
    /\ ranges_int32 (rs_ranges rs).
Proof.
  intros L D S. unfold startEvdevReader, with_pad, with_state. rewrite L, D, S.
  cbv zeta. set (ranges := if bool_decide _ then _ else _).
  exists {| rs_path := eventPath dev; rs_ranges := ranges;
            rs_layout := detectAxisLayout dev |}.
  split; [|split; [reflexivity|split; [reflexivity|]]].
  - rewrite !andThen_fst. unfold modify_pad, modify, emit. simpl.
    rewrite !list_alter_alter_eq, list_lookup_alter_eq, L. simpl.
    unfold set_stream, set_active, set_state, set_axisRanges. simpl. now rewrite D.
  - subst ranges. simpl. destruct (bool_decide _).
    + apply getFallbackRanges_int32.
    + apply detectAxisRanges_int32.
Qed.

(** C8. An error on the stream of a slot runs the cleanup of an explicit
    stop: the stream handle is destroyed and cleared, the slot is marked
    inactive and its state is back at rest (sticks 128, triggers 0, buttons
    0); the other slots are not touched. *)
Theorem stream_error_cleanup (i : nat) (g : Bridge) (slot : PadSlot) :
  pads g !! i = Some slot ->
  on_stream_error i g = stopEvdevReader i g
  /\ (exists slot', pads (fst (on_stream_error i g)) !! i = Some slot'
        /\ stream slot' = None /\ active slot' = false
        /\ state slot' = freshPadState
        /\ buttons (state slot') = 0
        /\ lx (state slot') = 128%float /\ ly (state slot') = 128%float
        /\ rx (state slot') = 128%float /\ ry (state slot') = 128%float
        /\ l2 (state slot') = 0%float /\ r2 (state slot') = 0%float
        /\ device slot' = device slot)
  /\ (is_Some (stream slot) -> snd (on_stream_error i g) = [DestroyStream i])
  /\ (forall j, j <> i -> pads (fst (on_stream_error i g)) !! j = pads g !! j).
Proof.
  intros L. unfold on_stream_error. split; [reflexivity|]. split; [|split].
  - exists (stopped slot). rewrite (stopEvdevReader_lookup i g slot L).
    repeat split.
  - intros [rs S]. now rewrite stopEvdevReader_snd, L, S.
  - intros j N. now apply stopEvdevReader_other.
Qed.

Lemma stream_error_cleanup_witness :
  is_Some (stream (slot_at sample_assigned 0))
  /\ snd (on_stream_error 0 sample_assigned) = [DestroyStream 0]
  /\ (exists slot', pads (fst (on_stream_error 0 sample_assigned)) !! 0%nat = Some slot'
         /\ stream slot' = None /\ active slot' = false
         /\ state slot' = freshPadState).
Proof.
  assert (S : is_Some (stream (slot_at sample_assigned 0))) by (vm_compute; eauto).
  destruct (stream_error_cleanup 0 sample_assigned (slot_at sample_assigned 0))
    as (_ & (slot' & L & S' & A' & R' & _) & D & _).
  - vm_compute. reflexivity.
  - split; [exact S|]. split; [exact (D S)|]. exists slot'. auto.
Defined.

(** C9. Stopping twice leaves the state that stopping once leaves, for
    [stopEvdevReader] and for the unassign request; the slot ends with no
    stream, inactive, at rest (and without device after unassign); and
    stopping a slot that is already stopped changes nothing and does
    nothing. *)
Theorem stop_idempotent (i : nat) (padIndex : Z) (g : Bridge) :
  fst (stopEvdevReader i (fst (stopEvdevReader i g))) = fst (stopEvdevReader i g)
  /\ fst (api_unassign padIndex (fst (api_unassign padIndex g)))
     = fst (api_unassign padIndex g)
  /\ (forall slot, pads g !! i = Some slot ->
        pads (fst (stopEvdevReader i g)) !! i
        = Some {| device := device slot; state := freshPadState; stream := None;
                  axisRanges := axisRanges slot; active := false |})
  /\ (forall slot, 0 <= padIndex <= 3 -> pads g !! Z.to_nat padIndex = Some slot ->
        pads (fst (api_unassign padIndex g)) !! Z.to_nat padIndex
        = Some {| device := None; state := freshPadState; stream := None;
                  axisRanges := axisRanges slot; active := false |})
  /\ (forall slot, pads g !! i = Some slot ->
        stream slot = None -> active slot = false -> state slot = freshPadState ->
        stopEvdevReader i g = (g, [])).
Proof.
  split; [|split; [|split; [|split]]].
  - rewrite !stopEvdevReader_fst. simpl. rewrite list_alter_alter_eq.
    f_equal.
  - rewrite !api_unassign_fst.
    destruct ((padIndex <? 0) || (3 <? padIndex)); [reflexivity|]. simpl.
    rewrite list_alter_alter_eq. f_equal.
  - intros slot L. now apply stopEvdevReader_lookup.
  - intros slot H L. rewrite api_unassign_fst.
    replace ((padIndex <? 0) || (3 <? padIndex)) with false
      by (symmetry; apply orb_false_iff; split; apply Z.ltb_ge; lia).
    simpl. now rewrite list_lookup_alter_eq, L.
  - intros slot L S A R.
    rewrite (surjective_pairing (stopEvdevReader i g)).
    rewrite stopEvdevReader_fst, stopEvdevReader_snd, L, S. f_equal.
    transitivity (set_pads (pads g) g); [|apply set_pads_same].
    f_equal. apply (alter_fixed _ _ _ slot L).
    destruct slot; simpl in *; now subst.
Qed.

(* ====================================================================== *)
(** ** Slots and devices *)

Create HintDb actions.

#[local] Hint Unfold
  on_data on_record on_stream_error on_stream_close
  api_connect api_disconnect createPS4Connection close send
  on_ws_open on_ws_close on_ws_message on_info_timeout getInfo info_resolved
  reconnect_callback connect scheduleReconnect
  stopEvdevReader startEvdevReader modify_conn : actions.

Section Devices.

Lemma keeps_skip : keeps_devices skip.
Proof. intros g. reflexivity. Qed.

Lemma keeps_emit e : keeps_devices (emit e).
Proof. intros g. reflexivity. Qed.

Lemma keeps_modify f : (forall g, pads (f g) = pads g) -> keeps_devices (modify f).
Proof. intros H g. unfold devices. simpl. now rewrite H. Qed.

Lemma devices_modify_pad i f g :
  devices (fst (modify_pad i f g)) = device <$> alter f i (pads g).
Proof. reflexivity. Qed.

Lemma keeps_modify_pad i f :
  (forall slot, device (f slot) = device slot) -> keeps_devices (modify_pad i f).
Proof.
  intros H g. rewrite devices_modify_pad. unfold devices.
  rewrite (list_fmap_alter device f id).
  - now apply list_alter_id.
  - apply Forall_forall. intros x _. apply H.
Qed.

Lemma keeps_seq a b : keeps_devices a -> keeps_devices b -> keeps_devices (a ;; b).
Proof. intros Ha Hb g. now rewrite andThen_fst, Hb, Ha. Qed.

Lemma keeps_with_state f : (forall g0, keeps_devices (f g0)) -> keeps_devices (with_state f).
Proof. intros H g. apply (H g g). Qed.

Lemma keeps_with_pad i f : (forall slot, keeps_devices (f slot)) -> keeps_devices (with_pad i f).
Proof.
  intros H. apply keeps_with_state. intros g0.
  destruct (pads g0 !! i); [apply H|apply keeps_skip].
Qed.

Lemma keeps_with_conn k f : (forall c, keeps_devices (f c)) -> keeps_devices (with_conn k f).
Proof.
  intros H. apply keeps_with_state. intros g0.
  destruct (conns g0 !! k); [apply H|apply keeps_skip].
Qed.

Lemma keeps_for_each {A} (l : list A) body :
  (forall x, keeps_devices (body x)) -> keeps_devices (for_each l body).
Proof.
  intros H. induction l as [|x l IH]; simpl; [apply keeps_skip|].
  apply keeps_seq; [apply H|apply IH].
Qed.

End Devices.

(** Handlers built from the combinators, none of which writes [device]. *)
Ltac keeps_devices_tac :=
  repeat autounfold with actions;
  repeat match goal with
    | |- keeps_devices skip => apply keeps_skip
    | |- keeps_devices (emit _) => apply keeps_emit
    | |- keeps_devices (_ ;; _) => apply keeps_seq
    | |- keeps_devices (for_each _ _) => apply keeps_for_each; intros ?
    | |- keeps_devices (with_pad _ _) => apply keeps_with_pad; intros ?
    | |- keeps_devices (with_conn _ _) => apply keeps_with_conn; intros ?
    | |- keeps_devices (with_state _) => apply keeps_with_state; intros ?
    | |- keeps_devices (modify_pad _ _) => apply keeps_modify_pad; intros ?; reflexivity
    | |- keeps_devices (modify _) => apply keeps_modify; intros ?; reflexivity
    | |- keeps_devices (if ?b then _ else _) => destruct b
    | |- keeps_devices (match ?x with _ => _ end) => destruct x
    | |- keeps_devices (let _ := _ in _) => cbv zeta
    end.

Section DevicesOfHandlers.

Lemma keeps_stopEvdevReader i : keeps_devices (stopEvdevReader i).
Proof. keeps_devices_tac. Qed.

Lemma keeps_startEvdevReader i k : keeps_devices (startEvdevReader i k).
Proof. keeps_devices_tac. Qed.

Lemma keeps_on_data i buf : keeps_devices (on_data i buf).
Proof. keeps_devices_tac. Qed.

Lemma keeps_on_stream_close i : keeps_devices (on_stream_close i).
Proof. keeps_devices_tac. Qed.

Lemma keeps_api_connect host port throws : keeps_devices (api_connect host port throws).
Proof. keeps_devices_tac. Qed.

Lemma keeps_api_disconnect : keeps_devices api_disconnect.
Proof. keeps_devices_tac. Qed.

Lemma keeps_on_ws_open k : keeps_devices (on_ws_open k).
Proof. keeps_devices_tac. Qed.

Lemma keeps_on_ws_close k : keeps_devices (on_ws_close k).
Proof. keeps_devices_tac. Qed.

Lemma keeps_on_ws_message k id version : keeps_devices (on_ws_message k id version).
Proof. keeps_devices_tac. Qed.

Lemma keeps_on_info_timeout k id : keeps_devices (on_info_timeout k id).
Proof. keeps_devices_tac. Qed.

Lemma keeps_reconnect_timer k throws :
  keeps_devices
    (with_conn k (fun c => if timerPending c then reconnect_callback k throws else skip)).
Proof. keeps_devices_tac. Qed.

End DevicesOfHandlers.

Section Ownership.

Lemma devices_set_device i d g :
  devices (fst (modify_pad i (set_device d) g)) = alter (fun _ => d) i (devices g).
Proof.
  rewrite devices_modify_pad. unfold devices. apply list_fmap_alter.
  apply Forall_forall. now intros x _.
Qed.

Lemma devices_vacate i g :
  devices (fst (vacate i g)) = alter (fun _ => None) i (devices g).
Proof.
  unfold vacate. rewrite !andThen_fst, emit_fst.
  now rewrite devices_set_device, keeps_stopEvdevReader.
Qed.

Lemma devices_lookup g i slot :
  pads g !! i = Some slot -> devices g !! i = Some (device slot).
Proof. intros L. unfold devices. now rewrite list_lookup_fmap, L. Qed.

(** The body of the two loops that vacate slots by a test on the path. *)
Let vacate_if (cond : string -> bool) (j : nat) : Action :=
  with_pad j (fun slot =>
    match device slot with
    | Some d => if cond (eventPath d) then vacate j else skip
    | None => skip
    end).

Lemma vacate_if_devices cond j g :
  length (devices (fst (vacate_if cond j g))) = length (devices g)
  /\ forall k d, devices (fst (vacate_if cond j g)) !! k = Some (Some d) ->
       devices g !! k = Some (Some d) /\ (k = j -> cond (eventPath d) = false).
Proof.
  unfold vacate_if, with_pad, with_state.
  destruct (pads g !! j) as [slot|] eqn:L.
  - apply devices_lookup in L.
    destruct (device slot) as [d0|] eqn:D; [destruct (cond (eventPath d0)) eqn:C|].
    + rewrite devices_vacate. split; [apply length_alter|].
      intros k d H. destruct (decide (j = k)) as [<-|N].
      * rewrite list_lookup_alter_eq, L in H. discriminate.
      * rewrite list_lookup_alter_ne in H by assumption. split; [assumption|congruence].
    + split; [reflexivity|]. intros k d H. split; [assumption|].
      intros ->. simpl in H. congruence.
    + split; [reflexivity|]. intros k d H. split; [assumption|].
      intros ->. simpl in H. congruence.
  - split; [reflexivity|]. intros k d H. split; [assumption|].
    intros ->. simpl in H. unfold devices in H.
    rewrite list_lookup_fmap, L in H. discriminate.
Qed.

Lemma vacate_loop_devices cond js :
  forall g,
  length (devices (fst (for_each js (vacate_if cond) g))) = length (devices g)
  /\ forall k d, devices (fst (for_each js (vacate_if cond) g)) !! k = Some (Some d) ->
       devices g !! k = Some (Some d) /\ (In k js -> cond (eventPath d) = false).
Proof.
  induction js as [|j js IH]; intros g; simpl for_each.
  - split; [reflexivity|]. intros k d H. split; [assumption|intros []].
  - rewrite andThen_fst.
    destruct (vacate_if_devices cond j g) as [L1 H1].
    destruct (IH (fst (vacate_if cond j g))) as [L2 H2].
    split; [congruence|]. intros k d H.
    destruct (H2 k d H) as [H3 H4]. destruct (H1 k d H3) as [H5 H6].
    split; [assumption|]. intros [<-|I]; auto.
Qed.

Lemma unique_paths_shrink l l' :
  unique_paths l ->
  (forall k d, l' !! k = Some (Some d) -> l !! k = Some (Some d)) ->
  unique_paths l'.
Proof. intros U S i j di dj N Hi Hj. eapply U; eauto. Qed.

Lemma slots_ok_keeps a g : keeps_devices a -> slots_ok g -> slots_ok (fst (a g)).
Proof. intros K H. unfold slots_ok. now rewrite K. Qed.

Lemma in_slot_indices k : (k < 4)%nat -> In k slot_indices.
Proof. intros H. unfold slot_indices. simpl. lia. Qed.

Lemma slots_ok_scan found g : slots_ok g -> slots_ok (fst (on_scan found g)).
Proof.
  intros [L U]. unfold on_scan, with_state. cbv zeta.
  rewrite andThen_fst, modify_fst.
  set (g1 := set_controllers found g).
  assert (D1 : devices g1 = devices g) by reflexivity.
  destruct (_ || _); [|unfold slots_ok; now rewrite skip_fst, D1].
  rewrite andThen_fst, emit_fst.
  destruct (vacate_loop_devices
              (fun p => negb (has_path p (map eventPath found))) slot_indices g1)
    as [L1 H1].
  unfold vacate_if in L1, H1. split.
  - rewrite L1. exact L.
  - eapply unique_paths_shrink; [exact U|]. intros k d H. now apply H1.
Qed.

Lemma slots_ok_unassign padIndex g : slots_ok g -> slots_ok (fst (api_unassign padIndex g)).
Proof.
  intros [L U]. unfold api_unassign.
  destruct (_ || _); [now split|].
  rewrite !andThen_fst, !emit_fst.
  unfold slots_ok. rewrite devices_set_device, keeps_stopEvdevReader.
  split; [now rewrite length_alter|].
  eapply unique_paths_shrink; [exact U|]. intros k d H.
  destruct (decide (Z.to_nat padIndex = k)) as [<-|N].
  - rewrite list_lookup_alter_eq in H. destruct (devices g !! _); discriminate.
  - now rewrite list_lookup_alter_ne in H.
Qed.

Lemma keeps_stop_if_bound i :
  keeps_devices
    (with_pad i (fun slot =>
       match device slot with
       | Some _ => stopEvdevReader i
       | None => skip
       end)).
Proof. keeps_devices_tac. Qed.

Lemma api_assign_devices path padIndex k g dev :
  (padIndex <? 0) || (3 <? padIndex) = false ->
  find (fun c => String.eqb (eventPath c) path) (controllers g) = Some dev ->
  devices (fst (api_assign path padIndex k g))
  = alter (fun _ => Some dev) (Z.to_nat padIndex)
      (devices (fst (for_each slot_indices
                       (vacate_if (fun p => String.eqb p path)) g))).
Proof.
  intros G F. unfold api_assign, with_state. rewrite G, F. cbv zeta.
  rewrite !andThen_fst, !emit_fst, keeps_startEvdevReader, devices_set_device.
  now rewrite keeps_stop_if_bound.
Qed.

Lemma slots_ok_assign path padIndex k g :
  slots_ok g -> slots_ok (fst (api_assign path padIndex k g)).
Proof.
  intros [L U].
  destruct ((padIndex <? 0) || (3 <? padIndex)) eqn:G.
  { unfold api_assign. rewrite G. now split. }
  destruct (find (fun c => String.eqb (eventPath c) path) (controllers g)) as [dev|] eqn:F.
  2:{ unfold api_assign, with_state. rewrite G, F. now split. }
  unfold slots_ok. rewrite (api_assign_devices path padIndex k g dev G F).
  destruct (vacate_loop_devices (fun p => String.eqb p path) slot_indices g) as [L1 H1].
  set (l1 := devices (fst (for_each slot_indices
                             (vacate_if (fun p => String.eqb p path)) g))) in *.
  assert (P : eventPath dev = path).
  { apply find_some in F. now apply String.eqb_eq. }
  assert (Free : forall k d, l1 !! k = Some (Some d) -> eventPath d <> path).
  { intros j d H. destruct (H1 j d H) as [_ C].
    apply String.eqb_neq, C, in_slot_indices.
    apply lookup_lt_Some in H. lia. }
  split; [now rewrite length_alter, L1|].
  intros a b da db N Ha Hb.
  destruct (decide (Z.to_nat padIndex = a)) as [<-|Na];
    destruct (decide (Z.to_nat padIndex = b)) as [<-|Nb]; [congruence| | |].
  - rewrite list_lookup_alter_eq in Ha. rewrite list_lookup_alter_ne in Hb by assumption.
    destruct (l1 !! Z.to_nat padIndex); [|discriminate]. injection Ha as <-.
    rewrite P. intros E. now apply (Free b db Hb).
  - rewrite list_lookup_alter_eq in Hb. rewrite list_lookup_alter_ne in Ha by assumption.
    destruct (l1 !! Z.to_nat padIndex); [|discriminate]. injection Hb as <-.
    rewrite P. now apply (Free a da Ha).
  - rewrite list_lookup_alter_ne in Ha, Hb by assumption.
    apply (U a b da db N); now apply H1.
Qed.

(** After an accepted assignment the target slot holds the device. *)
Lemma api_assign_target path padIndex k g dev :
  length (devices g) = 4%nat ->
  0 <= padIndex <= 3 ->
  find (fun c => String.eqb (eventPath c) path) (controllers g) = Some dev ->
  devices (fst (api_assign path padIndex k g)) !! Z.to_nat padIndex = Some (Some dev).
Proof.
  intros L R F.
  rewrite (api_assign_devices path padIndex k g dev); [|  |assumption].
  - destruct (vacate_loop_devices (fun p => String.eqb p path) slot_indices g) as [L1 _].
    rewrite list_lookup_alter_eq.
    destruct (lookup_lt_is_Some_2
                (devices (fst (for_each slot_indices
                                 (vacate_if (fun p => String.eqb p path)) g)))
                (Z.to_nat padIndex)) as [x ->]; [|reflexivity].
    rewrite L1, L. lia.
  - apply orb_false_iff. split; apply Z.ltb_ge; lia.
Qed.

Lemma slots_ok_handle ev g : slots_ok g -> slots_ok (fst (handle ev g)).
Proof.
  intros H. destruct ev; simpl handle;
    first [ now apply slots_ok_scan
          | now apply slots_ok_assign
          | now apply slots_ok_unassign
          | apply slots_ok_keeps; [|assumption] ].
  - apply keeps_on_data.
  - apply keeps_stopEvdevReader.
  - apply keeps_on_stream_close.
  - apply keeps_api_connect.
  - apply keeps_api_disconnect.
  - apply keeps_on_ws_open.
  - apply keeps_on_ws_close.
  - apply keeps_on_ws_message.
  - apply keeps_reconnect_timer.
  - apply keeps_on_info_timeout.
Qed.

Lemma slots_ok_run evs : forall g, slots_ok g -> slots_ok (fst (run evs g)).
Proof.
  induction evs as [|ev evs IH]; intros g H; [exact H|].
  unfold run. simpl for_each. rewrite andThen_fst.
  apply IH, slots_ok_handle, H.
Qed.

Lemma slots_ok_init : slots_ok initBridge.
Proof.
  split; [reflexivity|]. intros i j di dj _ Hi _.
  destruct i as [|[|[|[|i]]]]; discriminate.
Qed.

End Ownership.

(** C5. Exclusive slot ownership: in every state that the bridge reaches
    from four empty slots, whatever the sequence of events (assign and
    unassign requests, scans, stream and connection events), no two distinct
    slots hold devices with the same event path.  An accepted assignment
    leaves the device in the target slot, so any slot that held that path
    before has been vacated. *)
Theorem exclusive_slot_ownership (evs : list Event) :
  let g := fst (run evs initBridge) in
  (forall i j si sj di dj,
      i <> j -> pads g !! i = Some si -> pads g !! j = Some sj ->
      device si = Some di -> device sj = Some dj ->
      eventPath di <> eventPath dj)
  /\ (forall path padIndex k dev,
        0 <= padIndex <= 3 ->
        find (fun c => String.eqb (eventPath c) path) (controllers g) = Some dev ->
        let g' := fst (api_assign path padIndex k g) in
        (exists slot, pads g' !! Z.to_nat padIndex = Some slot /\ device slot = Some dev)
        /\ (forall j sj dj,
              j <> Z.to_nat padIndex -> pads g' !! j = Some sj ->
              device sj = Some dj -> eventPath dj <> path)).
Proof.
  intros g.
  assert (OK : slots_ok g) by apply slots_ok_run, slots_ok_init.
  split.
  - intros i j si sj di dj N Hi Hj Di Dj.
    destruct OK as [_ U]. apply (U i j di dj N).
    + rewrite (devices_lookup g i si Hi). now rewrite Di.
    + rewrite (devices_lookup g j sj Hj). now rewrite Dj.
  - intros path padIndex k dev R F g'.
    pose proof (slots_ok_assign path padIndex k g OK) as [_ U'].
    pose proof (api_assign_target path padIndex k g dev (proj1 OK) R F) as T.
    fold g' in U', T. split.
    + unfold devices in T. rewrite list_lookup_fmap in T.
      destruct (pads g' !! Z.to_nat padIndex) as [slot|]; [|discriminate].
      exists slot. split; [reflexivity|]. simpl in T. congruence.
    + intros j sj dj N Hj Dj.
      assert (P : eventPath dev = path).
      { apply find_some in F. now apply String.eqb_eq. }
      rewrite <- P. apply (U' j (Z.to_nat padIndex) dj dev N); [|exact T].
      rewrite (devices_lookup g' j sj Hj). now rewrite Dj.
Qed.

(** The scenario of the specification: a device assigned to slot 0 and then
    to slot 2 ends in slot 2 only, slot 0 empty and inactive. *)
Example reassign_moves_device :
  let g := fst (run [ ScanTick [sample_gas_pad];
                      ApiAssign "/dev/input/event5" 0 None;
                      ApiAssign "/dev/input/event5" 2 None ] initBridge) in
  map (fun slot => (device slot, active slot)) (pads g)
  = [ (None, false); (None, false); (Some sample_gas_pad, true); (None, false) ].
Proof. vm_compute. reflexivity. Qed.

(* ====================================================================== *)
(** ** The data handler and the sync record *)

Section Sync.

Variable i : nat.
Variable rs : ReadStream.

Let run_records (recs : list InputEvent) (slot : PadSlot) : PadSlot :=
  set_state (apply_records (rs_ranges rs) (rs_layout rs) recs (state slot)) slot.

Lemma set_state_same slot : set_state (state slot) slot = slot.
Proof. now destruct slot. Qed.

Lemma on_record_mutating e g :
  mutating e ->
  on_record i rs e g = (set_pads (alter (run_records [e]) i (pads g)) g, []).
Proof.
  intros M. unfold on_record, run_records, apply_records, apply_record. simpl fold_left.
  destruct M as [-> | ->]; reflexivity.
Qed.

(** Key and axis records only touch the state of the slot, and push
    nothing. *)
Lemma on_records_mutating recs :
  Forall mutating recs ->
  forall g, for_each recs (on_record i rs) g
            = (set_pads (alter (run_records recs) i (pads g)) g, []).
Proof.
  induction 1 as [|e recs M F IH]; intros g; simpl for_each.
  - unfold skip. f_equal. rewrite list_alter_id; [now rewrite set_pads_same|].
    intros slot. apply set_state_same.
  - unfold andThen. rewrite (on_record_mutating e g M), IH. f_equal.
    simpl pads. rewrite list_alter_alter_eq. reflexivity.
Qed.

Lemma send_effects k s g :
  send k s i g
  = (g, match conns g !! k with
        | Some c => if open c && ws c then [WsSend k (pad_frame i s)] else []
        | None => []
        end).
Proof.
  unfold send, with_conn, with_state. destruct (conns g !! k) as [c|]; [|reflexivity].
  destruct (open c), (ws c); reflexivity.
Qed.

Lemma on_record_sync e g slot :
  ev_type e = EV_SYN -> pads g !! i = Some slot ->
  on_record i rs e g
  = (set_msgCount (msgCount g + 1) g,
     match ps4Connection g with
     | Some k =>
         match conns g !! k with
         | Some c => if open c && ws c then [WsSend k (pad_frame i (state slot))] else []
         | None => []
         end
     | None => []
     end).
Proof.
  intros T L. unfold on_record. rewrite T. simpl.
  unfold andThen, with_pad, with_state. rewrite L.
  destruct (ps4Connection g) as [k|]; [|reflexivity].
  rewrite send_effects. unfold modify. now rewrite app_nil_r.
Qed.

End Sync.

Lemma alter_as_insert {A} (f : A -> A) (l : list A) i x :
  l !! i = Some x -> alter f i l = <[i := f x]> l.
Proof.
  intros L. rewrite list_insert_alter. apply list_alter_ext; [|reflexivity].
  intros y Hy. congruence.
Qed.

Lemma on_data_frame i g slot rs buf recs syn :
  pads g !! i = Some slot -> stream slot = Some rs ->
  parse_events buf = recs ++ [syn] ->
  Forall mutating recs -> ev_type syn = EV_SYN ->
  on_data i buf g
  = (set_msgCount (msgCount g + 1)
       (set_pads
          (<[i := set_state (apply_records (rs_ranges rs) (rs_layout rs) recs (state slot))
                    slot]> (pads g)) g),
     console_push g i (apply_records (rs_ranges rs) (rs_layout rs) recs (state slot))).
Proof.
  intros L S P M T. unfold on_data, with_pad, with_state. rewrite L, S, P.
  rewrite for_each_app. unfold andThen at 1.
  rewrite (on_records_mutating i rs recs M g). simpl for_each.
  unfold andThen, skip.
  erewrite (on_record_sync i rs syn _ _ T).
  2:{ simpl pads. rewrite list_lookup_alter_eq, L. reflexivity. }
  simpl. rewrite app_nil_r. f_equal.
  - rewrite (alter_as_insert _ _ _ slot L). reflexivity.
  - unfold console_push, console_open.
    destruct (ps4Connection g) as [k|]; [|reflexivity].
    destruct (conns g !! k) as [c|]; reflexivity.
Qed.

(** C6 (amended). A buffer of key and axis records followed by one sync
    record makes the handler push once, at the sync record, and count once:
    the only effect is one pad-update frame that carries the state after all
    the records before the sync, when there is a console connection whose
    socket is open; without one nothing is sent (the send is dropped), and
    the message counter goes up by one all the same. *)
Theorem sync_boundary_push
    (i : nat) (g : Bridge) (slot : PadSlot) (rs : ReadStream)
    (buf : list Byte.byte) (recs : list InputEvent) (syn : InputEvent) :
  pads g !! i = Some slot -> stream slot = Some rs ->
  parse_events buf = recs ++ [syn] ->
  Forall mutating recs -> ev_type syn = EV_SYN ->
  let s' := apply_records (rs_ranges rs) (rs_layout rs) recs (state slot) in
  slot_state (fst (on_data i buf g)) i = s'
  /\ msgCount (fst (on_data i buf g)) = msgCount g + 1
  /\ snd (on_data i buf g) = console_push g i s'
  /\ pad_updates (snd (on_data i buf g))
     = (if console_open g then [pad_frame i s'] else []).
Proof.
  intros L S P M T s'.
  rewrite (on_data_frame i g slot rs buf recs syn L S P M T). fold s'. simpl.
  repeat split.
  - unfold slot_state. simpl. rewrite list_lookup_insert_eq; [reflexivity|].
    now apply lookup_lt_Some in L.
  - unfold console_push. destruct (ps4Connection g) as [k|] eqn:C.
    + destruct (console_open g); reflexivity.
    + unfold console_open. now rewrite C.
Qed.

Lemma sync_boundary_push_witness :
  console_open sample_connected = true
  /\ msgCount (fst (on_data 0 sample_frame sample_connected)) = 1
  /\ pad_updates (snd (on_data 0 sample_frame sample_connected))
     = [PadUpdate 0 ORBIS.CROSS 128 128 128 128 0 0 0].
Proof.
  split; [vm_compute; reflexivity|].
  destruct (sync_boundary_push 0 sample_connected (slot_at sample_connected 0)
              {| rs_path := "/dev/input/event5";
                 rs_ranges := getFallbackRanges "3537";
                 rs_layout := gas_brake |}
              sample_frame
              [ {| ev_type := EV_KEY; ev_code := BTN_SOUTH; ev_value := 1 |};
                abs_record ABS_X 0 ]
              {| ev_type := EV_SYN; ev_code := 0; ev_value := 0 |})
    as (_ & C & _ & U).
  - vm_compute. reflexivity.
  - vm_compute. reflexivity.
  - vm_compute. reflexivity.
  - repeat (apply List.Forall_cons;
            [first [left; reflexivity | right; reflexivity]|]).
    apply List.Forall_nil.
  - reflexivity.
  - split; [exact C|]. rewrite U. vm_compute. reflexivity.
Defined.

(** C6 as stated fails before the console is connected: the frame is
    processed and counted, and nothing is pushed. *)
Lemma sync_boundary_counterexample :
  parse_events sample_frame
  = [ {| ev_type := EV_KEY; ev_code := BTN_SOUTH; ev_value := 1 |};
      abs_record ABS_X 0;
      {| ev_type := EV_SYN; ev_code := 0; ev_value := 0 |} ]
  /\ snd (handle (StreamData 0 sample_frame) sample_assigned) = []
  /\ msgCount (fst (handle (StreamData 0 sample_frame) sample_assigned))
     = msgCount sample_assigned + 1.
Proof. repeat split; vm_compute; reflexivity. Qed.

(* ====================================================================== *)
(** ** Reconnection *)

Section Closed.

Variable k : nat.

Lemma triple_seq_inv (I : Bridge -> Prop) E a b :
  triple I E I a -> triple I E I b -> triple I E I (a ;; b).
Proof. apply triple_seq. Qed.

Lemma triple_with_state_inv (P Q : Bridge -> Prop) E f :
  (forall g0, P g0 -> triple P E Q (f g0)) -> triple P E Q (with_state f).
Proof. intros H g Pg. exact (H g Pg g Pg). Qed.

(** Only [set_intentionallyClosed] writes the flag, and only with [true]. *)
Lemma closed_modify_conn k' f :
  (forall c, intentionallyClosed c = true -> intentionallyClosed (f c) = true) ->
  triple (closed_conn k) (no_connect k) (closed_conn k) (modify_conn k' f).
Proof.
  intros H. apply triple_modify. intros g (c & L & C). unfold closed_conn. simpl.
  destruct (decide (k' = k)) as [->|N].
  - exists (f c). rewrite list_lookup_alter_eq, L. auto.
  - exists c. rewrite list_lookup_alter_ne by assumption. auto.
Qed.

Lemma closed_modify f :
  (forall g, conns (f g) = conns g) ->
  triple (closed_conn k) (no_connect k) (closed_conn k) (modify f).
Proof.
  intros H. apply triple_modify. intros g (c & L & C). exists c. now rewrite H.
Qed.

Lemma closed_new_conn c0 :
  triple (closed_conn k) (no_connect k) (closed_conn k)
    (modify (fun g => set_conns (conns g ++ [c0]) g)).
Proof.
  apply triple_modify. intros g (c & L & C). exists c. split; [|assumption].
  simpl. rewrite lookup_app_l; [assumption|]. now apply lookup_lt_Some in L.
Qed.

Lemma no_connect_other k' host port : k' <> k -> no_connect k (NewWebSocket k' host port).
Proof. intros N h p [= -> _ _]. now apply N. Qed.

(** A connection object that is not closed is not [k]. *)
Lemma open_conn_is_other k' c :
  (exists g, closed_conn k g /\ conns g !! k' = Some c) ->
  intentionallyClosed c = false -> k' <> k.
Proof. intros (g & (c' & L' & C') & L) O ->. congruence. Qed.

Lemma fresh_conn_is_other g0 : closed_conn k g0 -> length (conns g0) <> k.
Proof. intros (c & L & _) E. apply lookup_lt_Some in L. lia. Qed.

End Closed.

(** Handlers keep a closed connection closed and open no socket for it. *)
Ltac closed_tac :=
  repeat match goal with
    | |- triple _ _ _ skip => apply triple_skip
    | |- triple _ _ _ (emit (NewWebSocket _ _ _)) =>
        apply triple_emit, no_connect_other;
        match goal with
        | H : (exists g, closed_conn _ g /\ conns g !! ?k' = Some ?c),
          O : intentionallyClosed ?c = false |- _ =>
            exact (open_conn_is_other _ k' c H O)
        | H : closed_conn _ ?g0 |- length (conns ?g0) <> _ =>
            exact (fresh_conn_is_other _ g0 H)
        end
    | |- triple _ _ _ (emit _) => apply triple_emit; intros ? ?; discriminate
    | |- triple _ _ _ (_ ;; _) => apply triple_seq_inv
    | |- triple _ _ _ (for_each _ _) => apply triple_for_each; intros ? ?
    | |- triple _ _ _ (with_pad _ _) => apply triple_with_pad; [intros ? ?|auto]
    | |- triple _ _ _ (with_conn _ _) => apply triple_with_conn; [intros ? ?|auto]
    | |- triple _ _ _ (with_state _) => apply triple_with_state_inv; intros ? ?
    | |- triple _ _ _ (modify_conn _ _) => apply closed_modify_conn; intros ? ?; auto
    | |- triple _ _ _ (modify_pad _ _) => apply closed_modify; intros ?; reflexivity
    | |- triple _ _ _ (modify (fun g => set_conns (conns g ++ _) g)) => apply closed_new_conn
    | |- triple _ _ _ (modify _) => apply closed_modify; intros ?; reflexivity
    | |- triple _ _ _ (if ?b then _ else _) => destruct b eqn:?
    | |- triple _ _ _ (match ?x with _ => _ end) => destruct x eqn:?
    | |- triple _ _ _ (let _ := _ in _) => cbv zeta
    | H : negb _ = true |- _ => apply negb_true_iff in H
    end.

Create HintDb handlers.

#[local] Hint Unfold
  on_data on_record on_stream_error on_stream_close on_scan vacate
  api_assign api_unassign
  api_connect api_disconnect createPS4Connection close send
  on_ws_open on_ws_close on_ws_message on_info_timeout getInfo info_resolved
  reconnect_callback connect scheduleReconnect
  stopEvdevReader startEvdevReader : handlers.

Section ClosedHandlers.

Variable k : nat.

Lemma closed_reconnect_callback k' throws :
  triple (closed_conn k) (no_connect k) (closed_conn k) (reconnect_callback k' throws).
Proof. repeat autounfold with handlers. closed_tac. Qed.

Lemma closed_handle ev :
  triple (closed_conn k) (no_connect k) (closed_conn k) (handle ev).
Proof. destruct ev; simpl handle; repeat autounfold with handlers; closed_tac. Qed.

Lemma closed_run evs :
  triple (closed_conn k) (no_connect k) (closed_conn k) (run evs).
Proof. apply triple_for_each. intros ev _. apply closed_handle. Qed.

End ClosedHandlers.

Lemma close_spec k g c :
  conns g !! k = Some c ->
  conns (fst (close k g)) !! k
  = Some {| c_host := c_host c; c_port := c_port c; ws := ws c; open := false;
            rpcId := rpcId c; pending := pending c;
            reconnectTimer := reconnectTimer c;
            timerPending := if reconnectTimer c then false else timerPending c;
            intentionallyClosed := true |}
  /\ snd (close k g)
     = (if reconnectTimer c then [ClearTimeout (ReconnectTimer k)] else [])
       ++ (if ws c then [WsClose k] else []).
Proof.
  intros L. unfold close, with_conn, with_state. rewrite L.
  destruct (reconnectTimer c) eqn:T, (ws c) eqn:W;
    unfold andThen, modify_conn, modify, emit, skip; simpl;
    rewrite ?list_alter_alter_eq, list_lookup_alter_eq, L; simpl;
    (split; [|reflexivity]); f_equal; destruct c; simpl in *; now subst.
Qed.

(** C7. Reconnect suppression: once [close()] has run on a connection
    object, the flag stays set, and no event that follows (the reconnect
    timer firing, the socket closing, a failed connect, requests, anything
    else) ever opens a socket for that connection again; the reconnect
    callback itself does nothing then, also if a timer that was armed before
    the call still ran. *)
Theorem reconnect_suppression (k : nat) (g : Bridge) (evs : list Event) :
  (k < length (conns g))%nat ->
  let g1 := fst (close k g) in
  closed_conn k g1
  /\ Forall (no_connect k) (snd (close k g))
  /\ Forall (no_connect k) (snd (run evs g1))
  /\ closed_conn k (fst (run evs g1))
  /\ (forall throws, Forall (no_connect k) (snd (reconnect_callback k throws g1))).
Proof.
  intros B g1.
  destruct (lookup_lt_is_Some_2 _ _ B) as [c L].
  destruct (close_spec k g c L) as [L1 E1].
  assert (C1 : closed_conn k g1) by (eexists; split; [exact L1|reflexivity]).
  split; [exact C1|]. split.
  - rewrite E1. apply Forall_app. split.
    + destruct (reconnectTimer c); repeat constructor. intros h p. discriminate.
    + destruct (ws c); repeat constructor. intros h p. discriminate.
  - destruct (closed_run k evs g1 C1) as [C2 E2]. split; [exact E2|]. split; [exact C2|].
    intros throws. apply (closed_reconnect_callback k k throws g1 C1).
Qed.

Lemma reconnect_suppression_witness :
  (exists c, conns sample_reconnecting !! 0%nat = Some c /\ timerPending c = true)
  /\ Forall (no_connect 0)
       (snd (run [ ReconnectTimerFired 0 false; WsClosed 0; ReconnectTimerFired 0 true ]
                 (fst (close 0 sample_reconnecting)))).
Proof.
  split.
  - vm_compute. eauto.
  - apply (reconnect_suppression 0 sample_reconnecting
             [ ReconnectTimerFired 0 false; WsClosed 0; ReconnectTimerFired 0 true ]).
    vm_compute. lia.
Defined.

(** Without the explicit disconnect the armed timer does reconnect. *)
Example reconnect_without_close :
  snd (run [ ReconnectTimerFired 0 false ] sample_reconnecting)
  = [ NewWebSocket 0 "z-ps4" 4263 ].
Proof. vm_compute. reflexivity. Qed.

(* ====================================================================== *)
(** ** The channels of a slot while its reader runs *)

Section Channels.

Variable i : nat.
Variable rs : ReadStream.

Let step (e : InputEvent) (slot : PadSlot) : PadSlot :=
  set_state (apply_record (rs_ranges rs) (rs_layout rs) e (state slot)) slot.

Let steps (es : list InputEvent) (slot : PadSlot) : PadSlot :=
  set_state (apply_records (rs_ranges rs) (rs_layout rs) es (state slot)) slot.

Lemma send_fst k s g : fst (send k s i g) = g.
Proof. now rewrite send_effects. Qed.

(** Whatever its type, a record touches the slots only through
    [apply_record] on the state of its own slot. *)
Lemma on_record_pads e g :
  pads (fst (on_record i rs e g)) = alter (step e) i (pads g).
Proof.
  unfold on_record, step, apply_record.
  destruct (ev_type e =? EV_KEY) eqn:K; [reflexivity|].
  destruct (ev_type e =? EV_ABS) eqn:A; [reflexivity|].
  assert (Id : forall slot, set_state (state slot) slot = slot)
    by apply set_state_same.
  rewrite (list_alter_id _ _ _ Id).
  destruct (ev_type e =? EV_SYN); [|reflexivity].
  rewrite andThen_fst, modify_fst. simpl pads.
  unfold with_pad, with_state. destruct (pads g !! i) as [slot|]; [|reflexivity].
  destruct (ps4Connection g) as [k|]; [|reflexivity].
  now rewrite send_fst.
Qed.

Lemma on_records_pads es :
  forall g, pads (fst (for_each es (on_record i rs) g)) = alter (steps es) i (pads g).
Proof.
  induction es as [|e es IH]; intros g; simpl for_each.
  - rewrite skip_fst. symmetry. apply list_alter_id. intros slot. apply set_state_same.
  - rewrite andThen_fst, IH, on_record_pads, list_alter_alter_eq. reflexivity.
Qed.

Lemma on_data_pads buf g slot :
  pads g !! i = Some slot -> stream slot = Some rs ->
  pads (fst (on_data i buf g)) = <[i := steps (parse_events buf) slot]> (pads g).
Proof.
  intros L S. unfold on_data, with_pad, with_state. rewrite L, S.
  rewrite on_records_pads. now apply alter_as_insert.
Qed.

(** A run of buffers on the stream of the slot is [apply_records] on the
    records of all of them. *)
Lemma run_data_slot bufs :
  forall g slot,
  pads g !! i = Some slot -> stream slot = Some rs ->
  pads (fst (run (map (StreamData i) bufs) g)) !! i
  = Some (steps (concat (map parse_events bufs)) slot).
Proof.
  induction bufs as [|buf bufs IH]; intros g slot L S.
  - change (pads g !! i = Some (steps [] slot)). rewrite L. f_equal.
    symmetry. apply set_state_same.
  - change (run (map (StreamData i) (buf :: bufs)) g)
      with ((handle (StreamData i buf) ;; run (map (StreamData i) bufs)) g).
    rewrite andThen_fst.
    simpl handle.
    assert (L1 : pads (fst (on_data i buf g)) !! i = Some (steps (parse_events buf) slot)).
    { rewrite (on_data_pads buf g slot L S). apply list_lookup_insert_eq.
      now apply lookup_lt_Some in L. }
    rewrite (IH _ _ L1 S). f_equal. unfold steps. simpl state.
    change (concat (map parse_events (buf :: bufs)))
      with (parse_events buf ++ concat (map parse_events bufs)).
    unfold apply_records. rewrite fold_left_app. reflexivity.
Qed.

End Channels.

(** C1 (amended). For every slot whose reader has just started (state at
    rest: sticks 128, triggers 0), after the handler has processed any
    sequence of buffers of evdev records the six analog channels of the slot
    lie within 0..255, provided every absolute-axis record for a channel
    finds a range in the map of the reader (or its raw value already is
    within 0..255): without a range the handler stores the raw value as it
    comes. *)
Theorem channel_range_invariant
    (i : nat) (g : Bridge) (slot : PadSlot) (rs : ReadStream)
    (bufs : list (list Byte.byte)) :
  pads g !! i = Some slot -> stream slot = Some rs -> state slot = freshPadState ->
  ranges_int32 (rs_ranges rs) ->
  Forall (calibrated (rs_ranges rs)) (concat (map parse_events bufs)) ->
  (lx freshPadState = 128%float /\ ly freshPadState = 128%float
   /\ rx freshPadState = 128%float /\ ry freshPadState = 128%float
   /\ l2 freshPadState = 0%float /\ r2 freshPadState = 0%float)
  /\ slot_state (fst (run (map (StreamData i) bufs) g)) i
     = apply_records (rs_ranges rs) (rs_layout rs) (concat (map parse_events bufs))
         freshPadState
  /\ channels_in_range (slot_state (fst (run (map (StreamData i) bufs) g)) i).
Proof.
  intros L S R W C. split; [repeat split|].
  assert (E : slot_state (fst (run (map (StreamData i) bufs) g)) i
              = apply_records (rs_ranges rs) (rs_layout rs)
                  (concat (map parse_events bufs)) freshPadState).
  { unfold slot_state. rewrite (run_data_slot i rs bufs g slot L S). simpl. now rewrite R. }
  split; [exact E|]. rewrite E.
  apply apply_records_channels; auto using fresh_channels.
  apply Forall_concat, Forall_forall. intros es Hes.
  apply list_elem_of_fmap in Hes as (buf & -> & _). apply parse_events_wire.
Qed.

Lemma channel_range_invariant_witness :
  slot_state (fst (run [ StreamData 0 sample_frame;
                         StreamData 0 (encode_event (abs_record ABS_RZ 70000)) ]
                       sample_assigned)) 0
  = {| buttons := ORBIS.CROSS; lx := 128; ly := 128; rx := 128; ry := 255;
       l2 := 0; r2 := 0 |}
  /\ channels_in_range
       (slot_state (fst (run [ StreamData 0 sample_frame;
                               StreamData 0 (encode_event (abs_record ABS_RZ 70000)) ]
                             sample_assigned)) 0).
Proof.
  destruct (channel_range_invariant 0 sample_assigned (slot_at sample_assigned 0)
              {| rs_path := "/dev/input/event5";
                 rs_ranges := getFallbackRanges "3537";
                 rs_layout := gas_brake |}
              [ sample_frame; encode_event (abs_record ABS_RZ 70000) ])
    as (_ & E & C).
  - vm_compute. reflexivity.
  - vm_compute. reflexivity.
  - vm_compute. reflexivity.
  - apply getFallbackRanges_int32.
  - repeat (apply List.Forall_cons;
            [ intros T I; vm_compute in T;
              first [ discriminate T | solve [left; vm_compute; eauto] ] | ]).
    apply List.Forall_nil.
  - split; [|exact C].
    etransitivity; [exact E|]. vm_compute. reflexivity.
Defined.

(** C1 as stated fails: a gas/brake pad whose ranges could not be queried
    gets the fallback map, which has no entry for ABS_GAS; its raw trigger
    value 1023 is stored as it is. *)
Lemma channel_range_counterexample :
  getFallbackRanges (vendor sample_gas_pad) !! ABS_GAS = None
  /\ r2 (slot_state
          (fst (run [ StreamData 0 (encode_event (abs_record ABS_GAS 1023)) ]
                    sample_assigned)) 0) = 1023%float
  /\ ~ channels_in_range
         (slot_state
            (fst (run [ StreamData 0 (encode_event (abs_record ABS_GAS 1023)) ]
                      sample_assigned)) 0).
Proof.
  split; [vm_compute; reflexivity|]. split; [vm_compute; reflexivity|].
  intros (_ & _ & _ & _ & _ & H). vm_compute in H. discriminate H.
Qed.

(* ====================================================================== *)
(** * Further properties of the bridge *)

(** ** Buffers and records *)

Section Chunks.

Lemma byte_at_app_l b1 b2 i : (i < length b1)%nat -> byte_at (b1 ++ b2) i = byte_at b1 i.
Proof. intros H. unfold byte_at. now rewrite lookup_app_l. Qed.

Lemma byte_at_app_r b1 b2 i : byte_at (b1 ++ b2) (length b1 + i) = byte_at b2 i.
Proof.
  unfold byte_at. rewrite lookup_app_r by lia.
  now replace (length b1 + i - length b1)%nat with i by lia.
Qed.

Lemma read_event_app_l b1 b2 off :
  (off + EVENT_SIZE <= length b1)%nat -> read_event (b1 ++ b2) off = read_event b1 off.
Proof.
  unfold EVENT_SIZE. intros H.
  unfold read_event, readUInt16LE, readInt32LE.
  rewrite !byte_at_app_l by lia. reflexivity.
Qed.

Lemma read_event_app_r b1 b2 off :
  read_event (b1 ++ b2) (length b1 + off) = read_event b2 off.
Proof.
  unfold read_event, readUInt16LE, readInt32LE.
  rewrite <- !Nat.add_assoc, !byte_at_app_r. reflexivity.
Qed.

Lemma parse_events_length buf : length (parse_events buf) = (length buf / EVENT_SIZE)%nat.
Proof. unfold parse_events, event_offsets. now rewrite !length_map, length_seq. Qed.

Lemma parse_events_short buf : (length buf < EVENT_SIZE)%nat -> parse_events buf = [].
Proof.
  intros H. unfold parse_events, event_offsets.
  now rewrite Nat.div_small.
Qed.

(** The records of two chunks, the first of which ends at a record boundary. *)
Lemma parse_events_app b1 b2 :
  (length b1 mod EVENT_SIZE = 0)%nat ->
  parse_events (b1 ++ b2) = parse_events b1 ++ parse_events b2.
Proof.
  intros A.
  assert (L : length b1 = (length b1 / EVENT_SIZE * EVENT_SIZE)%nat).
  { pose proof (Nat.div_mod_eq (length b1) EVENT_SIZE). lia. }
  set (n := (length b1 / EVENT_SIZE)%nat) in *.
  unfold parse_events, event_offsets. rewrite length_app.
  replace ((length b1 + length b2) / EVENT_SIZE)%nat with (n + length b2 / EVENT_SIZE)%nat.
  2:{ rewrite L, (Nat.add_comm (n * EVENT_SIZE)), Nat.div_add by (unfold EVENT_SIZE; lia).
      lia. }
  rewrite seq_app, !map_app. f_equal.
  - rewrite !map_map. apply map_ext_in. intros k Hk. apply in_seq in Hk.
    apply read_event_app_l. rewrite L. unfold EVENT_SIZE. lia.
  - rewrite Nat.add_0_l.
    replace (seq n (length b2 / EVENT_SIZE))
      with (map (Nat.add n) (seq 0 (length b2 / EVENT_SIZE)))
      by (rewrite <- (Nat.add_0_r n) at 2; apply fmap_add_seq).
    rewrite !map_map. apply map_ext. intros k.
    replace ((n + k) * EVENT_SIZE)%nat with (length b1 + k * EVENT_SIZE)%nat by lia.
    apply read_event_app_r.
Qed.

End Chunks.

(** X1. The handler reads a buffer in whole 24-byte records: a buffer that
    continues one which ends at a record boundary yields the records of
    both, in order; the number of records is the number of whole records in
    each part; and trailing bytes that do not fill a record are dropped. *)
Theorem parse_events_chunks (b1 b2 : list Byte.byte) :
  (length b1 mod EVENT_SIZE = 0)%nat ->
  parse_events (b1 ++ b2) = parse_events b1 ++ parse_events b2
  /\ length (parse_events (b1 ++ b2))
     = (length b1 / EVENT_SIZE + length b2 / EVENT_SIZE)%nat
  /\ ((length b2 < EVENT_SIZE)%nat -> parse_events (b1 ++ b2) = parse_events b1).
Proof.
  intros A. pose proof (parse_events_app b1 b2 A) as E. split; [exact E|]. split.
  - now rewrite E, length_app, !parse_events_length.
  - intros S. now rewrite E, (parse_events_short b2 S), app_nil_r.
Qed.

Lemma parse_events_chunks_witness :
  parse_events (sample_frame ++ [Byte.x01; Byte.x02; Byte.x03]) = parse_events sample_frame
  /\ length (parse_events (sample_frame ++ [Byte.x01; Byte.x02; Byte.x03])) = 3%nat.
Proof.
  destruct (parse_events_chunks sample_frame [Byte.x01; Byte.x02; Byte.x03])
    as (_ & L & S).
  - reflexivity.
  - split; [apply S; vm_compute; lia|exact L].
Defined.

(** X2. Reading is the inverse of the kernel's record layout: a buffer made
    of the 24-byte images of a sequence of records (16-bit type and code,
    signed 32-bit value, little endian), followed by fewer than 24 stray
    bytes, is read back as exactly these records. *)
Theorem parse_events_roundtrip (es : list InputEvent) (tail : list Byte.byte) :
  Forall wire_record es -> (length tail < EVENT_SIZE)%nat ->
  parse_events (concat (map encode_event es) ++ tail) = es.
Proof.
  intros W T. induction W as [|e es We W IH].
  - now apply parse_events_short.
  - change (concat (map encode_event (e :: es)))
      with (encode_event e ++ concat (map encode_event es)).
    rewrite <- app_assoc, parse_events_app by reflexivity.
    now rewrite (parse_encode_event e We), IH.
Qed.

Lemma parse_events_roundtrip_witness :
  parse_events
    (concat (map encode_event
               [ abs_record ABS_X (-32768);
                 {| ev_type := EV_KEY; ev_code := BTN_DPAD_RIGHT; ev_value := 1 |};
                 {| ev_type := EV_SYN; ev_code := 0; ev_value := 0 |} ])
     ++ [Byte.xff])
  = [ abs_record ABS_X (-32768);
      {| ev_type := EV_KEY; ev_code := BTN_DPAD_RIGHT; ev_value := 1 |};
      {| ev_type := EV_SYN; ev_code := 0; ev_value := 0 |} ].
Proof.
  apply parse_events_roundtrip.
  - repeat (apply List.Forall_cons; [repeat split; vm_compute; easy|]).
    apply List.Forall_nil.
  - simpl. unfold EVENT_SIZE. lia.
Defined.

Section DataChunks.

Variable i : nat.

(** The handler on a buffer is the handler on its two chunks, one after the
    other: the stream of the slot is still the same after the first. *)
Lemma on_data_app b1 b2 g :
  (length b1 mod EVENT_SIZE = 0)%nat ->
  on_data i (b1 ++ b2) g = (on_data i b1 ;; on_data i b2) g.
Proof.
  intros A. unfold on_data at 1 2, with_pad, with_state, andThen.
  destruct (pads g !! i) as [slot|] eqn:L.
  - destruct (stream slot) as [rs|] eqn:S.
    + rewrite (parse_events_app b1 b2 A), for_each_app. unfold andThen.
      destruct (for_each (parse_events b1) (on_record i rs) g) as [g1 e1] eqn:E1.
      assert (exists slot', pads g1 !! i = Some slot' /\ stream slot' = Some rs)
        as (slot' & L' & S').
      { pose proof (on_records_pads i rs (parse_events b1) g) as P.
        rewrite E1 in P. simpl in P. rewrite P, list_lookup_alter_eq, L. simpl. eauto. }
      unfold on_data, with_pad, with_state. now rewrite L', S'.
    + unfold skip, on_data, with_pad, with_state. now rewrite L, S.
  - unfold skip, on_data, with_pad, with_state. now rewrite L.
Qed.

End DataChunks.

(** X3. How the stream cuts the data into chunks does not matter as long as
    it cuts at record boundaries: one [data] event with a buffer and two
    [data] events with its two parts leave the same state and have the same
    effects, in the same order. *)
Theorem data_chunking (i : nat) (b1 b2 : list Byte.byte) (g : Bridge) :
  (length b1 mod EVENT_SIZE = 0)%nat ->
  run [StreamData i (b1 ++ b2)] g = run [StreamData i b1; StreamData i b2] g.
Proof.
  intros A. unfold run. simpl for_each.
  unfold andThen at 1. rewrite (on_data_app i b1 b2 g A).
  unfold andThen, skip.
  destruct (on_data i b1 g) as [g1 e1]. destruct (on_data i b2 g1) as [g2 e2].
  now rewrite !app_nil_r.
Qed.

Lemma data_chunking_witness :
  run [ StreamData 0 (encode_event (abs_record ABS_X 0) ++ sample_frame) ] sample_connected
  = run [ StreamData 0 (encode_event (abs_record ABS_X 0)); StreamData 0 sample_frame ]
        sample_connected.
Proof. apply data_chunking. reflexivity. Defined.

Section SyncCount.

Variable i : nat.
Variable rs : ReadStream.

Lemma console_push_frame g g' s :
  ps4Connection g' = ps4Connection g -> conns g' = conns g ->
  console_push g' i s = console_push g i s.
Proof. intros C K. unfold console_push, console_open. now rewrite C, K. Qed.

(** One record: the slot state moves by [apply_record], a sync record pushes
    the state and counts, and the connection is not touched. *)
Lemma on_record_step e g slot :
  pads g !! i = Some slot ->
  let g' := fst (on_record i rs e g) in
  pads g' !! i
  = Some (set_state (apply_record (rs_ranges rs) (rs_layout rs) e (state slot)) slot)
  /\ ps4Connection g' = ps4Connection g /\ conns g' = conns g
  /\ msgCount g' = msgCount g + (if ev_type e =? EV_SYN then 1 else 0)
  /\ snd (on_record i rs e g)
     = (if ev_type e =? EV_SYN
        then console_push g i (apply_record (rs_ranges rs) (rs_layout rs) e (state slot))
        else []).
Proof.
  intros L g'. subst g'. split.
  { now rewrite on_record_pads, list_lookup_alter_eq, L. }
  destruct (Z.eqb_spec (ev_type e) EV_SYN) as [S|NS].
  - rewrite (on_record_sync i rs e g slot S L). simpl.
    repeat split. unfold apply_record. rewrite S. simpl.
    unfold console_push, console_open.
    destruct (ps4Connection g) as [k|]; [|reflexivity].
    destruct (conns g !! k) as [c|]; reflexivity.
  - unfold on_record.
    destruct (ev_type e =? EV_KEY); [simpl; repeat split; lia|].
    destruct (ev_type e =? EV_ABS); [simpl; repeat split; lia|].
    apply Z.eqb_neq in NS. rewrite NS. simpl. repeat split; lia.
Qed.

Lemma on_records_sync es :
  forall g slot,
  pads g !! i = Some slot ->
  let states := sync_states (rs_ranges rs) (rs_layout rs) es (state slot) in
  snd (for_each es (on_record i rs) g) = concat (map (console_push g i) states)
  /\ msgCount (fst (for_each es (on_record i rs) g))
     = msgCount g + Z.of_nat (length states).
Proof.
  induction es as [|e es IH]; intros g slot L; cbn zeta.
  - simpl. split; [reflexivity|lia].
  - simpl for_each. rewrite andThen_fst, andThen_snd.
    destruct (on_record_step e g slot L) as (L1 & C1 & K1 & M1 & E1).
    destruct (IH _ _ L1) as (E2 & M2). simpl state in E2, M2.
    rewrite E1, E2, M2, M1. simpl sync_states.
    rewrite map_app, concat_app, length_app, Nat2Z.inj_add.
    rewrite (map_ext _ _ (fun s => console_push_frame g _ s C1 K1)).
    destruct (ev_type e =? EV_SYN); simpl; split; try rewrite app_nil_r; try reflexivity; lia.
Qed.

End SyncCount.

Lemma pad_updates_push g i s :
  pad_updates (console_push g i s) = if console_open g then [pad_frame i s] else [].
Proof.
  unfold console_push. destruct (ps4Connection g) eqn:C.
  - destruct (console_open g); reflexivity.
  - unfold console_open. now rewrite C.
Qed.

Lemma pad_updates_app e1 e2 : pad_updates (e1 ++ e2) = pad_updates e1 ++ pad_updates e2.
Proof. unfold pad_updates. apply omap_app. Qed.

(** X4. One push and one count per sync record: whatever records a buffer
    holds, the handler pushes at each sync record, and only there, the state
    the slot has at that point, to the current console connection when its
    socket is open, and the message counter goes up by the number of sync
    records; a buffer without a sync record pushes and counts nothing. *)
Theorem push_per_sync
    (i : nat) (g : Bridge) (slot : PadSlot) (rs : ReadStream) (buf : list Byte.byte) :
  pads g !! i = Some slot -> stream slot = Some rs ->
  let states :=
    sync_states (rs_ranges rs) (rs_layout rs) (parse_events buf) (state slot) in
  snd (on_data i buf g) = concat (map (console_push g i) states)
  /\ pad_updates (snd (on_data i buf g))
     = (if console_open g then map (pad_frame i) states else [])
  /\ msgCount (fst (on_data i buf g)) = msgCount g + Z.of_nat (length states).
Proof.
  intros L S states.
  assert (D : on_data i buf g = for_each (parse_events buf) (on_record i rs) g).
  { unfold on_data, with_pad, with_state. now rewrite L, S. }
  rewrite D. destruct (on_records_sync i rs (parse_events buf) g slot L) as [E M].
  fold states in E, M. split; [exact E|]. split; [|exact M].
  rewrite E. clear. induction states as [|s states IH]; simpl.
  - now destruct (console_open g).
  - rewrite pad_updates_app, IH, pad_updates_push.
    now destruct (console_open g).
Qed.

Lemma push_per_sync_witness :
  pad_updates
    (snd (on_data 0 (sample_frame ++ encode_event (abs_record ABS_Y 32767) ++ sample_frame)
            sample_connected))
  = [ PadUpdate 0 ORBIS.CROSS 128 128 128 128 0 0 0;
      PadUpdate 0 ORBIS.CROSS 128 255 128 128 0 0 0 ]
  /\ msgCount
       (fst (on_data 0 (sample_frame ++ encode_event (abs_record ABS_Y 32767) ++ sample_frame)
               sample_connected)) = 2.
Proof.
  destruct (push_per_sync 0 sample_connected (slot_at sample_connected 0)
              {| rs_path := "/dev/input/event5";
                 rs_ranges := getFallbackRanges "3537";
                 rs_layout := gas_brake |}
              (sample_frame ++ encode_event (abs_record ABS_Y 32767) ++ sample_frame))
    as (_ & U & M).
  - vm_compute. reflexivity.
  - vm_compute. reflexivity.
  - split.
    + etransitivity; [exact U|]. vm_compute. reflexivity.
    + etransitivity; [exact M|]. vm_compute. reflexivity.
Defined.

(** ** Buttons and frames *)

Section Masks.





(** Every entry of [BUTTON_MAP] is one bit of the [ORBIS] table. *)
Lemma BUTTON_MAP_bit code btn :
  BUTTON_MAP !! code = Some btn ->
  orbis_mask btn /\ btn = 2 ^ Z.log2 btn /\ 0 <= Z.log2 btn < 32.
Proof.
  intros H. apply elem_of_list_to_map_2 in H.
  repeat (apply elem_of_cons in H as [[= -> ->]|H];
          [repeat split; vm_compute; congruence|]).
  now apply elem_of_nil in H.
Qed.

Lemma BUTTON_MAP_inj c1 c2 btn :
  BUTTON_MAP !! c1 = Some btn -> BUTTON_MAP !! c2 = Some btn -> c1 = c2.
Proof.
  intros H1 H2.
  apply elem_of_list_to_map_2, list_elem_of_In in H1.
  apply elem_of_list_to_map_2, list_elem_of_In in H2.
  match type of H1 with In _ ?l0 => set (l := l0) in * end.
  assert (A : forallb (fun p => forallb (fun q =>
                implb (snd p =? snd q) (fst p =? fst q)) l) l = true)
    by (vm_compute; reflexivity).
  rewrite forallb_forall in A. specialize (A _ H1).
  rewrite forallb_forall in A. specialize (A _ H2). simpl in A.
  rewrite Z.eqb_refl in A. now apply Z.eqb_eq in A.
Qed.

End Masks.

Lemma pow2_log2_neq a b :
  a = 2 ^ Z.log2 a -> b = 2 ^ Z.log2 b -> a <> b -> Z.log2 a <> Z.log2 b.
Proof. intros Ha Hb N E. apply N. rewrite Ha, Hb, E. reflexivity. Qed.

(** X5. A key record touches one button and nothing else: the sticks and
    triggers stay; a code outside [BUTTON_MAP] leaves the state as it is; a
    mapped code owns one bit of the mask, which is set for any non-zero value
    (press and auto-repeat alike) and cleared for 0, while every other bit
    of the 32-bit mask, in particular the bit of any other mapped code,
    keeps its value (no two codes of the table share a button). *)
Theorem key_record_buttons (code value : Z) (s : PadState) :
  let s' := on_key code value s in
  (lx s', ly s', rx s', ry s', l2 s', r2 s') = (lx s, ly s, rx s, ry s, l2 s, r2 s)
  /\ (BUTTON_MAP !! code = None -> s' = s)
  /\ (forall btn, BUTTON_MAP !! code = Some btn ->
        (exists k, 0 <= k < 32 /\ btn = 2 ^ k)
        /\ (forall n, 0 <= n < 32 ->
              Z.testbit (buttons s') n
              = if Z.testbit btn n then negb (value =? 0) else Z.testbit (buttons s) n)
        /\ (forall code2 btn2, code2 <> code -> BUTTON_MAP !! code2 = Some btn2 ->
              Z.testbit (buttons s') (Z.log2 btn2) = Z.testbit (buttons s) (Z.log2 btn2))).
Proof.
  intros s'. subst s'. unfold on_key. split; [|split].
  - destruct (BUTTON_MAP !! code); [destruct (negb _)|]; reflexivity.
  - now intros ->.
  - intros btn M. rewrite M.
    destruct (BUTTON_MAP_bit code btn M) as (_ & P & B).
    assert (T : forall n, 0 <= n < 32 ->
              Z.testbit
                (buttons (if negb (value =? 0) then set_buttons (js_or (buttons s) btn) s
                          else set_buttons (js_and (buttons s) (js_not btn)) s)) n
              = if Z.testbit btn n then negb (value =? 0) else Z.testbit (buttons s) n).
    { intros n Hn. destruct (negb (value =? 0)); simpl buttons.
      - rewrite testbit_js_or by assumption. destruct (Z.testbit btn n); [apply orb_true_r|apply orb_false_r].
      - rewrite testbit_js_and_not by assumption.
        destruct (Z.testbit btn n); [apply andb_false_r|apply andb_true_r]. }
    split; [eauto|]. split; [exact T|].
    intros code2 btn2 N M2.
    destruct (BUTTON_MAP_bit code2 btn2 M2) as (_ & P2 & B2).
    rewrite (T _ B2).
    assert (btn <> btn2) as D by (intros <-; apply N; eapply BUTTON_MAP_inj; eauto).
    rewrite P, Z.pow2_bits_false; [reflexivity|].
    now apply pow2_log2_neq.
Qed.

Lemma testbit_pow2 k n : 0 <= k -> Z.testbit (2 ^ k) n = (k =? n).
Proof. apply Z.pow2_bits_eqb. Qed.

Lemma hat_bits b lo hi value n :
  0 <= n < 32 -> 0 <= lo < 32 -> 0 <= hi < 32 -> lo <> hi ->
  let b0 := js_and b (js_not (js_or (2 ^ lo) (2 ^ hi))) in
  Z.testbit (if value <? 0 then js_or b0 (2 ^ lo)
             else if 0 <? value then js_or b0 (2 ^ hi) else b0) n
  = if Z.testbit (2 ^ lo) n then value <? 0
    else if Z.testbit (2 ^ hi) n then 0 <? value
    else Z.testbit b n.
Proof.
  intros Hn Hlo Hhi D b0.
  assert (T0 : Z.testbit b0 n = Z.testbit b n && negb ((lo =? n) || (hi =? n))).
  { subst b0. rewrite testbit_js_and_not, testbit_js_or by assumption.
    now rewrite !testbit_pow2 by lia. }
  rewrite !testbit_pow2 by lia.
  destruct (Z.ltb_spec value 0); [|destruct (Z.ltb_spec 0 value)];
    rewrite ?testbit_js_or, ?testbit_pow2, T0 by lia;
    destruct (Z.eqb_spec lo n), (Z.eqb_spec hi n); try lia;
    destruct (Z.testbit b n); try reflexivity; lia.
Qed.

Lemma on_abs_hat0x ranges layout value s :
  on_abs ranges layout ABS_HAT0X value s
  = let b0 := js_and (buttons s) (js_not (js_or (2 ^ 7) (2 ^ 5))) in
    set_buttons (if value <? 0 then js_or b0 (2 ^ 7)
                 else if 0 <? value then js_or b0 (2 ^ 5) else b0) s.
Proof.
  unfold on_abs.
  change (ABS_HAT0X =? ABS_X) with false. change (ABS_HAT0X =? ABS_Y) with false.
  change (ABS_HAT0X =? ABS_RX) with false. change (ABS_HAT0X =? ABS_RY) with false.
  change (ABS_HAT0X =? ABS_Z) with false. change (ABS_HAT0X =? ABS_RZ) with false.
  change (ABS_HAT0X =? ABS_BRAKE) with false. change (ABS_HAT0X =? ABS_GAS) with false.
  change (ABS_HAT0X =? ABS_HAT0X) with true. cbv iota zeta.
  destruct (value <? 0); [reflexivity|]. destruct (0 <? value); reflexivity.
Qed.

Lemma on_abs_hat0y ranges layout value s :
  on_abs ranges layout ABS_HAT0Y value s
  = let b0 := js_and (buttons s) (js_not (js_or (2 ^ 4) (2 ^ 6))) in
    set_buttons (if value <? 0 then js_or b0 (2 ^ 4)
                 else if 0 <? value then js_or b0 (2 ^ 6) else b0) s.
Proof.
  unfold on_abs.
  change (ABS_HAT0Y =? ABS_X) with false. change (ABS_HAT0Y =? ABS_Y) with false.
  change (ABS_HAT0Y =? ABS_RX) with false. change (ABS_HAT0Y =? ABS_RY) with false.
  change (ABS_HAT0Y =? ABS_Z) with false. change (ABS_HAT0Y =? ABS_RZ) with false.
  change (ABS_HAT0Y =? ABS_BRAKE) with false. change (ABS_HAT0Y =? ABS_GAS) with false.
  change (ABS_HAT0Y =? ABS_HAT0X) with false. change (ABS_HAT0Y =? ABS_HAT0Y) with true.
  cbv iota zeta.
  destruct (value <? 0); [reflexivity|]. destruct (0 <? value); reflexivity.
Qed.

(** X6. The hat axes are the d-pad: a [HAT0X] record makes LEFT the truth of
    [value < 0] and RIGHT the truth of [value > 0], a [HAT0Y] record does the
    same with UP and DOWN; both bits of the axis are rewritten by every
    record, so the two directions of one axis are never set together, and
    all the other buttons, the sticks and the triggers are untouched. *)
Theorem hat_record_buttons
    (ranges : gmap Z AxisRange) (layout : AxisLayout) (value : Z) (s : PadState) :
  let sx := on_abs ranges layout ABS_HAT0X value s in
  let sy := on_abs ranges layout ABS_HAT0Y value s in
  (forall n, 0 <= n < 32 ->
     Z.testbit (buttons sx) n
     = if Z.testbit ORBIS.LEFT n then value <? 0
       else if Z.testbit ORBIS.RIGHT n then 0 <? value
       else Z.testbit (buttons s) n)
  /\ (forall n, 0 <= n < 32 ->
        Z.testbit (buttons sy) n
        = if Z.testbit ORBIS.UP n then value <? 0
          else if Z.testbit ORBIS.DOWN n then 0 <? value
          else Z.testbit (buttons s) n)
  /\ (lx sx, ly sx, rx sx, ry sx, l2 sx, r2 sx) = (lx s, ly s, rx s, ry s, l2 s, r2 s)
  /\ (lx sy, ly sy, rx sy, ry sy, l2 sy, r2 sy) = (lx s, ly s, rx s, ry s, l2 s, r2 s).
Proof.
  intros sx sy. subst sx sy. rewrite on_abs_hat0x, on_abs_hat0y. cbv zeta.
  split; [|split; [|split; reflexivity]].
  - intros n Hn. simpl buttons.
    change ORBIS.LEFT with (2 ^ 7). change ORBIS.RIGHT with (2 ^ 5).
    apply (hat_bits (buttons s) 7 5 value n); lia.
  - intros n Hn. simpl buttons.
    change ORBIS.UP with (2 ^ 4). change ORBIS.DOWN with (2 ^ 6).
    apply (hat_bits (buttons s) 4 6 value n); lia.
Qed.

Section MaskInvariant.








End MaskInvariant.





(** ** Axis ranges *)

(** X8. The request number [EVIOCGABS(axis)] is an unsigned 32-bit number
    (the shifts give a negative 32-bit value, [>>> 0] makes it unsigned);
    for an axis code below 0xc0 it is 0x80184540 + axis, that is direction 2
    (read) in bits 30..31, size 24 in bits 16..29, type 0x45 ('E') in bits
    8..15 and number 0x40 + axis in the low byte, and two different axes
    never give the same request. *)
Theorem EVIOCGABS_encoding (axis : Z) :
  0 <= EVIOCGABS axis < 2 ^ 32
  /\ (0 <= axis < 0xc0 ->
      EVIOCGABS axis = 0x80184540 + axis
      /\ EVIOCGABS axis / 2 ^ 30 = 2
      /\ (EVIOCGABS axis / 2 ^ 16) mod 2 ^ 14 = 24
      /\ (EVIOCGABS axis / 2 ^ 8) mod 2 ^ 8 = 0x45
      /\ EVIOCGABS axis mod 2 ^ 8 = 0x40 + axis)
  /\ (forall axis', 0 <= axis < 0xc0 -> 0 <= axis' < 0xc0 ->
        EVIOCGABS axis = EVIOCGABS axis' -> axis = axis').
Proof.
  assert (E : forall a, 0 <= a < 0xc0 -> EVIOCGABS a = 0x80184540 + a).
  { intros a Ha.
    assert (A : forallb (fun n => EVIOCGABS (Z.of_nat n) =? 0x80184540 + Z.of_nat n)
                  (seq 0 192) = true) by (vm_compute; reflexivity).
    rewrite forallb_forall in A.
    rewrite <- (Z2Nat.id a) by lia. apply Z.eqb_eq, A, in_seq. lia. }
  split; [|split].
  - unfold EVIOCGABS, to_uint32. apply Z.mod_pos_bound. lia.
  - intros H. rewrite (E axis H). split; [reflexivity|].
    change (2 ^ 30) with 1073741824. change (2 ^ 16) with 65536.
    change (2 ^ 14) with 16384. change (2 ^ 8) with 256.
    repeat split; Z.div_mod_to_equations; lia.
  - intros axis' H H'. rewrite (E axis H), (E axis' H'). lia.
Qed.

Section Ranges.

Lemma detect_fold_lookup (ioctl : Z -> option (Z * Z)) (axes : list Z) :
  forall (m : gmap Z AxisRange) a,
  fold_left (fun ranges axis =>
               match ioctl axis with
               | Some (lo, hi) => <[axis := {| min := to_int32 lo; max := to_int32 hi |}]> ranges
               | None => ranges
               end) axes m !! a
  = if existsb (Z.eqb a) axes
    then match ioctl a with
         | Some (lo, hi) => Some {| min := to_int32 lo; max := to_int32 hi |}
         | None => m !! a
         end
    else m !! a.
Proof.
  induction axes as [|x axes IH]; intros m a; simpl; [reflexivity|].
  rewrite IH. destruct (Z.eqb_spec a x) as [->|N]; simpl.
  - destruct (ioctl x) as [[lo hi]|] eqn:F.
    + rewrite lookup_insert_eq. now destruct (existsb _ _).
    + now destruct (existsb _ _).
  - destruct (ioctl x) as [[lo hi]|] eqn:F; [|reflexivity].
    rewrite lookup_insert_ne by congruence. reflexivity.
Qed.

Lemma detectAxisRanges_lookup_some ioctl a :
  detectAxisRanges (Some ioctl) !! a
  = if existsb (Z.eqb a) queried_axes
    then match ioctl a with
         | Some (lo, hi) => Some {| min := to_int32 lo; max := to_int32 hi |}
         | None => None
         end
    else None.
Proof.
  unfold detectAxisRanges.
  etransitivity; [apply detect_fold_lookup|]. rewrite lookup_empty.
  destruct (existsb _ _); [|reflexivity]. now destruct (ioctl a) as [[lo hi]|].
Qed.

Lemma detectAxisRanges_size k :
  bool_decide (size (detectAxisRanges k) = 0%nat) = negb (answered k).
Proof.
  destruct k as [ioctl|]; [|reflexivity]. unfold answered.
  destruct (existsb _ queried_axes) eqn:X; cbn [negb].
  - apply bool_decide_eq_false. intros HE%map_size_empty_inv.
    apply existsb_exists in X as (a & Ha & Sa).
    pose proof (detectAxisRanges_lookup_some ioctl a) as L.
    rewrite HE, lookup_empty in L.
    replace (existsb (Z.eqb a) queried_axes) with true in L.
    + destruct (ioctl a) as [[lo hi]|]; discriminate.
    + symmetry. apply existsb_exists. exists a. split; [exact Ha|apply Z.eqb_refl].
  - apply bool_decide_eq_true, map_size_empty_iff, map_empty. intros a.
    rewrite detectAxisRanges_lookup_some.
    destruct (existsb (Z.eqb a) queried_axes) eqn:Q; [|reflexivity].
    apply existsb_exists in Q as (x & Hx & <-%Z.eqb_eq).
    destruct (ioctl a) as [[lo hi]|] eqn:I; [|reflexivity].
    assert (existsb (fun a => match ioctl a with Some _ => true | None => false end)
              queried_axes = true); [|congruence].
    apply existsb_exists. exists a. now rewrite I.
Qed.

End Ranges.

(** X9. What [detectAxisRanges] returns: an entry for exactly those of the
    ten queried axes (sticks, triggers, gas, brake and hats) for which the
    kernel answered, holding the minimum and maximum read as signed 32-bit
    numbers; an axis that is not queried has no entry whatever the kernel
    says, and when the device cannot be opened the map is empty. *)
Theorem detectAxisRanges_lookup (k : KernelAnswer) (axis : Z) :
  detectAxisRanges k !! axis
  = match k with
    | Some ioctl =>
        if existsb (Z.eqb axis) queried_axes
        then match ioctl axis with
             | Some (lo, hi) => Some {| min := to_int32 lo; max := to_int32 hi |}
             | None => None
             end
        else None
    | None => None
    end.
Proof.
  destruct k as [ioctl|]; [apply detectAxisRanges_lookup_some|apply lookup_empty].
Qed.

Ltac fallback_cases axis :=
  unfold getFallbackRanges; cbv zeta; simpl fold_left;
  repeat match goal with
  | |- context [<[?a := _]> _ !! axis] =>
      destruct (decide (axis = a)) as [->|];
      [rewrite lookup_insert_eq|rewrite lookup_insert_ne by congruence]
  end;
  rewrite ?lookup_empty.

(** X10. The fallback ranges, for any vendor: they cover the two sticks, the
    Z/RZ axes and the two hats and nothing else, in particular not GAS and
    BRAKE; every range has its minimum at or below 0 and its maximum above
    0, so [normalize] never divides by zero with them. *)
Theorem fallback_ranges (vendor : string) (axis : Z) :
  (is_Some (getFallbackRanges vendor !! axis)
   <-> In axis [ABS_X; ABS_Y; ABS_RX; ABS_RY; ABS_Z; ABS_RZ; ABS_HAT0X; ABS_HAT0Y])
  /\ (forall r, getFallbackRanges vendor !! axis = Some r -> min r <= 0 < max r)
  /\ getFallbackRanges vendor !! ABS_GAS = None
  /\ getFallbackRanges vendor !! ABS_BRAKE = None.
Proof.
  split; [|split; [|split; reflexivity]].
  - fallback_cases axis;
      try (split; [intros _; simpl; tauto|intros _; eauto]).
    split; [intros [r [=]]|].
    simpl. intuition congruence.
  - intros r. fallback_cases axis;
      intros [= <-]; try destruct (String.eqb _ _); simpl; lia.
Qed.

Section StartReader.

Lemma fallback_left_stick vendor : is_Some (getFallbackRanges vendor !! ABS_X).
Proof.
  unfold getFallbackRanges. cbv zeta. simpl fold_left.
  rewrite !lookup_insert_ne by (vm_compute; discriminate).
  rewrite lookup_insert_eq. eauto.
Qed.

Lemma answered_entry k : answered k = true -> exists axis, is_Some (detectAxisRanges k !! axis).
Proof.
  intros A. destruct k as [ioctl|]; [|discriminate]. unfold answered in A.
  apply existsb_exists in A as (a & Ha & Sa). exists a.
  rewrite detectAxisRanges_lookup_some.
  replace (existsb (Z.eqb a) queried_axes) with true
    by (symmetry; apply existsb_exists; exists a; split; [exact Ha|apply Z.eqb_refl]).
  destruct (ioctl a) as [[lo hi]|]; [eauto|discriminate].
Qed.

(** Starting the reader of a slot that holds a device and no stream. *)
Lemma startEvdevReader_chosen i k g slot dev :
  pads g !! i = Some slot -> device slot = Some dev -> stream slot = None ->
  let ranges := if answered k then detectAxisRanges k
                else getFallbackRanges (vendor dev) in
  pads (fst (startEvdevReader i k g)) !! i
  = Some {| device := Some dev; state := freshPadState;
            stream := Some {| rs_path := eventPath dev; rs_ranges := ranges;
                              rs_layout := detectAxisLayout dev |};
            axisRanges := ranges; active := true |}
  /\ snd (startEvdevReader i k g) = [CreateReadStream i (eventPath dev)].
Proof.
  intros L D S. unfold startEvdevReader, with_pad, with_state. rewrite L, D, S.
  cbv zeta. rewrite detectAxisRanges_size.
  assert (R : (if negb (answered k) then getFallbackRanges (vendor dev)
               else detectAxisRanges k)
              = (if answered k then detectAxisRanges k
                 else getFallbackRanges (vendor dev)))
    by now destruct (answered k).
  rewrite R. split.
  - rewrite !andThen_fst. unfold modify_pad, modify, emit. simpl.
    rewrite !list_alter_alter_eq, list_lookup_alter_eq, L. simpl.
    unfold set_stream, set_active, set_state, set_axisRanges. simpl. now rewrite D.
  - rewrite !andThen_snd. reflexivity.
Qed.

End StartReader.

(** X11. Starting the reader of a slot: when the slot holds a device and no
    stream, the reader opens the event file of the device, the slot becomes
    active with a fresh state, and the ranges stored in the slot and used by
    the data handler are the ones the kernel reported if it answered for at
    least one queried axis, the fallback ranges of the vendor otherwise; the
    chosen map is never empty.  When the slot has no device or already has a
    stream, nothing happens at all. *)
Theorem startEvdevReader_ranges
    (i : nat) (k : KernelAnswer) (g : Bridge) (slot : PadSlot) :
  pads g !! i = Some slot ->
  (forall dev, device slot = Some dev -> stream slot = None ->
     let ranges := if answered k then detectAxisRanges k
                   else getFallbackRanges (vendor dev) in
     pads (fst (startEvdevReader i k g)) !! i
     = Some {| device := Some dev; state := freshPadState;
               stream := Some {| rs_path := eventPath dev; rs_ranges := ranges;
                                 rs_layout := detectAxisLayout dev |};
               axisRanges := ranges; active := true |}
     /\ snd (startEvdevReader i k g) = [CreateReadStream i (eventPath dev)]
     /\ exists axis, is_Some (ranges !! axis))
  /\ (device slot = None \/ is_Some (stream slot) -> startEvdevReader i k g = (g, [])).
Proof.
  intros L. split.
  - intros dev D S ranges.
    destruct (startEvdevReader_chosen i k g slot dev L D S) as [P E].
    split; [exact P|]. split; [exact E|]. subst ranges.
    destruct (answered k) eqn:A.
    + now apply answered_entry.
    + exists ABS_X. apply fallback_left_stick.
  - intros H. unfold startEvdevReader, with_pad, with_state. rewrite L.
    destruct (device slot) as [dev|]; [|reflexivity].
    destruct (stream slot) as [rs|]; [reflexivity|].
    destruct H as [H|[rs H]]; discriminate.
Qed.

Lemma startEvdevReader_ranges_witness :
  (snd (startEvdevReader 0 sample_answer sample_closed)
   = [CreateReadStream 0 "/dev/input/event5"]
   /\ option_map axisRanges (pads (fst (startEvdevReader 0 sample_answer sample_closed)) !! 0%nat)
      = Some (detectAxisRanges sample_answer))
  /\ startEvdevReader 0 sample_answer sample_assigned = (sample_assigned, []).
Proof.
  split.
  - destruct (startEvdevReader_ranges 0 sample_answer sample_closed
                (slot_at sample_closed 0) eq_refl) as [A _].
    destruct (A sample_gas_pad eq_refl eq_refl) as (P & E & _).
    split; [exact E|]. rewrite P. reflexivity.
  - destruct (startEvdevReader_ranges 0 sample_answer sample_assigned
                (slot_at sample_assigned 0) eq_refl) as [_ B].
    apply B. right. vm_compute. eauto.
Defined.

(** ** The result of [normalize] is a whole number, and saturates *)

Module NumSign.
Import Num NumOps.

Lemma binary_round_aux_sign s m e l :
  0 <= m -> SFsign (binary_round_aux prec emax s m e l) = Some s.
Proof.
  intros H. unfold binary_round_aux.
  pose proof (shr_fexp_nonneg m e l H) as H1.
  destruct (shr_fexp prec emax m e l) as [mrs' e']. simpl in H1.
  pose proof (shr_fexp_nonneg _ e' loc_Exact
                (round_nearest_even_nonneg _ (loc_of_shr_record mrs') H1)) as H2.
  destruct (shr_fexp prec emax (round_nearest_even _ _) e' loc_Exact) as [mrs'' e''].
  simpl in H2. destruct (shr_m mrs''); [reflexivity| |lia].
  destruct (e'' <=? _); reflexivity.
Qed.

Lemma SFmul_sign x s sy my ey :
  SFsign x = Some s -> SFsign (SF64mul x (S754_finite sy my ey)) = Some (xorb s sy).
Proof.
  destruct x as [sx|sx| |sx mx ex]; simpl; try discriminate; intros [= ->]; try reflexivity.
  apply binary_round_aux_sign. lia.
Qed.

Lemma SFdiv_sign sx mx ex sy my ey :
  SFsign (SF64div (S754_finite sx mx ex) (S754_finite sy my ey)) = Some (xorb sx sy).
Proof.
  unfold SF64div, SFdiv, SFdiv_core_binary.
  set (m' := match _ - _ with Z0 => Z.pos mx | Z.pos _ => _ | Z.neg _ => 0 end).
  assert (0 <= m').
  { subst m'. destruct (_ - _); try lia. apply Z.shiftl_nonneg. lia. }
  pose proof (Z_div_mod m' (Z.pos my) ltac:(lia)) as Hd.
  destruct (Z.div_eucl m' (Z.pos my)) as [q r].
  apply binary_round_aux_sign. nia.
Qed.

Lemma sign_not_nan x s : SFsign (Prim2SF x) = Some s -> PrimFloat.is_nan x = false.
Proof. intros H. apply Prim2SF_is_nan. intros E. now rewrite E in H. Qed.

Lemma num_of_Z_neg_sign p : SFsign (Prim2SF (num_of_Z (Zneg p))) = Some true.
Proof.
  unfold num_of_Z. rewrite opp_spec, of_uint63_spec.
  destruct (Uint63.to_Z (Uint63.of_Z (Zpos p))) as [|q|q] eqn:E; simpl binary_normalize.
  - reflexivity.
  - unfold binary_round. destruct (shl_align q 0 _) as [mz ez].
    pose proof (binary_round_aux_sign false (Zpos mz) ez loc_Exact ltac:(lia)) as S.
    destruct (binary_round_aux _ _ _ _ _ _); simpl in *; try discriminate;
      injection S as ->; reflexivity.
  - pose proof (Uint63.to_Z_bounded (Uint63.of_Z (Zpos p))). lia.
Qed.

(** Rounding keeps a negative number negative or makes it -0. *)
Lemma Math_round_sign x :
  SFsign (Prim2SF x) = Some true -> SFsign (Prim2SF (Math_round x)) = Some true.
Proof.
  intros H. unfold Math_round.
  destruct (Prim2SF x) as [s|s| |s m e] eqn:E; try (now rewrite E).
  injection H as ->.
  destruct (0 <=? e) eqn:P; [now rewrite E|]. apply Z.leb_gt in P.
  set (k := Z.shiftr _ _).
  destruct (Z.eqb_spec k 0) as [|NZ]; [reflexivity|].
  assert (K : k <= 0).
  { subst k. rewrite Z.shiftr_div_pow2, Z.shiftl_1_l by lia.
    assert (Z.neg m + 2 ^ (- e - 1) < 2 ^ (- e)).
    { replace (- e) with (Z.succ (- e - 1)) at 2 by lia.
      rewrite Z.pow_succ_r by lia.
      assert (0 < 2 ^ (- e - 1)) by (apply Z.pow_pos_nonneg; lia). lia. }
    assert (0 < 2 ^ (- e)) by (apply Z.pow_pos_nonneg; lia).
    assert ((Z.neg m + 2 ^ (- e - 1)) / 2 ^ (- e) < 1)
      by (apply Z.div_lt_upper_bound; lia).
    lia. }
  destruct k as [|q|q]; try lia. apply num_of_Z_neg_sign.
Qed.

Lemma is_neg_zero_255 : is_neg_zero 255 = false.
Proof. reflexivity. Qed.

(** A negative number, [-0] included, is clamped to 0. *)
Lemma clamp_negative r :
  SFsign (Prim2SF r) = Some true -> Math_max 0 (Math_min 255 r) = 0%float.
Proof.
  intros S. pose proof (sign_not_nan r true S) as N.
  assert (L1 : PrimFloat.ltb 255 r = false).
  { rewrite ltb_spec. change (Prim2SF 255) with (S754_finite false 8972014882652160 (-45)).
    destruct (Prim2SF r) as [s|s| |s m e]; simpl in S; try discriminate;
      injection S as ->; reflexivity. }
  assert (L2 : PrimFloat.ltb 0 r = false).
  { rewrite ltb_spec. change (Prim2SF 0) with (S754_zero false).
    destruct (Prim2SF r) as [s|s| |s m e]; simpl in S; try discriminate;
      injection S as ->; reflexivity. }
  unfold Math_min. change (PrimFloat.is_nan 255) with false. rewrite N, L1. cbn [orb].
  rewrite is_neg_zero_255.
  assert (M : (if PrimFloat.ltb r 255 then r else r) = r) by now destruct (PrimFloat.ltb r 255).
  rewrite M. unfold Math_max. change (PrimFloat.is_nan 0) with false. rewrite N, L2. cbn [orb].
  change (is_neg_zero 0) with false. now destruct (PrimFloat.ltb r 0).
Qed.

(** A number above 255 is clamped to 255. *)
Lemma clamp_above r :
  PrimFloat.ltb 255 r = true -> Math_max 0 (Math_min 255 r) = 255%float.
Proof.
  intros L.
  assert (N : PrimFloat.is_nan r = false).
  { apply Prim2SF_is_nan. intros E. rewrite ltb_spec, E in L. discriminate. }
  unfold Math_min. change (PrimFloat.is_nan 255) with false. rewrite N, L. reflexivity.
Qed.

(** A whole number within 0..255 passes the clamp. *)
Lemma clamp_small k :
  0 <= k <= 255 -> Math_max 0 (Math_min 255 (num_of_Z k)) = num_of_Z k.
Proof.
  intros H. destruct (Z.eq_dec k 0) as [->|NZ]; [reflexivity|].
  assert (A : forallb (fun n => let x := num_of_Z (Z.of_nat n) in
                         negb (PrimFloat.is_nan x) && negb (PrimFloat.ltb 255 x)
                         && PrimFloat.ltb 0 x) (seq 1 255) = true)
    by (vm_compute; reflexivity).
  rewrite forallb_forall in A.
  assert (I : In (Z.to_nat k) (seq 1 255)) by (apply in_seq; lia).
  apply A in I. cbv beta zeta in I. rewrite Z2Nat.id in I by lia.
  apply andb_prop in I as [I L2]. apply andb_prop in I as [N L1].
  apply negb_true_iff in N, L1.
  unfold Math_min. change (PrimFloat.is_nan 255) with false. rewrite N, L1. cbn [orb].
  rewrite is_neg_zero_255.
  assert (M : (if PrimFloat.ltb (num_of_Z k) 255 then num_of_Z k else num_of_Z k) = num_of_Z k)
    by now destruct (PrimFloat.ltb _ 255).
  rewrite M. unfold Math_max. change (PrimFloat.is_nan 0) with false. now rewrite N, L2.
Qed.

End NumSign.

Section NormalizeMore.
Import Num NumOps NumSign.

Lemma normalize_negative value range :
  int32 value -> int32 (min range) -> int32 (max range) ->
  (value - min range) * (max range - min range) < 0 ->
  normalize value range = 0%float.
Proof.
  intros Hv Hlo Hhi Hs. unfold normalize.
  replace (max range =? min range) with false by (symmetry; apply Z.eqb_neq; lia).
  rewrite !sub_exact by now apply int32_small.
  set (a := value - min range) in *. set (b := max range - min range) in *.
  destruct (num_of_Z_finite a ltac:(lia) (int32_diff_small _ _ Hv Hlo)) as (ma & ea & Ea).
  destruct (num_of_Z_finite b ltac:(lia) (int32_diff_small _ _ Hhi Hlo)) as (mb & eb & Eb).
  apply clamp_negative, Math_round_sign.
  rewrite mul_spec. change (Prim2SF 255) with (S754_finite false 8972014882652160 (-45)).
  replace (Some true) with (Some (xorb true false)) by reflexivity.
  apply SFmul_sign. rewrite div_spec, Ea, Eb, SFdiv_sign. f_equal.
  destruct (Z.ltb_spec a 0), (Z.ltb_spec b 0); try reflexivity; nia.
Qed.

End NormalizeMore.

Module NumWhole.
Import Num NumOps NumSign.

Lemma digits2_pos_upper p : Zpos p < 2 ^ Zpos (digits2_pos p).
Proof.
  induction p as [p IH|p IH|]; simpl digits2_pos; [| |simpl; lia];
    rewrite Pos2Z.inj_succ, Z.pow_succ_r by lia; lia.
Qed.

(** The mantissa of a number has at most 53 digits. *)
Lemma valid_mantissa x s m e :
  Prim2SF x = S754_finite s m e -> Zpos m < 2 ^ 53.
Proof.
  intros E. pose proof (Prim2SF_valid x) as V. rewrite E in V.
  simpl in V. unfold bounded, canonical_mantissa in V.
  apply andb_prop in V as [C _]. apply Z.eqb_eq in C.
  unfold fexp in C.
  assert (D : Zpos (digits2_pos m) <= 53) by (unfold prec in C; lia).
  pose proof (digits2_pos_upper m).
  assert (2 ^ Zpos (digits2_pos m) <= 2 ^ 53) by (apply Z.pow_le_mono_r; lia).
  lia.
Qed.

(** A whole number above 255 compares above 255. *)
Lemma num_of_Z_above k : 255 < k < 2 ^ 53 -> PrimFloat.ltb 255 (num_of_Z k) = true.
Proof.
  intros H.
  destruct (num_of_Z_canonical k ltac:(lia) ltac:(lia)) as (m & M & E).
  rewrite ltb_spec, E.
  change (Prim2SF 255) with (S754_finite false 8972014882652160 (-45)).
  replace (k <? 0) with false by (symmetry; apply Z.ltb_ge; lia).
  unfold SFltb, SFcompare.
  assert (D : 9 <= Zdigits2 k).
  { destruct k as [|p|p]; try lia. simpl Zdigits2.
    pose proof (digits2_pos_upper p).
    destruct (Z_le_gt_dec 9 (Zpos (digits2_pos p))) as [|G]; [assumption|].
    assert (2 ^ Zpos (digits2_pos p) <= 2 ^ 8) by (apply Z.pow_le_mono_r; lia).
    change (2 ^ 8) with 256 in *. lia. }
  replace (-45 ?= Zdigits2 k - 53) with Lt by (symmetry; apply Z.compare_lt_iff; lia).
  reflexivity.
Qed.

Lemma zero_of_spec x : Prim2SF x = S754_zero false -> x = 0%float.
Proof. intros E. apply Prim2SF_inj. now rewrite E. Qed.

(** What [Math.round] returns, as far as the clamp can tell. *)
Lemma Math_round_cases x :
  PrimFloat.is_nan x = false ->
  SFsign (Prim2SF (Math_round x)) = Some true
  \/ Math_round x = 0%float
  \/ (exists k, 0 < k < 2 ^ 53 /\ Math_round x = num_of_Z k)
  \/ (exists m e, Prim2SF (Math_round x) = S754_finite false m e /\ 0 <= e)
  \/ Prim2SF (Math_round x) = S754_infinity false.
Proof.
  intros N%not_nan_Prim2SF. unfold Math_round.
  destruct (Prim2SF x) as [s|s| |s m e] eqn:E; [| |congruence|].
  - destruct s; [left; now rewrite E|right; left; now apply zero_of_spec].
  - destruct s; [left; now rewrite E|do 4 right; exact E].
  - destruct (0 <=? e) eqn:P.
    + apply Z.leb_le in P.
      destruct s; [left; now rewrite E|do 3 right; left; eauto].
    + apply Z.leb_gt in P.
      destruct s.
      * left. pose proof (Math_round_sign x) as S. unfold Math_round in S.
        rewrite E in S. replace (0 <=? e) with false in S by (symmetry; now apply Z.leb_gt).
        now apply S.
      * set (k := Z.shiftr _ _).
        assert (K : 0 <= k < 2 ^ 53).
        { subst k. rewrite Z.shiftr_div_pow2, Z.shiftl_1_l by lia.
          pose proof (valid_mantissa x _ _ _ E) as B.
          assert (H1 : 0 < 2 ^ (- e - 1)) by (apply Z.pow_pos_nonneg; lia).
          assert (H2 : 2 ^ (- e) = 2 * 2 ^ (- e - 1)).
          { replace (- e) with (Z.succ (- e - 1)) at 1 by lia.
            now rewrite Z.pow_succ_r by lia. }
          rewrite H2. split.
          - apply Z.div_pos; lia.
          - apply Z.div_lt_upper_bound; [lia|].
            change (2 ^ 53) with 9007199254740992 in *. nia. }
        destruct (Z.eqb_spec k 0) as [|NZ]; [right; left; reflexivity|].
        right; right; left. exists k. split; [lia|reflexivity].
Qed.

Lemma clamp_whole r :
  PrimFloat.is_nan r = false ->
  exists n, 0 <= n <= 255 /\ Math_max 0 (Math_min 255 (Math_round r)) = num_of_Z n.
Proof.
  intros N.
  destruct (Math_round_cases r N) as [S|[Z|[(k & K & E)|[(m & e & E & P)|E]]]].
  - exists 0. split; [lia|]. now apply clamp_negative.
  - exists 0. split; [lia|]. rewrite Z. reflexivity.
  - rewrite E. destruct (Z_le_gt_dec k 255) as [L|G].
    + exists k. split; [lia|]. apply clamp_small. lia.
    + exists 255. split; [lia|]. apply clamp_above, num_of_Z_above. lia.
  - exists 255. split; [lia|]. apply clamp_above.
    rewrite ltb_spec, E.
    change (Prim2SF 255) with (S754_finite false 8972014882652160 (-45)).
    unfold SFltb, SFcompare.
    replace (-45 ?= e) with Lt by (symmetry; apply Z.compare_lt_iff; lia). reflexivity.
  - exists 255. split; [lia|]. apply clamp_above.
    rewrite ltb_spec, E. reflexivity.
Qed.

End NumWhole.

(** X12. [normalize] returns a whole number: for a raw value and bounds that
    are 32-bit integers (what [readInt32LE] gives), whatever their order,
    the result is one of the integers 0, 1, ..., 255 as a binary64 number --
    never a fraction, never NaN, never -0 -- so the stick and trigger
    channels the frame carries are byte values. *)
Theorem normalize_whole (value : Z) (range : AxisRange) :
  int32 value -> int32 (min range) -> int32 (max range) ->
  exists n, 0 <= n <= 255 /\ normalize value range = num_of_Z n.
Proof.
  intros Hv Hlo Hhi. unfold normalize.
  destruct (max range =? min range) eqn:E; [exists 128; split; [lia|reflexivity]|].
  apply Z.eqb_neq in E.
  rewrite !Num.sub_exact by now apply int32_small.
  apply NumWhole.clamp_whole, NumOps.mul_255_not_nan, NumOps.div_not_nan.
  - lia.
  - now apply int32_diff_small.
Qed.

Lemma normalize_whole_witness :
  exists n, 0 <= n <= 255 /\ normalize 12345 {| min := -32768; max := 32767 |} = num_of_Z n.
Proof. apply normalize_whole; unfold int32; simpl; lia. Defined.

Module NumUp.
Import Num NumOps NumSign NumWhole.

Lemma shr_1_m mrs : 0 <= shr_m mrs -> shr_m (shr_1 mrs) = shr_m mrs / 2.
Proof.
  destruct mrs as [m r s]. simpl. intros H.
  destruct m as [|[p|p|]|p]; cbn [shr_m]; try lia;
    first [ reflexivity
          | apply (Z.div_unique_pos _ _ _ 1); lia
          | apply (Z.div_unique_pos _ _ _ 0); lia ].
Qed.

Lemma iter_pos_shr_1_m p :
  forall mrs, 0 <= shr_m mrs ->
  shr_m (SpecFloat.iter_pos shr_1 p mrs) = shr_m mrs / 2 ^ Zpos p.
Proof.
  induction p as [p IH|p IH|]; intros mrs H; simpl SpecFloat.iter_pos.
  - rewrite IH, IH, shr_1_m by auto using iter_pos_shr_1_nonneg, shr_1_nonneg.
    assert (P : 0 < 2 ^ Zpos p) by (apply Z.pow_pos_nonneg; lia).
    rewrite (Z.div_div _ 2 (2 ^ Zpos p)) by lia.
    rewrite (Z.div_div _ (2 * 2 ^ Zpos p) (2 ^ Zpos p)) by lia. f_equal.
    replace (Zpos p~1) with (Zpos p + Zpos p + 1) by lia.
    rewrite !Z.pow_add_r by lia. change (2 ^ 1) with 2. ring.
  - rewrite IH, IH by auto using iter_pos_shr_1_nonneg.
    assert (P : 0 < 2 ^ Zpos p) by (apply Z.pow_pos_nonneg; lia).
    rewrite (Z.div_div _ (2 ^ Zpos p) (2 ^ Zpos p)) by lia. f_equal.
    replace (Zpos p~0) with (Zpos p + Zpos p) by lia.
    rewrite !Z.pow_add_r by lia. ring.
  - rewrite shr_1_m by assumption. reflexivity.
Qed.

Lemma round_nearest_even_ge m l : m <= round_nearest_even m l.
Proof. destruct l as [|[]]; simpl; try lia. destruct (Z.even m); lia. Qed.

(** The number of digits against the magnitude. *)
Lemma digits_gt k p : 2 ^ k <= Zpos p -> k < Zpos (digits2_pos p).
Proof.
  intros H. pose proof (digits2_pos_upper p) as U.
  destruct (Z_lt_le_dec k (Zpos (digits2_pos p))) as [|G]; [assumption|].
  assert (2 ^ Zpos (digits2_pos p) <= 2 ^ k) by (apply Z.pow_le_mono_r; lia). lia.
Qed.

(** The first step of rounding: the mantissa is cut down to 53 digits. *)
Lemma shr_fexp_cut p e l :
  SpecFloat.emin prec emax <= e ->
  let t := Z.max (Zpos (digits2_pos p) - 53) 0 in
  snd (shr_fexp prec emax (Zpos p) e l) = e + t
  /\ shr_m (fst (shr_fexp prec emax (Zpos p) e l)) = Zpos p / 2 ^ t
  /\ 0 < Zpos p / 2 ^ t.
Proof.
  intros E t. unfold shr_fexp, shr. simpl Zdigits2.
  set (d := Zpos (digits2_pos p)) in *.
  assert (M : shr_m (shr_record_of_loc (Zpos p) l) = Zpos p) by (destruct l as [|[]]; reflexivity).
  pose proof (digits2_pos_lower p) as Lo. fold d in Lo.
  unfold fexp. change prec with 53 in *.
  destruct (Z_le_gt_dec d 53) as [S|B].
  - assert (t = 0) as -> by (subst t; lia).
    replace (2 ^ 0) with 1 by reflexivity. rewrite Z.div_1_r, Z.add_0_r.
    destruct (Z.max (d + e - 53) (SpecFloat.emin 53 emax) - e) as [|n|n] eqn:N; try lia;
      cbn [fst snd]; rewrite M; repeat split; lia.
  - assert (t = d - 53) as -> by (subst t; lia).
    replace (Z.max (d + e - 53) (SpecFloat.emin 53 emax) - e) with (d - 53) by lia.
    destruct (d - 53) as [|n|n] eqn:N; try lia. simpl fst. simpl snd.
    rewrite iter_pos_shr_1_m by (rewrite M; lia). rewrite M.
    split; [lia|]. split; [reflexivity|].
    apply Z.div_str_pos. split; [apply Z.pow_pos_nonneg; lia|].
    etransitivity; [|exact Lo]. apply Z.pow_le_mono_r; lia.
Qed.

(** Rounding a positive mantissa never goes below the mantissa cut down to
    53 digits. *)
Lemma binary_round_aux_lower s p e l :
  SpecFloat.emin prec emax <= e ->
  let t := Z.max (Zpos (digits2_pos p) - 53) 0 in
  binary_round_aux prec emax s (Zpos p) e l = S754_infinity s
  \/ exists m2 e2,
       binary_round_aux prec emax s (Zpos p) e l = S754_finite s m2 e2
       /\ e + t <= e2 /\ (e2 = e + t -> Zpos p / 2 ^ t <= Zpos m2).
Proof.
  intros E t. unfold binary_round_aux.
  destruct (shr_fexp_cut p e l E) as (E1 & M1 & P1). fold t in E1, M1, P1.
  destruct (shr_fexp prec emax (Zpos p) e l) as [mrs' e']. simpl in E1, M1. subst e'.
  pose proof (round_nearest_even_ge (shr_m mrs') (loc_of_shr_record mrs')) as G.
  set (mr := round_nearest_even (shr_m mrs') (loc_of_shr_record mrs')) in *.
  assert (0 <= t) by (subst t; lia).
  destruct mr as [|q|q] eqn:Q; try lia.
  destruct (shr_fexp_cut q (e + t) loc_Exact ltac:(lia)) as (E2 & M2 & P2).
  set (t2 := Z.max (Zpos (digits2_pos q) - 53) 0) in *.
  destruct (shr_fexp prec emax (Zpos q) (e + t) loc_Exact) as [mrs'' e''].
  simpl in E2, M2. subst e''.
  assert (0 <= t2) by (subst t2; lia).
  rewrite M2. destruct (Zpos q / 2 ^ t2) as [|m2|m2] eqn:D; try lia.
  destruct (e + t + t2 <=? emax - prec); [|now left].
  right. exists m2, (e + t + t2). split; [reflexivity|]. split; [lia|].
  intros T. assert (t2 = 0) as Z by lia. rewrite Z in D.
  replace (2 ^ 0) with 1 in D by reflexivity. rewrite Z.div_1_r in D. lia.
Qed.

(** The mantissa of a number that is not subnormal has exactly 53 digits. *)
Lemma valid_normal x s m e :
  Prim2SF x = S754_finite s m e -> SpecFloat.emin prec emax < e ->
  2 ^ 52 <= Zpos m < 2 ^ 53.
Proof.
  intros E N. pose proof (Prim2SF_valid x) as V. rewrite E in V.
  simpl in V. unfold bounded, canonical_mantissa in V.
  apply andb_prop in V as [C _]. apply Z.eqb_eq in C. unfold fexp in C.
  assert (D : Zpos (digits2_pos m) = 53) by (change prec with 53 in *; lia).
  pose proof (digits2_pos_lower m) as Lo. pose proof (digits2_pos_upper m) as Up.
  rewrite D in Lo, Up. change (53 - 1) with 52 in Lo. lia.
Qed.

(** The canonical mantissa of a whole number. *)
Lemma num_of_Z_mantissa z :
  0 < z < 2 ^ 53 ->
  exists m, Prim2SF (num_of_Z z) = S754_finite false m (Zdigits2 z - 53)
         /\ Zpos m = z * 2 ^ (53 - Zdigits2 z)
         /\ Zpos (digits2_pos m) = 53
         /\ 1 <= Zdigits2 z <= 53.
Proof.
  intros H. destruct (num_of_Z_canonical z ltac:(lia) ltac:(lia)) as (m & M & E).
  pose proof (Zdigits2_small z ltac:(lia) ltac:(lia)) as D.
  exists m. replace (z <? 0) with false in E by (symmetry; apply Z.ltb_ge; lia).
  rewrite Z.abs_eq in M by lia.
  repeat split; try assumption; try lia.
  destruct z as [|p|p]; try lia. simpl Zdigits2 in *.
  rewrite (digits2_pos_scaled p m (53 - Zpos (digits2_pos p))); lia.
Qed.

(** A quotient of whole numbers that is at least 1 is computed as a number
    that is at least 1. *)
Lemma div_ge_one a b :
  0 < b <= a -> a < 2 ^ 53 ->
  Prim2SF (PrimFloat.div (num_of_Z a) (num_of_Z b)) = S754_infinity false
  \/ exists m e, Prim2SF (PrimFloat.div (num_of_Z a) (num_of_Z b)) = S754_finite false m e
               /\ -52 <= e.
Proof.
  intros H B.
  destruct (num_of_Z_mantissa a ltac:(lia)) as (ma & Ea & Ma & Da & Ra).
  destruct (num_of_Z_mantissa b ltac:(lia)) as (mb & Eb & Mb & Db & Rb).
  rewrite div_spec, Ea, Eb. unfold SF64div, SFdiv, SFdiv_core_binary.
  simpl Zdigits2. rewrite Da, Db.
  set (da := Zdigits2 a) in *. set (db := Zdigits2 b) in *.
  assert (Mono : db <= da).
  { destruct a as [|pa|pa], b as [|pb|pb]; try lia. subst da db. simpl Zdigits2 in *.
    pose proof (digits2_pos_lower pb).
    assert (Zpos (digits2_pos pb) - 1 < Zpos (digits2_pos pa)) by (apply digits_gt; lia).
    lia. }
  replace (53 + (da - 53) - (53 + (db - 53))) with (da - db) by lia.
  replace (fexp prec emax (da - db)) with (da - db - 53)
    by (unfold fexp, SpecFloat.emin, prec, emax; lia).
  replace (Z.min (da - db - 53) (da - 53 - (db - 53))) with (da - db - 53) by lia.
  replace (da - 53 - (db - 53) - (da - db - 53)) with 53 by lia.
  cbv iota beta. rewrite Z.shiftl_mul_pow2 by lia.
  pose proof (digits2_pos_lower ma) as La. pose proof (digits2_pos_upper ma) as Ua.
  pose proof (digits2_pos_lower mb) as Lb. pose proof (digits2_pos_upper mb) as Ub.
  rewrite Da in La, Ua. rewrite Db in Lb, Ub. change (53 - 1) with 52 in La, Lb.
  change (2 ^ 52) with 4503599627370496 in La, Lb.
  change (2 ^ 53) with 9007199254740992 in *.
  pose proof (Z_div_mod (Zpos ma * 9007199254740992) (Zpos mb) ltac:(lia)) as Hd.
  destruct (Z.div_eucl (Zpos ma * 9007199254740992) (Zpos mb)) as [q r].
  destruct Hd as [Hq Hr].
  assert (Q : 4503599627370496 <= q) by nia.
  destruct q as [|pq|pq]; try lia.
  destruct (binary_round_aux_lower (xorb false false) pq (da - db - 53)
              (new_location (Zpos mb) r)) as [I|(m2 & e2 & E2 & G & _)].
  { unfold SpecFloat.emin, prec, emax. lia. }
  - left. exact I.
  - right. exists m2, e2. split; [exact E2|].
    destruct (Z.eq_dec da db) as [Same|Diff]; [|lia].
    assert (Zpos ma >= Zpos mb).
    { rewrite Ma, Mb. fold da db. rewrite Same.
      assert (0 < 2 ^ (53 - db)) by (apply Z.pow_pos_nonneg; lia). nia. }
    assert (9007199254740992 <= Zpos pq) by nia.
    assert (53 < Zpos (digits2_pos pq)) by (apply digits_gt; change (2 ^ 53) with 9007199254740992; lia).
    lia.
Qed.

(** Such a number times 255 is at least 255. *)
Lemma mul_255_ge q :
  (Prim2SF q = S754_infinity false
   \/ exists m e, Prim2SF q = S754_finite false m e /\ -52 <= e) ->
  Prim2SF (PrimFloat.mul q 255) = S754_infinity false
  \/ exists m e, Prim2SF (PrimFloat.mul q 255) = S754_finite false m e
               /\ (-45 < e \/ (e = -45 /\ 255 * 2 ^ 45 <= Zpos m)).
Proof.
  intros [I|(m & e & E & G)]; rewrite mul_spec;
    change (Prim2SF 255) with (S754_finite false 8972014882652160 (-45)).
  - left. now rewrite I.
  - pose proof (valid_normal q _ _ _ E ltac:(unfold SpecFloat.emin, prec, emax; lia)) as N.
    rewrite E. unfold SF64mul, SFmul.
    change (2 ^ 52) with 4503599627370496 in N.
    assert (P : 2 ^ 104 <= Zpos (m * 8972014882652160)).
    { change (2 ^ 104) with 20282409603651670423947251286016. lia. }
    apply digits_gt in P.
    destruct (binary_round_aux_lower (xorb false false) (m * 8972014882652160) (e + -45)
                loc_Exact) as [I|(m2 & e2 & E2 & G1 & G2)].
    { unfold SpecFloat.emin, prec, emax. lia. }
    + left. exact I.
    + right. exists m2, e2. split; [exact E2|].
      set (t := Z.max (Zpos (digits2_pos (m * 8972014882652160)) - 53) 0) in *.
      destruct (Z_lt_le_dec (-45) e2) as [|Le]; [now left|right].
      assert (e2 = -45) by lia. assert (t = 52) as T by lia. split; [assumption|].
      rewrite T in G2. specialize (G2 ltac:(lia)).
      etransitivity; [|exact G2].
      apply Z.div_le_lower_bound; [apply Z.pow_pos_nonneg; lia|].
      change (2 ^ 52) with 4503599627370496. change (2 ^ 45) with 35184372088832. lia.
Qed.

(** And it rounds to a whole number that is at least 255, which the clamp
    takes to 255. *)
Lemma clamp_round_ge p :
  (Prim2SF p = S754_infinity false
   \/ exists m e, Prim2SF p = S754_finite false m e
                /\ (-45 < e \/ (e = -45 /\ 255 * 2 ^ 45 <= Zpos m))) ->
  Math_max 0 (Math_min 255 (Math_round p)) = 255%float.
Proof.
  intros [I|(m & e & E & G)].
  - apply clamp_above. unfold Math_round. rewrite I, ltb_spec, I. reflexivity.
  - unfold Math_round. rewrite E.
    destruct (0 <=? e) eqn:P.
    + apply Z.leb_le in P. apply clamp_above. rewrite ltb_spec, E.
      change (Prim2SF 255) with (S754_finite false 8972014882652160 (-45)).
      unfold SFltb, SFcompare.
      replace (-45 ?= e) with Lt by (symmetry; apply Z.compare_lt_iff; lia). reflexivity.
    + apply Z.leb_gt in P.
      pose proof (valid_normal p _ _ _ E ltac:(unfold SpecFloat.emin, prec, emax; lia)) as N.
      set (k := Z.shiftr _ _).
      assert (K : 255 <= k < 2 ^ 53).
      { subst k. rewrite Z.shiftr_div_pow2, Z.shiftl_1_l by lia.
        assert (H1 : 0 < 2 ^ (- e - 1)) by (apply Z.pow_pos_nonneg; lia).
        assert (H2 : 2 ^ (- e) = 2 * 2 ^ (- e - 1)).
        { replace (- e) with (Z.succ (- e - 1)) at 1 by lia.
          now rewrite Z.pow_succ_r by lia. }
        split.
        - apply Z.div_le_lower_bound; [lia|].
          destruct G as [G|[-> G]].
          + assert (2 ^ (- e) <= 2 ^ 44) by (apply Z.pow_le_mono_r; lia).
            change (2 ^ 52) with 4503599627370496 in N.
            change (2 ^ 44) with 17592186044416 in *. lia.
          + change (- -45) with 45. lia.
        - apply Z.div_lt_upper_bound; [lia|].
          change (2 ^ 53) with 9007199254740992 in *. nia. }
      replace (k =? 0) with false by (symmetry; apply Z.eqb_neq; lia).
      destruct (Z.eq_dec k 255) as [->|NE].
      * rewrite clamp_small by lia. reflexivity.
      * apply clamp_above, num_of_Z_above. lia.
Qed.

End NumUp.

(** X13. [normalize] saturates: with 32-bit bounds [min < max], a raw value
    at or below the minimum gives exactly 0 and a raw value at or above the
    maximum gives exactly 255, however far outside the range it lies; a
    device that reports outside its calibrated range is clamped, not
    wrapped. *)
Theorem normalize_saturates (value : Z) (range : AxisRange) :
  int32 value -> int32 (min range) -> int32 (max range) ->
  min range < max range ->
  (value <= min range -> normalize value range = 0%float)
  /\ (max range <= value -> normalize value range = 255%float).
Proof.
  intros Hv Hlo Hhi Hlt. split.
  - intros Hle. destruct (Z.eq_dec value (min range)) as [->|N].
    + now apply normalize_at_min.
    + apply normalize_negative; auto. nia.
  - intros Hge. unfold normalize.
    replace (max range =? min range) with false by (symmetry; apply Z.eqb_neq; lia).
    rewrite !Num.sub_exact by now apply int32_small.
    apply NumUp.clamp_round_ge, NumUp.mul_255_ge, NumUp.div_ge_one; [lia|].
    unfold int32 in *. change (2 ^ 31) with 2147483648 in *.
    change (2 ^ 53) with 9007199254740992. lia.
Qed.

Lemma normalize_saturates_witness :
  normalize (-40000) {| min := -32768; max := 32767 |} = 0%float
  /\ normalize 70000 {| min := 0; max := 65535 |} = 255%float.
Proof.
  split.
  - destruct (normalize_saturates (-40000) {| min := -32768; max := 32767 |})
      as [A _]; try (unfold int32; simpl; lia).
    apply A. simpl. lia.
  - destruct (normalize_saturates 70000 {| min := 0; max := 65535 |})
      as [_ B]; try (unfold int32; simpl; lia).
    apply B. simpl. lia.
Defined.

(** ** The console connection *)

Section Disconnected.

Lemma disconnected_modify f :
  (forall g, ps4Connection (f g) = ps4Connection g) ->
  triple disconnected not_pad_update disconnected (modify f).
Proof. intros H. apply triple_modify. intros g. unfold disconnected. now rewrite H. Qed.

End Disconnected.

Ltac disconnected_tac :=
  repeat match goal with
    | H1 : disconnected ?g, H2 : ps4Connection ?g = Some _ |- _ =>
        unfold disconnected in H1; congruence
    | |- triple _ _ _ skip => apply triple_skip
    | |- triple _ _ _ (emit _) => apply triple_emit; exact I
    | |- triple _ _ _ (_ ;; _) => apply triple_seq_inv
    | |- triple _ _ _ (for_each _ _) => apply triple_for_each; intros ? ?
    | |- triple _ _ _ (with_pad _ _) => apply triple_with_pad; [intros ? ?|auto]
    | |- triple _ _ _ (with_conn _ _) => apply triple_with_conn; [intros ? ?|auto]
    | |- triple _ _ _ (with_state _) => apply triple_with_state_inv; intros ? ?
    | |- triple _ _ _ (modify_conn _ _) => apply disconnected_modify; intros ?; reflexivity
    | |- triple _ _ _ (modify_pad _ _) => apply disconnected_modify; intros ?; reflexivity
    | |- triple _ _ _ (modify _) => apply disconnected_modify; intros ?; reflexivity
    | |- triple _ _ _ (if ?b then _ else _) => destruct b eqn:?
    | |- triple _ _ _ (match ?x with _ => _ end) => destruct x eqn:?
    | |- triple _ _ _ (let _ := _ in _) => cbv zeta
    end.

Lemma disconnected_handle ev :
  (forall host port throws, ev <> ApiConnect host port throws) ->
  triple disconnected not_pad_update disconnected (handle ev).
Proof.
  intros N. destruct ev; simpl handle;
    try (exfalso; eapply N; reflexivity);
    repeat autounfold with handlers; disconnected_tac.
Qed.

Lemma pad_updates_none effs : Forall not_pad_update effs -> pad_updates effs = [].
Proof.
  induction 1 as [|e effs H F IH]; [reflexivity|].
  change (pad_updates (e :: effs)) with (pad_updates ([e] ++ effs)).
  unfold pad_updates in *. rewrite omap_app, IH, app_nil_r.
  destruct e as [| k [] | | | | | | |]; simpl in *; try reflexivity. contradiction.
Qed.

(** X14. Nothing reaches the console without [/api/connect]: from a state
    with no current connection, whatever the readers, the scan, the timers,
    old sockets and the other requests do, as long as no connect request
    arrives the bridge sends no pad-update frame at all and still has no
    current connection; input that arrives in the meantime is dropped, not
    queued. *)
Theorem no_push_while_disconnected (g : Bridge) (evs : list Event) :
  ps4Connection g = None ->
  (forall host port throws, ~ In (ApiConnect host port throws) evs) ->
  pad_updates (snd (run evs g)) = []
  /\ ps4Connection (fst (run evs g)) = None.
Proof.
  intros D N.
  destruct (triple_for_each disconnected not_pad_update evs handle) with (g := g)
    as [D' E].
  - intros ev I. apply disconnected_handle. intros h p t ->. exact (N h p t I).
  - exact D.
  - split; [apply pad_updates_none, E|exact D'].
Qed.

Lemma no_push_while_disconnected_witness :
  pad_updates
    (snd (run [ StreamData 0 sample_frame; ReconnectTimerFired 0 false; ApiDisconnect ]
              sample_assigned)) = []
  /\ ps4Connection
       (fst (run [ StreamData 0 sample_frame; ReconnectTimerFired 0 false; ApiDisconnect ]
                 sample_assigned)) = None.
Proof.
  apply no_push_while_disconnected.
  - reflexivity.
  - intros host port throws [H|[H|[H|[]]]]; discriminate.
Defined.

Section Replies.

Lemma info_resolved_conns v g : conns (fst (info_resolved v g)) = conns g.
Proof.
  unfold info_resolved. rewrite andThen_fst, modify_fst.
  destruct (negb _); reflexivity.
Qed.

Lemma on_ws_message_stale k id version g :
  (forall c, conns g !! k = Some c -> id ∉ pending c) ->
  on_ws_message k (Some id) version g = (g, []).
Proof.
  intros H. unfold on_ws_message, with_conn, with_state.
  destruct (conns g !! k) as [c|] eqn:L; [|reflexivity].
  rewrite bool_decide_eq_false_2; [reflexivity|]. now apply H.
Qed.

Lemma on_info_timeout_stale k id g :
  (forall c, conns g !! k = Some c -> id ∉ pending c) ->
  on_info_timeout k id g = (g, []).
Proof.
  intros H. unfold on_info_timeout, with_conn, with_state.
  destruct (conns g !! k) as [c|] eqn:L; [|reflexivity].
  rewrite bool_decide_eq_false_2; [reflexivity|]. now apply H.
Qed.

(** Once an [info] request is settled, by its timeout or by an answer, its
    id is no longer pending. *)
Lemma on_info_timeout_settled k id g c :
  conns (fst (on_info_timeout k id g)) !! k = Some c -> id ∉ pending c.
Proof.
  unfold on_info_timeout, with_conn, with_state.
  destruct (conns g !! k) as [c0|] eqn:L; [|simpl; congruence].
  destruct (bool_decide (id ∈ pending c0)) eqn:B.
  - rewrite andThen_fst, info_resolved_conns. unfold modify_conn. rewrite modify_fst.
    simpl conns. rewrite list_lookup_alter_eq, L. simpl. intros E. injection E as E. rewrite <- E. simpl.
    intros [_ N]%elem_of_difference. apply N, elem_of_singleton. reflexivity.
  - apply bool_decide_eq_false in B. simpl. congruence.
Qed.

Lemma on_ws_message_settled k id version g c :
  conns (fst (on_ws_message k (Some id) version g)) !! k = Some c -> id ∉ pending c.
Proof.
  unfold on_ws_message, with_conn, with_state.
  destruct (conns g !! k) as [c0|] eqn:L; [|simpl; congruence].
  destruct (bool_decide (id ∈ pending c0)) eqn:B.
  - rewrite !andThen_fst, emit_fst. unfold modify_conn. rewrite modify_fst.
    simpl conns. rewrite info_resolved_conns, list_lookup_alter_eq, L. simpl.
    intros E. injection E as E. rewrite <- E. simpl.
    intros [_ N]%elem_of_difference. apply N, elem_of_singleton. reflexivity.
  - apply bool_decide_eq_false in B. simpl. congruence.
Qed.

End Replies.

(** X15. An [info] request is settled once: after its 2-second timer has
    fired, a reply with the same id is ignored (no state change, no effect),
    and after the reply has arrived a second reply with that id and the
    timer are ignored as well; for a pending id the timer leaves the
    firmware version empty and the reply sets it to the version it carries,
    or to the empty string when it carries none. *)
Theorem late_info_reply (k : nat) (id : Z) (version version' : option string) (g : Bridge) :
  let g1 := fst (handle (InfoTimerFired k id) g) in
  let g2 := fst (handle (WsMessage k (Some id) version) g) in
  handle (WsMessage k (Some id) version) g1 = (g1, [])
  /\ handle (WsMessage k (Some id) version') g2 = (g2, [])
  /\ handle (InfoTimerFired k id) g2 = (g2, [])
  /\ (forall c, conns g !! k = Some c -> id ∈ pending c ->
        ps4Version g1 = EmptyString
        /\ ps4Version g2 = match version with Some v => v | None => EmptyString end).
Proof.
  intros g1 g2. subst g1 g2. simpl handle. split; [|split; [|split]].
  - apply on_ws_message_stale. intros c. apply on_info_timeout_settled.
  - apply on_ws_message_stale. intros c. apply on_ws_message_settled.
  - apply on_info_timeout_stale. intros c. apply on_ws_message_settled.
  - intros c L P. unfold on_info_timeout, on_ws_message, with_conn, with_state.
    rewrite L, !bool_decide_eq_true_2 by assumption.
    rewrite !andThen_fst. unfold modify_conn at 2. rewrite modify_fst.
    unfold info_resolved. rewrite !andThen_fst, !modify_fst.
    split.
    + simpl. reflexivity.
    + destruct (negb _); reflexivity.
Qed.

Section Reconnect.

Variable k : nat.

(** Connection [k] waits for its reconnect timer: armed, not closed on
    purpose. *)
Let waiting (c0 c : PS4Connection) : Prop :=
  c_host c = c_host c0 /\ c_port c = c_port c0
  /\ intentionallyClosed c = false /\ reconnectTimer c = true /\ timerPending c = true.

Lemma on_ws_close_arms g c :
  conns g !! k = Some c -> intentionallyClosed c = false -> reconnectTimer c = false ->
  (exists c', conns (fst (on_ws_close k g)) !! k = Some c' /\ waiting c c')
  /\ socket_effects (snd (on_ws_close k g)) = [SetTimeout (ReconnectTimer k) 3000].
Proof.
  intros L C T.
  unfold on_ws_close, scheduleReconnect, andThen, modify_conn, modify, emit, skip,
    with_conn, with_state.
  repeat first [ rewrite list_lookup_alter_eq | rewrite L | rewrite C | rewrite T
               | rewrite list_alter_alter_eq | progress simpl ].
  split; [|reflexivity]. eexists. split; [reflexivity|]. repeat split; assumption.
Qed.

Lemma on_ws_close_waiting g c0 c :
  conns g !! k = Some c -> waiting c0 c ->
  (exists c', conns (fst (on_ws_close k g)) !! k = Some c' /\ waiting c0 c')
  /\ socket_effects (snd (on_ws_close k g)) = [].
Proof.
  intros L (H & P & C & T & A).
  unfold on_ws_close, scheduleReconnect, andThen, modify_conn, modify, emit, skip,
    with_conn, with_state.
  repeat first [ rewrite list_lookup_alter_eq | rewrite L | rewrite C | rewrite T
               | rewrite list_alter_alter_eq | progress simpl ].
  split; [|reflexivity]. eexists. split; [reflexivity|]. repeat split; assumption.
Qed.

Lemma socket_effects_app e1 e2 :
  socket_effects (e1 ++ e2) = socket_effects e1 ++ socket_effects e2.
Proof. unfold socket_effects. apply List.filter_app. Qed.

Lemma closes_waiting n :
  forall g c0 c,
  conns g !! k = Some c -> waiting c0 c ->
  (exists c', conns (fst (run (repeat (WsClosed k) n) g)) !! k = Some c' /\ waiting c0 c')
  /\ socket_effects (snd (run (repeat (WsClosed k) n) g)) = [].
Proof.
  induction n as [|n IH]; intros g c0 c L W.
  - split; [|reflexivity]. exists c. now split.
  - change (run (repeat (WsClosed k) (S n)) g)
      with ((on_ws_close k ;; run (repeat (WsClosed k) n)) g).
    rewrite andThen_fst, andThen_snd, socket_effects_app.
    destruct (on_ws_close_waiting g c0 c L W) as [(c1 & L1 & W1) ->].
    exact (IH _ c0 c1 L1 W1).
Qed.

Lemma timer_fires g c0 c :
  conns g !! k = Some c -> waiting c0 c ->
  snd (handle (ReconnectTimerFired k false) g) = [NewWebSocket k (c_host c0) (c_port c0)]
  /\ exists c', conns (fst (handle (ReconnectTimerFired k false) g)) !! k = Some c'
       /\ ws c' = true /\ reconnectTimer c' = false /\ timerPending c' = false
       /\ intentionallyClosed c' = false.
Proof.
  intros L (H & P & C & T & A). simpl handle.
  unfold reconnect_callback, connect, andThen, modify_conn, modify, emit, skip,
    with_conn, with_state.
  repeat first [ rewrite list_lookup_alter_eq | rewrite L | rewrite C | rewrite A
               | rewrite H | rewrite P
               | rewrite list_alter_alter_eq | progress simpl ].
  split; [reflexivity|].
  eexists. split; [reflexivity|]. simpl. auto.
Qed.

End Reconnect.

(** X16. Reconnecting after the socket is lost: for a connection that was
    not closed on purpose and has no reconnect timer yet, any number of
    close events of its socket arm one timer of 3000 ms, not one per event,
    and when the timer fires the connection opens one new socket to the same
    host and port; it then has a socket, no timer, and is still not marked
    as closed on purpose. *)
Theorem reconnect_after_close (k : nat) (g : Bridge) (c : PS4Connection) (n : nat) :
  conns g !! k = Some c -> intentionallyClosed c = false -> reconnectTimer c = false ->
  let evs := repeat (WsClosed k) (S n) ++ [ReconnectTimerFired k false] in
  socket_effects (snd (run evs g))
  = [SetTimeout (ReconnectTimer k) 3000; NewWebSocket k (c_host c) (c_port c)]
  /\ exists c', conns (fst (run evs g)) !! k = Some c'
       /\ ws c' = true /\ reconnectTimer c' = false /\ timerPending c' = false
       /\ intentionallyClosed c' = false.
Proof.
  intros L C T evs. subst evs. unfold run. rewrite for_each_app.
  rewrite andThen_fst, andThen_snd, socket_effects_app.
  change (for_each (repeat (WsClosed k) (S n)) handle g)
    with ((on_ws_close k ;; run (repeat (WsClosed k) n)) g).
  rewrite andThen_fst, andThen_snd, socket_effects_app.
  destruct (on_ws_close_arms k g c L C T) as [(c1 & L1 & W1) ->].
  destruct (closes_waiting k n _ c c1 L1 W1) as [(c2 & L2 & W2) ->].
  change (for_each [ReconnectTimerFired k false] handle)
    with (handle (ReconnectTimerFired k false) ;; skip).
  rewrite andThen_fst, andThen_snd, skip_fst.
  destruct (timer_fires k _ c c2 L2 W2) as [-> X].
  split; [reflexivity|]. exact X.
Qed.

Lemma reconnect_after_close_witness :
  socket_effects
    (snd (run (repeat (WsClosed 0) 2 ++ [ReconnectTimerFired 0 false]) sample_connected))
  = [ SetTimeout (ReconnectTimer 0) 3000; NewWebSocket 0 "z-ps4" 4263 ].
Proof.
  destruct (conns sample_connected !! 0%nat) as [c|] eqn:L; [|discriminate].
  destruct (reconnect_after_close 0 sample_connected c 1 L) as [E _].
  - vm_compute in L. now injection L as <-.
  - vm_compute in L. now injection L as <-.
  - etransitivity; [exact E|]. vm_compute in L. now injection L as <-.
Defined.

Section Connect.

Lemma lookup_snoc {A} (l : list A) x : (l ++ [x]) !! length l = Some x.
Proof. apply list_lookup_middle. reflexivity. Qed.

Lemma alter_snoc {A} (f : A -> A) (l : list A) x :
  alter f (length l) (l ++ [x]) = l ++ [f x].
Proof.
  rewrite <- (Nat.add_0_r (length l)). rewrite alter_app_r. reflexivity.
Qed.

(** What [close()] leaves alone, and what it does to its own object. *)
Lemma close_frame k g :
  ps4Host (fst (close k g)) = ps4Host g
  /\ ps4Connection (fst (close k g)) = ps4Connection g
  /\ length (conns (fst (close k g))) = length (conns g)
  /\ pads (fst (close k g)) = pads g
  /\ ((k < length (conns g))%nat -> closed_conn k (fst (close k g))).
Proof.
  destruct (conns g !! k) as [c|] eqn:L.
  - destruct (close_spec k g c L) as [L1 _].
    assert (F : ps4Host (fst (close k g)) = ps4Host g
                /\ ps4Connection (fst (close k g)) = ps4Connection g
                /\ length (conns (fst (close k g))) = length (conns g)
                /\ pads (fst (close k g)) = pads g).
    { unfold close, with_conn, with_state. rewrite L.
      destruct (reconnectTimer c), (ws c);
        unfold andThen, modify_conn, modify, emit, skip; simpl;
        rewrite ?length_alter; auto. }
    destruct F as (F1 & F2 & F3 & F4). repeat split; try assumption.
    intros _. eexists. split; [exact L1|reflexivity].
  - unfold close, with_conn, with_state. rewrite L. simpl. repeat split.
    intros B. apply lookup_ge_None in L. lia.
Qed.

Lemma createPS4Connection_spec host port throws g :
  let k := length (conns g) in
  fst (createPS4Connection host port throws g)
  = set_ps4Connection (Some k)
      (set_conns (conns g ++ [set_timer throws throws
                                (set_ws (negb throws) (newConnection host port))]) g)
  /\ snd (createPS4Connection host port throws g)
     = NewWebSocket k host port
       :: (if throws then [SetTimeout (ReconnectTimer k) 3000] else []).
Proof.
  intros k. subst k.
  unfold createPS4Connection, connect, scheduleReconnect, andThen, modify_conn, modify,
    emit, skip, with_conn, with_state.
  destruct throws;
    repeat first [ rewrite lookup_snoc | rewrite alter_snoc | progress simpl ];
    split; reflexivity.
Qed.

End Connect.

(** X17. [/api/connect]: an empty host is answered with 400 and changes
    nothing.  Otherwise a new connection to the host becomes the current
    one, with port 4263 when none (or 0) is given; the previous connection, if
    any, is closed for good first (marked as closed on purpose, its timer
    cleared, its socket closed); the pad slots are not touched; when
    creating the socket throws, the new connection has no socket and its
    reconnect timer is armed; the answer is 200 in either case. *)
Theorem api_connect_replaces (host : string) (port : Z) (throws : bool) (g : Bridge) :
  (host = EmptyString -> api_connect host port throws g = (g, [Respond 400]))
  /\ (host <> EmptyString ->
      let k := length (conns g) in
      let port' := if port =? 0 then 4263 else port in
      let g' := fst (api_connect host port throws g) in
      ps4Connection g' = Some k
      /\ ps4Host g' = host /\ ps4Port g' = port'
      /\ conns g' !! k
         = Some (set_timer throws throws (set_ws (negb throws) (newConnection host port')))
      /\ pads g' = pads g
      /\ (forall k0, ps4Connection g = Some k0 -> (k0 < length (conns g))%nat ->
            closed_conn k0 g')
      /\ snd (api_connect host port throws g)
         = match ps4Connection g with Some k0 => snd (close k0 g) | None => [] end
           ++ NewWebSocket k host port'
              :: (if throws then [SetTimeout (ReconnectTimer k) 3000] else [])
           ++ [Respond 200]).
Proof.
  split.
  - intros ->. reflexivity.
  - intros N k port' g'. subst g'. unfold api_connect.
    replace (String.eqb host EmptyString) with false
      by (symmetry; now apply String.eqb_neq).
    set (pre := with_state (fun g0 => match ps4Connection g0 with
                                      | Some k0 => close k0
                                      | None => skip
                                      end)).
    set (g1 := fst (pre g)).
    assert (F : ps4Connection g1 = ps4Connection g
                /\ length (conns g1) = length (conns g)
                /\ pads g1 = pads g
                /\ (forall k0, ps4Connection g = Some k0 -> (k0 < length (conns g))%nat ->
                      closed_conn k0 g1)
                /\ snd (pre g)
                   = match ps4Connection g with Some k0 => snd (close k0 g) | None => [] end).
    { subst g1 pre. unfold with_state. destruct (ps4Connection g) as [k0|] eqn:C.
      - destruct (close_frame k0 g) as (_ & F2 & F3 & F4 & F5).
        rewrite F2. repeat split; auto. intros k1 [= <-]. exact F5.
      - repeat split; auto. discriminate. }
    destruct F as (F1 & F2 & F3 & F4 & F5).
    repeat rewrite ?andThen_fst, ?andThen_snd, ?modify_fst, ?emit_fst. fold g1.
    unfold with_state.
    set (g2 := set_ps4Port _ (set_ps4Host host g1)).
    destruct (createPS4Connection_spec (ps4Host g2) (ps4Port g2) throws g2) as [S1 S2].
    rewrite S1, S2. simpl ps4Host. simpl ps4Port. simpl conns. rewrite F2, F5.
    fold k. fold port'.
    split; [reflexivity|]. split; [reflexivity|]. split; [reflexivity|].
    split; [subst k; rewrite <- F2; apply lookup_snoc|].
    split; [exact F3|]. split.
    + intros k0 C B. destruct (F4 k0 C B) as (c & Lc & Cc).
      exists c. split; [|exact Cc]. simpl. rewrite lookup_app_l; [exact Lc|].
      now apply lookup_lt_Some in Lc.
    + unfold modify, emit. simpl snd. cbn [app]. now destruct throws.
Qed.

Create HintDb requests.

#[local] Hint Unfold
  on_data on_record on_stream_error on_stream_close on_scan vacate
  api_assign api_unassign
  api_connect api_disconnect createPS4Connection close send
  on_ws_open on_ws_close on_ws_message on_info_timeout info_resolved
  reconnect_callback connect scheduleReconnect
  stopEvdevReader startEvdevReader : requests.

Section FreshIds.

Lemma fresh_modify f :
  (forall g, conns (f g) = conns g) ->
  triple conns_fresh (fun _ => True) conns_fresh (modify f).
Proof. intros H. apply triple_modify. intros g. unfold conns_fresh. now rewrite H. Qed.

Lemma fresh_modify_conn k f :
  (forall c, ids_fresh c -> ids_fresh (f c)) ->
  triple conns_fresh (fun _ => True) conns_fresh (modify_conn k f).
Proof.
  intros H. apply triple_modify. intros g F. unfold conns_fresh. simpl.
  apply Forall_alter; [exact F|]. intros c _. apply H.
Qed.

Lemma fresh_new_conn host port :
  triple conns_fresh (fun _ => True) conns_fresh
    (modify (fun g => set_conns (conns g ++ [newConnection host port]) g)).
Proof.
  apply triple_modify. intros g F. unfold conns_fresh. simpl.
  apply Forall_app. split; [exact F|]. apply Forall_singleton.
  split; simpl; [lia|]. intros id H. now apply not_elem_of_empty in H.
Qed.

Lemma fresh_settle id c :
  ids_fresh c -> ids_fresh (set_pending (pending c ∖ {[ id ]}) c).
Proof.
  intros [R P]. split; [exact R|]. simpl. intros x [Hx _]%elem_of_difference. now apply P.
Qed.

Lemma fresh_getInfo k : triple conns_fresh (fun _ => True) conns_fresh (getInfo k).
Proof.
  intros g F. unfold getInfo, with_conn, with_state.
  destruct (conns g !! k) as [c|] eqn:L; [|split; [exact F|constructor]].
  destruct (negb (open c) || negb (ws c)).
  - unfold info_resolved. simpl. split; [exact F|repeat constructor].
  - split.
    + rewrite !andThen_fst, !emit_fst. unfold modify_conn. rewrite !modify_fst.
      unfold conns_fresh. simpl. rewrite list_alter_alter_eq.
      apply Forall_alter; [exact F|]. intros x Hx [R P].
      assert (x = c) as -> by congruence.
      split; simpl; [lia|]. intros id [->%elem_of_singleton|I]%elem_of_union; [lia|].
      specialize (P id I). lia.
    + rewrite !andThen_snd. repeat constructor.
Qed.

End FreshIds.

Ltac fresh_tac :=
  repeat match goal with
    | |- triple _ _ _ skip => apply triple_skip
    | |- triple _ _ _ (getInfo _) => apply fresh_getInfo
    | |- triple _ _ _ (emit _) => apply triple_emit; exact I
    | |- triple _ _ _ (_ ;; _) => apply triple_seq_inv
    | |- triple _ _ _ (for_each _ _) => apply triple_for_each; intros ? ?
    | |- triple _ _ _ (with_pad _ _) => apply triple_with_pad; [intros ? ?|auto]
    | |- triple _ _ _ (with_conn _ _) => apply triple_with_conn; [intros ? ?|auto]
    | |- triple _ _ _ (with_state _) => apply triple_with_state_inv; intros ? ?
    | |- triple _ _ _ (modify_conn _ (fun c => set_pending (pending c ∖ _) c)) =>
        apply fresh_modify_conn; intros ?; apply fresh_settle
    | |- triple _ _ _ (modify_conn _ _) => apply fresh_modify_conn; intros ? ?; assumption
    | |- triple _ _ _ (modify_pad _ _) => apply fresh_modify; intros ?; reflexivity
    | |- triple _ _ _ (modify (fun g => set_conns (conns g ++ _) g)) => apply fresh_new_conn
    | |- triple _ _ _ (modify _) => apply fresh_modify; intros ?; reflexivity
    | |- triple _ _ _ (if ?b then _ else _) => destruct b eqn:?
    | |- triple _ _ _ (match ?x with _ => _ end) => destruct x eqn:?
    | |- triple _ _ _ (let _ := _ in _) => cbv zeta
    end.

Lemma fresh_handle ev : triple conns_fresh (fun _ => True) conns_fresh (handle ev).
Proof. destruct ev; simpl handle; repeat autounfold with requests; fresh_tac. Qed.

(** X18. Request ids are never reused: in every state the bridge reaches
    from its start, the request counter of each connection is non-negative
    and above the id of every [info] request still pending on it, so the id
    the next request takes is not the id of a pending one and a reply cannot
    be matched with the wrong request. *)
Theorem request_ids_fresh (evs : list Event) (k : nat) (c : PS4Connection) :
  conns (fst (run evs initBridge)) !! k = Some c ->
  0 <= rpcId c
  /\ (forall id, id ∈ pending c -> 0 <= id < rpcId c)
  /\ rpcId c ∉ pending c.
Proof.
  intros L.
  destruct (triple_for_each conns_fresh (fun _ => True) evs handle
              (fun ev _ => fresh_handle ev) initBridge) as [F _].
  { constructor. }
  fold (run evs) in F. unfold conns_fresh in F. rewrite Forall_lookup in F.
  destruct (F k c L) as [R P]. split; [exact R|]. split; [exact P|].
  intros I. specialize (P _ I). lia.
Qed.

Lemma request_ids_fresh_witness :
  exists c,
    conns (fst (run [ ApiConnect "z-ps4" 4263 false; WsOpened 0 ] initBridge)) !! 0%nat = Some c
    /\ pending c = {[ 0 ]} /\ 0 <= rpcId c /\ rpcId c ∉ pending c.
Proof.
  destruct (conns (fst (run [ ApiConnect "z-ps4" 4263 false; WsOpened 0 ] initBridge)) !! 0%nat)
    as [c|] eqn:L; [|discriminate].
  exists c. split; [reflexivity|].
  destruct (request_ids_fresh _ _ _ L) as (R & _ & N).
  split; [|split; [exact R|exact N]].
  vm_compute in L. now injection L as <-.
Defined.

(** ** Slots, readers and the controller list *)

Section SamePads.

Variable p0 : list PadSlot.

Lemma same_pads_modify f :
  (forall g, pads (f g) = pads g) ->
  triple (same_pads p0) (fun _ => True) (same_pads p0) (modify f).
Proof. intros H. apply triple_modify. intros g. unfold same_pads. now rewrite H. Qed.

End SamePads.

Ltac same_pads_tac :=
  repeat match goal with
    | |- triple _ _ _ skip => apply triple_skip
    | |- triple _ _ _ (emit _) => apply triple_emit; exact I
    | |- triple _ _ _ (_ ;; _) => apply triple_seq_inv
    | |- triple _ _ _ (with_conn _ _) => apply triple_with_conn; [intros ? ?|auto]
    | |- triple _ _ _ (with_state _) => apply triple_with_state_inv; intros ? ?
    | |- triple _ _ _ (modify_conn _ _) => apply same_pads_modify; intros ?; reflexivity
    | |- triple _ _ _ (modify _) => apply same_pads_modify; intros ?; reflexivity
    | |- triple _ _ _ (if ?b then _ else _) => destruct b eqn:?
    | |- triple _ _ _ (match ?x with _ => _ end) => destruct x eqn:?
    | |- triple _ _ _ (let _ := _ in _) => cbv zeta
    end.

(** The handlers of the console connection do not touch the slots. *)
Lemma connection_keeps_pads ev g :
  match ev with
  | ApiConnect _ _ _ | ApiDisconnect | WsOpened _ | WsClosed _ | WsMessage _ _ _
  | ReconnectTimerFired _ _ | InfoTimerFired _ _ => pads (fst (handle ev g)) = pads g
  | _ => True
  end.
Proof.
  destruct ev; try exact I;
    match goal with
    | |- pads (fst (handle ?ev g)) = pads g =>
        assert (T : triple (same_pads (pads g)) (fun _ => True) (same_pads (pads g))
                      (handle ev))
          by (simpl handle; repeat autounfold with handlers; same_pads_tac);
        exact (proj1 (T g eq_refl))
    end.
Qed.

Section Readers.

Lemma reader_ok_stopped slot : reader_ok (stopped slot).
Proof. reflexivity. Qed.

Lemma reader_ok_set_state s slot : reader_ok slot -> reader_ok (set_state s slot).
Proof. intros H. exact H. Qed.

Lemma readers_alter f i g g' :
  pads g' = alter f i (pads g) ->
  (forall slot, pads g !! i = Some slot -> reader_ok slot -> reader_ok (f slot)) ->
  readers_ok g -> readers_ok g'.
Proof.
  intros E H [L F]. split; rewrite E.
  - now rewrite length_alter.
  - apply Forall_alter; [exact F|]. exact H.
Qed.

Lemma readers_stop i g : readers_ok g -> readers_ok (fst (stopEvdevReader i g)).
Proof.
  intros H. apply (readers_alter stopped i g); [|intros; apply reader_ok_stopped|exact H].
  now rewrite stopEvdevReader_fst.
Qed.

Lemma vacate_pads i g :
  pads (fst (vacate i g)) = alter (fun slot => set_device None (stopped slot)) i (pads g).
Proof.
  unfold vacate. rewrite !andThen_fst, emit_fst, stopEvdevReader_fst.
  unfold modify_pad. rewrite modify_fst. simpl pads. now rewrite list_alter_alter_eq.
Qed.

Lemma readers_vacate i g : readers_ok g -> readers_ok (fst (vacate i g)).
Proof.
  intros H. apply (readers_alter _ i g _ (vacate_pads i g)); [|exact H].
  intros slot _ _. reflexivity.
Qed.

Lemma readers_start i k g : readers_ok g -> readers_ok (fst (startEvdevReader i k g)).
Proof.
  intros H. unfold startEvdevReader, with_pad, with_state.
  destruct (pads g !! i) as [slot|] eqn:L; [|exact H].
  destruct (device slot) as [dev|] eqn:D; [|exact H].
  destruct (stream slot) as [rs|] eqn:S; [exact H|].
  cbv zeta. rewrite !andThen_fst, emit_fst. unfold modify_pad. rewrite !modify_fst.
  eapply (readers_alter _ i g); [simpl pads; rewrite !list_alter_alter_eq; reflexivity| |exact H].
  intros slot' L' _.
  assert (slot' = slot) as -> by congruence.
  unfold reader_ok. simpl. split; [reflexivity|]. exists dev. rewrite D. auto.
Qed.

Lemma readers_data i buf g : readers_ok g -> readers_ok (fst (on_data i buf g)).
Proof.
  intros H. unfold on_data, with_pad, with_state.
  destruct (pads g !! i) as [slot|] eqn:L; [|exact H].
  destruct (stream slot) as [rs|] eqn:S; [|exact H].
  destruct H as [Len F]. split.
  - now rewrite on_records_pads, length_alter.
  - rewrite on_records_pads. apply Forall_alter; [exact F|]. now intros x _ Hx.
Qed.

Lemma readers_close i g : readers_ok g -> readers_ok (fst (on_stream_close i g)).
Proof.
  intros H. unfold on_stream_close. rewrite andThen_fst. unfold modify_pad.
  rewrite !modify_fst.
  eapply (readers_alter _ i g); [simpl pads; rewrite list_alter_alter_eq; reflexivity| |exact H].
  intros slot _ _. reflexivity.
Qed.

Lemma readers_same_pads g g' : pads g' = pads g -> readers_ok g -> readers_ok g'.
Proof. unfold readers_ok. now intros ->. Qed.

End Readers.

Section ReadersOfHandlers.

Lemma readers_for_each {A} (l : list A) (body : A -> Action) :
  (forall x g, readers_ok g -> readers_ok (fst (body x g))) ->
  forall g, readers_ok g -> readers_ok (fst (for_each l body g)).
Proof.
  intros H. induction l as [|x l IH]; intros g R; simpl for_each; [exact R|].
  rewrite andThen_fst. apply IH, H, R.
Qed.

Lemma readers_vacate_if (cond : string -> bool) j g :
  readers_ok g ->
  readers_ok (fst (with_pad j (fun slot =>
                     match device slot with
                     | Some d => if cond (eventPath d) then vacate j else skip
                     | None => skip
                     end) g)).
Proof.
  intros R. unfold with_pad, with_state.
  destruct (pads g !! j) as [slot|]; [|exact R].
  destruct (device slot) as [d|]; [|exact R].
  destruct (cond (eventPath d)); [now apply readers_vacate|exact R].
Qed.

Lemma readers_scan found g : readers_ok g -> readers_ok (fst (on_scan found g)).
Proof.
  intros R. unfold on_scan, with_state. cbv zeta.
  rewrite andThen_fst, modify_fst.
  assert (R1 : readers_ok (set_controllers found g)) by exact R.
  destruct (_ || _); [|exact R1].
  rewrite andThen_fst, emit_fst.
  apply readers_for_each; [|exact R1].
  intros j g0. apply (readers_vacate_if (fun p => negb (has_path p (map eventPath found)))).
Qed.

Lemma readers_unassign padIndex g :
  readers_ok g -> readers_ok (fst (api_unassign padIndex g)).
Proof.
  intros R. rewrite api_unassign_fst. destruct (_ || _); [exact R|].
  eapply (readers_alter _ _ g); [reflexivity| |exact R]. intros slot _ _. reflexivity.
Qed.

(** Before [/api/assign] binds the device, the target slot has no stream. *)
Lemma stop_if_bound_free i g :
  readers_ok g ->
  let g' := fst (with_pad i (fun slot =>
                   match device slot with
                   | Some _ => stopEvdevReader i
                   | None => skip
                   end) g) in
  readers_ok g' /\ forall slot, pads g' !! i = Some slot -> stream slot = None.
Proof.
  intros R g'. subst g'. unfold with_pad, with_state.
  destruct (pads g !! i) as [slot|] eqn:L.
  - destruct (device slot) as [d|] eqn:D.
    + split; [now apply readers_stop|]. intros slot'.
      rewrite (stopEvdevReader_lookup i g slot L). now intros [= <-].
    + split; [exact R|]. intros slot'. rewrite skip_fst, L. intros [= <-].
      destruct R as [_ F]. rewrite Forall_lookup in F. specialize (F i slot L).
      unfold reader_ok in F. destruct (stream slot) as [rs|]; [|reflexivity].
      destruct F as (_ & dev & D' & _). congruence.
  - split; [exact R|]. intros slot'. rewrite skip_fst, L. discriminate.
Qed.

Lemma readers_bind i d g :
  readers_ok g -> (forall slot, pads g !! i = Some slot -> stream slot = None) ->
  readers_ok (fst (modify_pad i (set_device d) g)).
Proof.
  intros R S. unfold modify_pad. rewrite modify_fst.
  eapply (readers_alter _ i g); [reflexivity| |exact R].
  intros slot L H. unfold reader_ok in *. simpl. now rewrite (S slot L) in *.
Qed.

Lemma readers_assign path padIndex k g :
  readers_ok g -> readers_ok (fst (api_assign path padIndex k g)).
Proof.
  intros R. unfold api_assign.
  destruct (_ || _); [exact R|]. unfold with_state.
  destruct (find _ _) as [dev|]; [|exact R].
  cbv zeta. rewrite !andThen_fst, !emit_fst.
  apply readers_start.
  set (g1 := fst (for_each slot_indices _ g)).
  assert (R1 : readers_ok g1).
  { subst g1. apply readers_for_each; [|exact R].
    intros j g0. apply (readers_vacate_if (fun p => String.eqb p path)). }
  destruct (stop_if_bound_free (Z.to_nat padIndex) g1 R1) as [R2 S2].
  now apply readers_bind.
Qed.

Lemma readers_handle ev g : readers_ok g -> readers_ok (fst (handle ev g)).
Proof.
  intros R. pose proof (connection_keeps_pads ev g) as K.
  destruct ev; try (apply (readers_same_pads g _ K R)); simpl handle.
  - now apply readers_data.
  - now apply readers_stop.
  - now apply readers_close.
  - now apply readers_scan.
  - now apply readers_assign.
  - now apply readers_unassign.
Qed.

Lemma readers_run evs : forall g, readers_ok g -> readers_ok (fst (run evs g)).
Proof. apply readers_for_each. intros ev g. apply readers_handle. Qed.

Lemma readers_init : readers_ok initBridge.
Proof. split; [reflexivity|]. repeat constructor. Qed.

End ReadersOfHandlers.

(** X19. A slot and its reader never disagree: in every state the bridge
    reaches from its start there are four slots, a slot is active exactly
    when it holds a stream, and a slot that holds a stream is bound to a
    device, the stream reads the event file of that very device, and its
    data handler works with the axis layout of that device and with the
    range map stored in the slot. *)
Theorem reader_matches_device (evs : list Event) (i : nat) (slot : PadSlot) :
  let g := fst (run evs initBridge) in
  pads g !! i = Some slot ->
  (i < 4)%nat
  /\ (active slot = true <-> is_Some (stream slot))
  /\ (forall rs, stream slot = Some rs ->
        exists dev, device slot = Some dev
          /\ rs_path rs = eventPath dev
          /\ rs_layout rs = detectAxisLayout dev
          /\ rs_ranges rs = axisRanges slot).
Proof.
  intros g L. destruct (readers_run evs initBridge readers_init) as [Len F].
  fold g in Len, F. split; [apply lookup_lt_Some in L; lia|].
  rewrite Forall_lookup in F. specialize (F i slot L). unfold reader_ok in F.
  destruct (stream slot) as [rs|].
  - destruct F as [A D]. split; [split; eauto|]. now intros rs' [= <-].
  - split; [|discriminate]. rewrite F. split; [discriminate|]. now intros [? [=]].
Qed.

Lemma reader_matches_device_witness :
  (active (slot_at sample_assigned 0) = true <-> is_Some (stream (slot_at sample_assigned 0)))
  /\ option_map rs_path (stream (slot_at sample_assigned 0)) = Some "/dev/input/event5"%string.
Proof.
  destruct (reader_matches_device
              [ ScanTick [sample_gas_pad]; ApiAssign "/dev/input/event5" 0 None ]
              0 (slot_at sample_assigned 0) eq_refl) as (_ & A & _).
  split; [exact A|reflexivity].
Defined.

Section Listed.

Variable cs : list DetectedDevice.

Lemma listed_modify f :
  (forall g, pads (f g) = pads g /\ controllers (f g) = controllers g) ->
  triple (listed_with cs) (fun _ => True) (listed_with cs) (modify f).
Proof.
  intros H. apply triple_modify. intros g [C F]. destruct (H g) as [Hp Hc].
  split; [now rewrite Hc|now rewrite Hp].
Qed.

Lemma listed_modify_pad i f :
  (forall slot, slot_listed cs slot -> slot_listed cs (f slot)) ->
  triple (listed_with cs) (fun _ => True) (listed_with cs) (modify_pad i f).
Proof.
  intros H. apply triple_modify. intros g [C F]. split; [exact C|]. simpl.
  apply Forall_alter; [exact F|]. intros slot _. apply H.
Qed.

Lemma has_path_In p (l : list DetectedDevice) :
  has_path p (map eventPath l) = true <-> exists d, In d l /\ eventPath d = p.
Proof.
  unfold has_path. rewrite existsb_exists. split.
  - intros (q & Hq & E). apply String.eqb_eq in E. subst q.
    apply in_map_iff in Hq as (d & Ed & Hd). eauto.
  - intros (d & Hd & <-). exists (eventPath d). split; [now apply in_map|apply String.eqb_refl].
Qed.

Lemma find_listed path g dev :
  find (fun c => String.eqb (eventPath c) path) (controllers g) = Some dev ->
  has_path (eventPath dev) (map eventPath (controllers g)) = true.
Proof. intros F. apply find_some in F as [I _]. apply has_path_In. eauto. Qed.

End Listed.

Ltac listed_tac :=
  repeat match goal with
    | |- triple _ _ _ skip => apply triple_skip
    | |- triple _ _ _ (emit _) => apply triple_emit; exact I
    | |- triple _ _ _ (_ ;; _) => apply triple_seq_inv
    | |- triple _ _ _ (for_each _ _) => apply triple_for_each; intros ? ?
    | |- triple _ _ _ (with_pad _ _) => apply triple_with_pad; [intros ? ?|auto]
    | |- triple _ _ _ (with_conn _ _) => apply triple_with_conn; [intros ? ?|auto]
    | |- triple _ _ _ (with_state _) => apply triple_with_state_inv; intros ? ?
    | |- triple _ _ _ (modify_conn _ _) => apply listed_modify; intros ?; split; reflexivity
    | Hf : find _ (controllers ?g0) = Some ?dev, Hp : listed_with _ ?g0
      |- triple _ _ _ (modify_pad _ (set_device (Some ?dev))) =>
        apply listed_modify_pad; intros ? _ ? [= <-];
        destruct Hp as [<- _]; exact (find_listed _ _ _ Hf)
    | |- triple _ _ _ (modify_pad _ (set_device None)) =>
        apply listed_modify_pad; intros ? _ ?; discriminate
    | |- triple _ _ _ (modify_pad _ _) => apply listed_modify_pad; intros ? ?; assumption
    | |- triple _ _ _ (modify _) => apply listed_modify; intros ?; split; reflexivity
    | |- triple _ _ _ (if ?b then _ else _) => destruct b eqn:?
    | |- triple _ _ _ (match ?x with _ => _ end) => destruct x eqn:?
    | |- triple _ _ _ (let _ := _ in _) => cbv zeta
    end.

Section ListedHandlers.

Lemma listed_handle cs ev :
  (forall found, ev <> ScanTick found) ->
  triple (listed_with cs) (fun _ => True) (listed_with cs) (handle ev).
Proof.
  intros N. destruct ev; simpl handle;
    try (exfalso; eapply N; reflexivity);
    repeat autounfold with handlers; listed_tac.
Qed.

End ListedHandlers.

Section Scan.

Variable found : list DetectedDevice.

Let body (j : nat) : Action :=
  with_pad j (fun slot =>
    match device slot with
    | Some d =>
        if negb (has_path (eventPath d) (map eventPath found)) then vacate j else skip
    | None => skip
    end).

Lemma scan_body_pads j g :
  pads (fst (body j g)) = alter (scan_slot found) j (pads g).
Proof.
  unfold body, with_pad, with_state.
  destruct (pads g !! j) as [slot|] eqn:L.
  - unfold scan_slot. destruct (device slot) as [d|] eqn:D.
    + destruct (has_path _ _) eqn:H; cbn [negb].
      * rewrite skip_fst. symmetry. apply (alter_fixed _ _ _ slot L). now rewrite D, H.
      * rewrite vacate_pads. apply list_alter_ext; [|reflexivity].
        intros x Hx. assert (x = slot) as -> by congruence. now rewrite D, H.
    + rewrite skip_fst. symmetry. apply (alter_fixed _ _ _ slot L). now rewrite D.
  - rewrite skip_fst. symmetry. now apply alter_out_of_range.
Qed.

Lemma scan_loop_pads g :
  length (pads g) = 4%nat ->
  pads (fst (for_each slot_indices body g)) = scan_slot found <$> pads g.
Proof.
  intros Len. unfold slot_indices. simpl for_each.
  rewrite !andThen_fst, skip_fst, !scan_body_pads.
  destruct (pads g) as [|a [|b [|c [|d [|]]]]]; try discriminate Len. reflexivity.
Qed.

Lemma scan_loop_controllers js :
  forall g, controllers (fst (for_each js body g)) = controllers g.
Proof.
  induction js as [|j js IH]; intros g; simpl for_each; [reflexivity|].
  rewrite andThen_fst, IH. unfold body, with_pad, with_state.
  destruct (pads g !! j) as [slot|]; [|reflexivity].
  destruct (device slot) as [d|]; [|reflexivity].
  destruct (negb _); [|reflexivity].
  unfold vacate. rewrite !andThen_fst, emit_fst, stopEvdevReader_fst. reflexivity.
Qed.

Lemma on_scan_pads g :
  length (pads g) = 4%nat ->
  controllers (fst (on_scan found g)) = found
  /\ pads (fst (on_scan found g))
     = if scan_changed (controllers g) found then scan_slot found <$> pads g else pads g.
Proof.
  intros Len. unfold on_scan, with_state. cbv zeta.
  rewrite andThen_fst, modify_fst. fold (scan_changed (controllers g) found).
  destruct (scan_changed (controllers g) found).
  - rewrite andThen_fst, emit_fst. split.
    + apply (scan_loop_controllers slot_indices (set_controllers found g)).
    + apply (scan_loop_pads (set_controllers found g)). exact Len.
  - split; reflexivity.
Qed.

(** A scan that finds the same paths as the one before changes nothing. *)
Lemma scan_unchanged prev p :
  scan_changed prev found = false ->
  has_path p (map eventPath prev) = true -> has_path p (map eventPath found) = true.
Proof.
  unfold scan_changed. intros C H.
  apply orb_false_iff in C as [C _]. apply orb_false_iff in C as [_ C].
  unfold has_path in H. apply existsb_exists in H as (q & Hq & E).
  apply String.eqb_eq in E. subst q.
  destruct (has_path p (map eventPath found)) eqn:F; [reflexivity|].
  assert (X : existsb (fun p => negb (has_path p (map eventPath found)))
                (map eventPath prev) = true); [|congruence].
  apply existsb_exists. exists p. now rewrite F.
Qed.

Lemma listed_scan g :
  length (pads g) = 4%nat -> listed g -> listed (fst (on_scan found g)).
Proof.
  intros Len [_ F]. destruct (on_scan_pads g Len) as [C P].
  unfold listed, listed_with. rewrite C, P. split; [reflexivity|].
  destruct (scan_changed (controllers g) found) eqn:Ch.
  - apply Forall_fmap, Forall_forall. intros slot _ d. unfold scan_slot.
    destruct (device slot) as [d0|] eqn:D; [|simpl; congruence].
    destruct (has_path (eventPath d0) (map eventPath found)) eqn:H.
    + rewrite D. now intros [= <-].
    + simpl. discriminate.
  - eapply Forall_impl; [exact F|]. intros slot S d D.
    apply (scan_unchanged (controllers g)); [exact Ch|]. now apply S.
Qed.

End Scan.

Section ListedRuns.

Lemma listed_with_listed cs g : listed_with cs g -> listed g.
Proof. intros [C F]. unfold listed, listed_with. now rewrite C. Qed.

Lemma listed_step ev g :
  length (pads g) = 4%nat -> listed g -> listed (fst (handle ev g)).
Proof.
  intros Len H.
  assert (S : forall found, ev = ScanTick found -> listed (fst (handle ev g))).
  { intros found ->. now apply listed_scan. }
  destruct ev; try (eapply S; reflexivity);
    (eapply listed_with_listed, listed_handle; [discriminate|exact H]).
Qed.

Lemma listed_run evs :
  forall g, readers_ok g -> listed g -> listed (fst (run evs g)).
Proof.
  induction evs as [|ev evs IH]; intros g R H; [exact H|].
  unfold run. simpl for_each. rewrite andThen_fst.
  apply IH; [now apply readers_handle|]. apply listed_step; [apply R|exact H].
Qed.

End ListedRuns.

(** X20. A slot only ever holds a detected controller: in every state the
    bridge reaches after [main] has set the first controller list, the
    device bound to a slot has the event path of a controller of the current
    list; assignment takes the device from the list, and the scan empties
    the slots whose path has left it. *)
Theorem assigned_devices_listed
    (found0 : list DetectedDevice) (evs : list Event) (i : nat) (slot : PadSlot)
    (d : DetectedDevice) :
  let g := fst (run evs (startBridge found0)) in
  pads g !! i = Some slot -> device slot = Some d ->
  exists c, In c (controllers g) /\ eventPath c = eventPath d.
Proof.
  intros g L D.
  assert (H : listed g).
  { apply listed_run; [exact readers_init|].
    split; [reflexivity|]. repeat constructor; intros ? [=]. }
  destruct H as [_ F]. rewrite Forall_lookup in F.
  apply has_path_In. exact (F i slot L d D).
Qed.

Lemma assigned_devices_listed_witness :
  exists c,
    In c (controllers (fst (run [ ApiAssign "/dev/input/event5" 0 None ]
                                (startBridge [sample_gas_pad]))))
    /\ eventPath c = "/dev/input/event5"%string.
Proof.
  apply (assigned_devices_listed [sample_gas_pad] [ ApiAssign "/dev/input/event5" 0 None ] 0
           (slot_at (fst (run [ ApiAssign "/dev/input/event5" 0 None ]
                              (startBridge [sample_gas_pad]))) 0)
           sample_gas_pad); reflexivity.
Defined.

(** X21. What one scan does, in any state the bridge reaches: the controller
    list becomes the one found; a slot whose device is no longer among the
    paths found is stopped and emptied (no device, no stream, inactive,
    fresh state); a slot whose device is still there, and an empty slot, are
    left exactly as they are, stream and state included. *)
Theorem scan_vacates_lost (found : list DetectedDevice) (evs : list Event) (j : nat)
    (slot : PadSlot) :
  let g := fst (run evs initBridge) in
  let g' := fst (on_scan found g) in
  pads g !! j = Some slot ->
  controllers g' = found
  /\ pads g' !! j = Some (scan_slot found slot)
  /\ (forall d, device slot = Some d ->
        has_path (eventPath d) (map eventPath found) = true -> pads g' !! j = Some slot)
  /\ (forall d, device slot = Some d ->
        has_path (eventPath d) (map eventPath found) = false ->
        pads g' !! j
        = Some {| device := None; state := freshPadState; stream := None;
                  axisRanges := axisRanges slot; active := false |})
  /\ (device slot = None -> pads g' !! j = Some slot).
Proof.
  intros g g' L.
  assert (R : readers_ok g) by apply readers_run, readers_init.
  assert (H : listed g).
  { apply listed_run; [exact readers_init|].
    split; [reflexivity|]. repeat constructor; intros ? [=]. }
  destruct (on_scan_pads found g (proj1 R)) as [C P]. fold g' in C, P.
  assert (S : pads g' !! j = Some (scan_slot found slot)).
  { rewrite P. destruct (scan_changed (controllers g) found) eqn:Ch.
    - now rewrite list_lookup_fmap, L.
    - rewrite L. f_equal. unfold scan_slot.
      destruct (device slot) as [d|] eqn:D; [|reflexivity].
      destruct H as [_ F]. rewrite Forall_lookup in F.
      now rewrite (scan_unchanged found (controllers g) _ Ch (F j slot L d D)). }
  split; [exact C|]. split; [exact S|]. rewrite S. unfold scan_slot.
  split; [|split].
  - intros d -> ->. reflexivity.
  - intros d -> ->. reflexivity.
  - intros ->. reflexivity.
Qed.

Lemma scan_vacates_lost_witness :
  pads (fst (on_scan [] sample_assigned)) !! 0%nat
  = Some {| device := None; state := freshPadState; stream := None;
            axisRanges := getFallbackRanges "3537"; active := false |}
  /\ pads (fst (on_scan [sample_gas_pad; sample_xbox_pad] sample_assigned)) !! 0%nat
     = Some (slot_at sample_assigned 0).
Proof.
  split.
  - destruct (scan_vacates_lost []
                [ ScanTick [sample_gas_pad]; ApiAssign "/dev/input/event5" 0 None ]
                0 (slot_at sample_assigned 0) eq_refl) as (_ & _ & _ & V & _).
    exact (V sample_gas_pad eq_refl eq_refl).
  - destruct (scan_vacates_lost [sample_gas_pad; sample_xbox_pad]
                [ ScanTick [sample_gas_pad]; ApiAssign "/dev/input/event5" 0 None ]
                0 (slot_at sample_assigned 0) eq_refl) as (_ & _ & K & _).
    exact (K sample_gas_pad eq_refl eq_refl).
Defined.

(** ** Requests and shutdown *)


Section Shutdown.

Lemma stop_all g :
  length (pads g) = 4%nat ->
  fst (for_each slot_indices stopEvdevReader g) = set_pads (stopped <$> pads g) g
  /\ snd (for_each slot_indices stopEvdevReader g)
     = concat (imap stop_effects (pads g)).
Proof.
  intros Len. unfold slot_indices. simpl for_each.
  repeat rewrite ?andThen_fst, ?andThen_snd, ?skip_fst, ?stopEvdevReader_fst,
    ?stopEvdevReader_snd.
  destruct g as [h p cn v cs ps m pc co]. simpl in *.
  destruct ps as [|a [|b [|c [|d [|]]]]]; try discriminate Len.
  split; [reflexivity|]. simpl. unfold stop_effects. simpl.
  destruct (stream a), (stream b), (stream c), (stream d); reflexivity.
Qed.

Lemma close_snd_conns k g g' : conns g' = conns g -> snd (close k g') = snd (close k g).
Proof.
  intros E. unfold close, with_conn, with_state. rewrite E.
  destruct (conns g !! k) as [c|]; [|reflexivity].
  rewrite !andThen_snd. destruct (reconnectTimer c), (ws c); reflexivity.
Qed.

End Shutdown.

(** X23. The SIGINT handler, in any state the bridge reaches: every slot is
    stopped (no stream, inactive, fresh state) while its device stays bound;
    the streams destroyed are exactly those of the slots that had one, in
    slot order; then the console connection, if there is one, is closed for
    good; and the handler opens no socket, arms no timer and opens no stream
    while shutting down. *)
Theorem shutdown_stops_all (found0 : list DetectedDevice) (evs : list Event) :
  let g := fst (run evs (startBridge found0)) in
  pads (fst (shutdown g)) = stopped <$> pads g
  /\ snd (shutdown g)
     = concat (imap stop_effects (pads g))
       ++ match ps4Connection g with Some k => snd (close k g) | None => [] end
  /\ (forall k, ps4Connection g = Some k -> (k < length (conns g))%nat ->
        closed_conn k (fst (shutdown g)))
  /\ Forall (fun e => match e with
                      | NewWebSocket _ _ _ | SetTimeout _ _ | CreateReadStream _ _ => False
                      | _ => True
                      end) (snd (shutdown g)).
Proof.
  intros g.
  assert (Len : length (pads g) = 4%nat).
  { destruct (slots_ok_run evs (startBridge found0) slots_ok_init) as [L _].
    fold g in L. unfold devices in L. now rewrite length_fmap in L. }
  destruct (stop_all g Len) as [S1 S2].
  unfold shutdown. rewrite andThen_fst, andThen_snd, S1, S2.
  set (g1 := set_pads (stopped <$> pads g) g).
  unfold with_state. change (ps4Connection g1) with (ps4Connection g).
  split; [|split; [|split]].
  - destruct (ps4Connection g) as [k|]; [|reflexivity].
    destruct (close_frame k g1) as (_ & _ & _ & P & _). now rewrite P.
  - f_equal. destruct (ps4Connection g) as [k|]; [|reflexivity]. now apply close_snd_conns.
  - intros k -> B. destruct (close_frame k g1) as (_ & _ & _ & _ & C). now apply C.
  - apply Forall_app. split.
    + apply Forall_concat, Forall_forall. intros l Hl.
      apply elem_of_lookup_imap in Hl as (i & slot & -> & _).
      unfold stop_effects. destruct (stream slot); repeat constructor.
    + destruct (ps4Connection g) as [k|]; [|constructor].
      unfold close, with_conn, with_state. change (conns g1) with (conns g).
      destruct (conns g !! k) as [c|]; [|constructor].
      rewrite !andThen_snd. destruct (reconnectTimer c), (ws c); repeat constructor.
Qed.
